(** * Perdoo: archive dispatch, metadata reconciliation and the processing pipeline

  A shallow embedding of [perdoo/__main__.py], [perdoo/archives/__init__.py]
  and [perdoo/services/comicvine.py].  Python objects mutated in place are
  modelled by explicit state passing; calls that leave the repository
  (archive libraries, the catalogue session, the console) are fields of
  environment records. *)

From Stdlib Require Import ZArith List String Ascii Bool Lia DecimalString.
From stdpp Require Import base decidable countable gmap sets list strings sorting.

Local Open Scope Z_scope.

(* ===================================================================== *)
(** ** Python primitives used by the sources *)
(* ===================================================================== *)

Module Py.

(** [bytes] objects. *)
Definition bytes := list Byte.byte.

(** A [str] is held as its UTF-8 encoding, one [ascii] per byte; the
    characters of the sources' own literals and separators are all ASCII. *)

(** A byte that continues a multi-byte character. *)
Definition is_continuation (c : ascii) : bool :=
  ((128 <=? nat_of_ascii c) && (nat_of_ascii c <? 192))%nat.

(** [len(s)]: the number of characters, one for each byte that starts
    one. *)
Fixpoint len (s : string) : nat :=
  match s with
  | EmptyString => O
  | String c rest => if is_continuation c then len rest else S (len rest)
  end.

(** A [pathlib.Path] of a POSIX system, as its [parts]: the components, for
    an absolute path after the anchor ["/"] or ["//"]. *)
Definition Path := list string.

(** The pieces of a string between its separators ["/"]. *)
Fixpoint split_sep (s : string) : list string :=
  match s with
  | EmptyString => [EmptyString]
  | String c rest =>
      if decide (c = "/"%char) then EmptyString :: split_sep rest
      else
        match split_sep rest with
        | piece :: pieces => String c piece :: pieces
        | [] => [String c EmptyString]
        end
  end.

(** The components a path string contributes: its pieces without the empty
    ones and without ["."]. *)
Definition components (s : string) : list string :=
  filter (fun piece => piece <> EmptyString /\ piece <> ".") (split_sep s).

(** The anchor of an absolute path string: exactly two leading separators
    are kept as they are, any other number counts as one. *)
Definition anchor (s : string) : option string :=
  match s with
  | String c1 (String c2 (String c3 _)) =>
      if decide (c1 = "/"%char) then
        if decide (c2 = "/"%char) then
          if decide (c3 = "/"%char) then Some "/" else Some "//"
        else Some "/"
      else None
  | String c1 (String c2 EmptyString) =>
      if decide (c1 = "/"%char) then
        if decide (c2 = "/"%char) then Some "//" else Some "/"
      else None
  | String c1 EmptyString => if decide (c1 = "/"%char) then Some "/" else None
  | EmptyString => None
  end.

(** [p / seg]: the segment is split at its separators; an absolute segment
    replaces the path, an empty one leaves it as it is. *)
Definition joinpath (p : Path) (seg : string) : Path :=
  match anchor seg with
  | Some a => a :: components seg
  | None => p ++ components seg
  end.

Definition is_anchor (part : string) : bool :=
  bool_decide (part = "/") || bool_decide (part = "//").

(** [Path.name]: the final component, empty for a path that is only its
    anchor. *)
Definition name (p : Path) : string :=
  let part := List.last p EmptyString in
  if is_anchor part then EmptyString else part.

(** [Path.parent]; the anchor is its own parent. *)
Definition parent (p : Path) : Path :=
  match p with
  | [part] => if is_anchor part then p else []
  | _ => removelast p
  end.

(** Truth value of a function object: always true. *)
Definition bool_of_function {A B : Type} (f : A -> B) : bool := true.

(** Truth value of a [str]: non-empty. *)
Definition bool_of_str (s : string) : bool :=
  match s with EmptyString => false | String _ _ => true end.

(** Truth value of an optional [str] ([None] and the empty string are false). *)
Definition bool_of_optstr (s : option string) : bool :=
  match s with None => false | Some s => bool_of_str s end.

(** Truth value of an optional [int] ([None] and [0] are false). *)
Definition bool_of_optint (z : option Z) : bool :=
  match z with None => false | Some z => negb (z =? 0) end.

(** Truth value of an optional object without [__bool__]/[__len__]. *)
Definition bool_of_optobj {A : Type} (o : option A) : bool :=
  match o with None => false | Some _ => true end.

(** [a or b] on optional ints. *)
Definition or_optint (a b : option Z) : option Z :=
  if bool_of_optint a then a else b.

(** [str(n)] for a non-negative [int]. *)
Definition str_of_nat (n : nat) : string :=
  NilEmpty.string_of_uint (Nat.to_uint n).

(** [str(z)] for an [int]. *)
Definition str_of_Z (z : Z) : string :=
  if z <? 0 then String "-" (str_of_nat (Z.to_nat (- z)))
  else str_of_nat (Z.to_nat z).

(** ["0" * n]. *)
Fixpoint zeros (n : nat) : string :=
  match n with O => EmptyString | S n => String "0" (zeros n) end.

Definition is_sign (c : ascii) : bool :=
  if decide (c = "+"%char) then true
  else if decide (c = "-"%char) then true else false.

(** [s.zfill(width)]: left fill with ASCII zeros, after a leading sign, up
    to [width] characters. *)
Definition zfill (width : nat) (s : string) : string :=
  let len := len s in
  if (width <=? len)%nat then s
  else
    let fill := zeros (width - len) in
    match s with
    | String c rest =>
        if is_sign c then String c (fill +:+ rest) else fill +:+ s
    | EmptyString => fill
    end.

(** [s.rfind(".")], as [None] for [-1]. *)
Fixpoint rfind_dot (s : string) : option nat :=
  match s with
  | EmptyString => None
  | String c rest =>
      match rfind_dot rest with
      | Some i => Some (S i)
      | None => if decide (c = "."%char) then Some O else None
      end
  end.

Fixpoint drop_str (n : nat) (s : string) : string :=
  match n, s with
  | O, _ => s
  | S n, String _ rest => drop_str n rest
  | S _, EmptyString => EmptyString
  end.

Fixpoint take_str (n : nat) (s : string) : string :=
  match n, s with
  | O, _ => EmptyString
  | S n, String c rest => String c (take_str n rest)
  | S _, EmptyString => EmptyString
  end.

(** [PurePath.suffix] of a file name: from the last dot, when that dot is
    neither the first nor the last character. *)
Definition suffix_of_name (nm : string) : string :=
  match rfind_dot nm with
  | Some i =>
      if ((0 <? i)%nat && (i <? String.length nm - 1)%nat)%bool
      then drop_str i nm else EmptyString
  | None => EmptyString
  end.

(** [PurePath.stem] of a file name. *)
Definition stem_of_name (nm : string) : string :=
  match rfind_dot nm with
  | Some i =>
      if ((0 <? i)%nat && (i <? String.length nm - 1)%nat)%bool
      then take_str i nm else nm
  | None => nm
  end.

Definition suffix (p : Path) : string := suffix_of_name (name p).
Definition stem (p : Path) : string := stem_of_name (name p).

(** Exceptions that escape the modelled functions. *)
Inductive Exception :=
| NotImplementedError (msg : string)
| FileNotFoundError (filename : string)
| ValueError (msg : string).

(** [datetime.date], as its proleptic ordinal. *)
Definition date := Z.

(** [abs(a - b).days] for two dates. *)
Definition abs_days (a b : date) : Z := Z.abs (a - b).

End Py.

(* ===================================================================== *)
(** ** perdoo/archives/__init__.py *)
(* ===================================================================== *)

Module Archives.
Import Py.

Inductive Variant := CBZArchive | CBRArchive | CBTArchive | CB7Archive.

#[global] Instance Variant_eq_dec : EqDecision Variant.
Proof. solve_decision. Defined.

(** The four content tests of [zipfile], [rarfile], [tarfile] and [py7zr];
    each opens the file and looks at its bytes. *)
Record Sniffers := {
  is_zipfile : bytes -> bool;
  is_rarfile : bytes -> bool;
  is_tarfile : bytes -> bool;
  is_7zfile : bytes -> bool
}.

(** The files on disk: the bytes behind each path.  The paths the
    functions are given come from a directory listing; each names a file
    that exists and can be read. *)
Definition Disk := Path -> bytes.

(** An archive handle: the variant chosen at dispatch and the path. *)
Record BaseArchive := {
  variant : Variant;
  path : Path
}.

Definition unsupported (p : Path) : Exception :=
  NotImplementedError (name p +:+ " is an unsupported archive").

(** [get_archive(path)].  The last test reads
    [py7zr_loaded and is_7zfile]: the function object, not a call. *)
Definition get_archive (lib : Sniffers) (py7zr_loaded : bool) (disk : Disk)
    (p : Path) : BaseArchive + Exception :=
  if is_zipfile lib (disk p) then inl {| variant := CBZArchive; path := p |}
  else if is_rarfile lib (disk p) then inl {| variant := CBRArchive; path := p |}
  else if is_tarfile lib (disk p) then inl {| variant := CBTArchive; path := p |}
  else if py7zr_loaded && bool_of_function (is_7zfile lib)
  then inl {| variant := CB7Archive; path := p |}
  else inr (unsupported p).

(** The dispatch as the specification words it: four content signatures in
    priority order, an error when none matches. *)
Definition dispatch_by_signature (lib : Sniffers) (disk : Disk) (p : Path)
    : BaseArchive + Exception :=
  if is_zipfile lib (disk p) then inl {| variant := CBZArchive; path := p |}
  else if is_rarfile lib (disk p) then inl {| variant := CBRArchive; path := p |}
  else if is_tarfile lib (disk p) then inl {| variant := CBTArchive; path := p |}
  else if is_7zfile lib (disk p) then inl {| variant := CB7Archive; path := p |}
  else inr (unsupported p).

Definition raises {A : Type} (r : A + Exception) : Prop :=
  match r with inl _ => False | inr _ => True end.

Definition variant_of (r : BaseArchive + Exception) : option Variant :=
  match r with inl a => Some (variant a) | inr _ => None end.

End Archives.


(* ===================================================================== *)
(** ** The three metadata schemas and the catalogue's records *)
(* ===================================================================== *)

Module Models.
Import Py.

(** Modelled from the spec: [perdoo.models.metadata] is not among the
    sources; the canonical schema is given the attributes that
    [__main__.py] and [comicvine.py] read and assign.  A source system per
    service imported by [__main__.py]. *)
Inductive Source := COMICVINE | LEAGUE_OF_COMIC_GEEKS | MARVEL | METRON.

#[global] Instance Source_eq_dec : EqDecision Source.
Proof. solve_decision. Defined.

Definition Source_to_nat (s : Source) : nat :=
  match s with
  | COMICVINE => 0 | LEAGUE_OF_COMIC_GEEKS => 1 | MARVEL => 2 | METRON => 3
  end%nat.

Definition Source_of_nat (n : nat) : option Source :=
  match n with
  | 0 => Some COMICVINE | 1 => Some LEAGUE_OF_COMIC_GEEKS
  | 2 => Some MARVEL | 3 => Some METRON | _ => None
  end%nat.

#[global] Instance Source_countable : Countable Source.
Proof.
  apply (inj_countable Source_to_nat Source_of_nat).
  intros []; reflexivity.
Defined.

(** An identifier in an external catalogue; equality and hashing are those
    of the pair (source, value). *)
Record Resource := {
  res_source : Source;
  res_value : Z
}.

#[global] Instance Resource_eq_dec : EqDecision Resource.
Proof. solve_decision. Defined.

#[global] Instance Resource_countable : Countable Resource.
Proof.
  apply (inj_countable' (fun r => (res_source r, res_value r))
                        (fun p => {| res_source := p.1; res_value := p.2 |})).
  intros []; reflexivity.
Defined.

Record TitledResource := {
  tr_title : string;
  tr_resources : list Resource
}.

Record Credit := {
  cr_creator : TitledResource;
  cr_roles : list TitledResource
}.

Record StoryArc := {
  sa_title : string;
  sa_resources : list Resource
}.

(** The issue format kinds that [generate_filename] names. *)
Inductive Format :=
| ANNUAL | COMIC | DIGITAL_CHAPTER | GRAPHIC_NOVEL | HARDCOVER | TRADE_PAPERBACK.

#[global] Instance Format_eq_dec : EqDecision Format.
Proof. solve_decision. Defined.

Record Publisher := {
  pub_resources : list Resource;
  pub_title : string
}.

Record Series := {
  ser_publisher : Publisher;
  ser_resources : list Resource;
  ser_start_year : option Z;
  ser_title : string;
  ser_volume : Z
}.

Record Issue := {
  iss_series : Series;
  iss_resources : list Resource;
  iss_characters : list TitledResource;
  iss_cover_date : option date;
  iss_credits : list Credit;
  iss_format : Format;
  iss_locations : list TitledResource;
  iss_number : option string;
  iss_store_date : option date;
  iss_story_arcs : list StoryArc;
  iss_summary : option string;
  iss_teams : list TitledResource;
  iss_title : option string
}.

(** The tool half of the provenance stamp; [Tool()] carries the program's
    name and version. *)
Record Tool := {
  tool_value : string;
  tool_version : string
}.

#[global] Instance Tool_eq_dec : EqDecision Tool.
Proof. solve_decision. Defined.

Record Meta := {
  date_ : date;
  tool : Tool
}.

(** Modelled from the spec: a page entry has a zero-based index, a
    final-page flag, what is derived from the image file, and the manually
    set flags carried over from an older entry.  One record serves the three
    schemas ([index] of the canonical schema, [image] of the other two). *)
Record Page := {
  pg_index : nat;
  pg_final : bool;
  pg_file : string;
  pg_flags : string
}.

#[global] Instance Page_eq_dec : EqDecision Page.
Proof. solve_decision. Defined.

Record Metadata := {
  issue : Issue;
  meta : Meta;
  pages : list Page
}.

(** Modelled from the spec: [perdoo.models.metron_info] is not among the
    sources; the attributes that [comicvine.py] reads and assigns. *)
Inductive InformationSource :=
| COMIC_VINE | INFO_LEAGUE_OF_COMIC_GEEKS | INFO_MARVEL | INFO_METRON.

#[global] Instance InformationSource_eq_dec : EqDecision InformationSource.
Proof. solve_decision. Defined.

Record InfoSource := {
  src_source : InformationSource;
  src_value : Z
}.

(** [metron_info.Resource(id=..., value=...)]. *)
Record InfoResource := {
  ir_id : option Z;
  ir_value : string
}.

Record InfoSeries := {
  is_id : option Z;
  is_name : string
}.

Record Arc := {
  arc_id : Z;
  arc_name : string
}.

(** [Role]: the keyword roles and the catch-all [Role.OTHER]. *)
Inductive Role :=
| OTHER
| RoleKeyword (keyword : string).

Record RoleResource := { rr_value : Role }.

Record InfoCredit := {
  ic_creator : InfoResource;
  ic_roles : list RoleResource
}.

(** A value held by a date attribute: Python does not fix its shape. *)
Inductive PyVal :=
| PyNone
| PyDate (d : date)
| PyTuple (items : list date).

Definition PyVal_of_optdate (d : option date) : PyVal :=
  match d with Some d => PyDate d | None => PyNone end.

Record MetronInfo := {
  mi_id : option InfoSource;
  mi_publisher : InfoResource;
  mi_series : InfoSeries;
  mi_arcs : list Arc;
  mi_characters : list InfoResource;
  mi_cover_date : PyVal;
  mi_credits : list InfoCredit;
  mi_locations : list InfoResource;
  mi_number : option string;
  mi_store_date : PyVal;
  mi_summary : option string;
  mi_teams : list InfoResource;
  mi_collection_title : option string;
  mi_url : option string;
  mi_pages : list Page
}.

(** Modelled from the spec: [perdoo.models.comic_info] is not among the
    sources; the attributes that [comicvine.py] assigns. *)
Record ComicInfo := {
  ci_publisher : option string;
  ci_series : option string;
  ci_character_list : list string;
  ci_credits : gmap string (list string);
  ci_cover_date : option date;
  ci_location_list : list string;
  ci_number : option string;
  ci_story_arc_list : list string;
  ci_summary : option string;
  ci_team_list : list string;
  ci_title : option string;
  ci_web : option string;
  ci_pages : list Page
}.

(** The three objects handed to every service. *)
Definition MetaInfo : Type := Metadata * MetronInfo * ComicInfo.

(** [simyan]'s schemas: the attributes that [comicvine.py] reads. *)
Module Simyan.

Record Publisher := { publisher_id : Z; publisher_name : string }.

Record Volume := {
  volume_id : Z;
  volume_name : string;
  volume_start_year : option Z
}.

Record GenericEntry := { entry_id : Z; entry_name : string }.

Record CreatorEntry := {
  creator_id : Z;
  creator_name : string;
  creator_roles : string
}.

Record Issue := {
  issue_id : Z;
  issue_name : option string;
  issue_number : option string;
  issue_cover_date : option date;
  issue_store_date : option date;
  issue_summary : option string;
  issue_site_url : option string;
  issue_characters : list GenericEntry;
  issue_creators : list CreatorEntry;
  issue_locations : list GenericEntry;
  issue_story_arcs : list GenericEntry;
  issue_teams : list GenericEntry
}.

End Simyan.

End Models.


(* ===================================================================== *)
(** ** perdoo/services/comicvine.py *)
(* ===================================================================== *)

Module Comicvine.
Import Py Models.

(** *** Role strings: [re.split(r"[~\r\n,]+", roles)] and [str.strip] *)

Definition is_role_delim (c : ascii) : bool :=
  if decide (c = "~"%char) then true
  else if decide (c = ","%char) then true
  else if decide (c = "010"%char) then true
  else if decide (c = "013"%char) then true
  else false.

(** [cur] is the piece being read; [in_run] tells that the previous
    character was a delimiter, so that a run of delimiters splits once. *)
Fixpoint re_split_go (cur : string) (in_run : bool) (s : string) : list string :=
  match s with
  | EmptyString => [cur]
  | String c rest =>
      if is_role_delim c then
        if in_run then re_split_go EmptyString true rest
        else cur :: re_split_go EmptyString true rest
      else re_split_go (cur +:+ String c EmptyString) false rest
  end.

Definition re_split_roles (s : string) : list string := re_split_go EmptyString false s.

Definition is_space (c : ascii) : bool :=
  let n := nat_of_ascii c in
  ((n =? 32) || ((9 <=? n) && (n <=? 13)) || ((28 <=? n) && (n <=? 31)))%nat.

(** The whitespace characters of two bytes, U+0085 and U+00A0, and of
    three bytes, U+1680, U+2000 to U+200A, U+2028, U+2029, U+202F, U+205F
    and U+3000, by the bytes of their encoding. *)
Definition is_space2 (c d : ascii) : bool :=
  let c := nat_of_ascii c in
  let d := nat_of_ascii d in
  ((c =? 194) && ((d =? 133) || (d =? 160)))%nat.

Definition is_space3 (c d e : ascii) : bool :=
  let c := nat_of_ascii c in
  let d := nat_of_ascii d in
  let e := nat_of_ascii e in
  (((c =? 225) && (d =? 154) && (e =? 128))
   || ((c =? 226) && (d =? 128)
       && (((128 <=? e) && (e <=? 138)) || (e =? 168) || (e =? 169)
           || (e =? 175)))
   || ((c =? 226) && (d =? 129) && (e =? 159))
   || ((c =? 227) && (d =? 128) && (e =? 128)))%nat.

(** The number of bytes of the whitespace character the string begins
    with; 0 when it begins with none. *)
Definition space_width (s : string) : nat :=
  match s with
  | String c (String d (String e _)) =>
      if is_space c then 1
      else if is_space2 c d then 2
      else if is_space3 c d e then 3 else 0
  | String c (String d EmptyString) =>
      if is_space c then 1 else if is_space2 c d then 2 else 0
  | String c EmptyString => if is_space c then 1 else 0
  | EmptyString => 0
  end%nat.

(** The same for the whitespace character a string ends with, read off the
    reversed string. *)
Definition space_width_rev (r : string) : nat :=
  match r with
  | String e (String d (String c _)) =>
      if is_space e then 1
      else if is_space2 d e then 2
      else if is_space3 c d e then 3 else 0
  | String e (String d EmptyString) =>
      if is_space e then 1 else if is_space2 d e then 2 else 0
  | String e EmptyString => if is_space e then 1 else 0
  | EmptyString => 0
  end%nat.

(** Drop whitespace characters from the front while there is one; the
    string has at most [fuel] of them. *)
Fixpoint drop_spaces (width : string -> nat) (fuel : nat) (s : string)
    : string :=
  match fuel with
  | O => s
  | S fuel =>
      match width s with
      | O => s
      | S w => drop_spaces width fuel (drop_str (S w) s)
      end
  end.

Definition lstrip (s : string) : string :=
  drop_spaces space_width (String.length s) s.

Definition rstrip (s : string) : string :=
  String.rev (drop_spaces space_width_rev (String.length s) (String.rev s)).

(** [s.strip()]: whitespace is removed at both ends. *)
Definition strip (s : string) : string := rstrip (lstrip s).

Definition role_names (roles : string) : list string :=
  strip <$> re_split_roles roles.

(** *** Merging a resolved publisher, series or issue *)

(** [list(set(old) | {new})]: the elements of the set, each once, in the
    set's own order. *)
Definition add_resource (old : list Resource) (new : Resource) : list Resource :=
  elements ((list_to_set old : gset Resource) ∪ {[ new ]}).

Definition comicvine_resource (id : Z) : Resource :=
  {| res_source := COMICVINE; res_value := id |}.

Definition set_publisher (s : Series) (p : Publisher) : Series :=
  {| ser_publisher := p; ser_resources := ser_resources s;
     ser_start_year := ser_start_year s; ser_title := ser_title s;
     ser_volume := ser_volume s |}.

Definition set_series (i : Issue) (s : Series) : Issue :=
  {| iss_series := s; iss_resources := iss_resources i;
     iss_characters := iss_characters i; iss_cover_date := iss_cover_date i;
     iss_credits := iss_credits i; iss_format := iss_format i;
     iss_locations := iss_locations i; iss_number := iss_number i;
     iss_store_date := iss_store_date i; iss_story_arcs := iss_story_arcs i;
     iss_summary := iss_summary i; iss_teams := iss_teams i;
     iss_title := iss_title i |}.

Definition set_issue (m : Metadata) (i : Issue) : Metadata :=
  {| issue := i; meta := meta m; pages := pages m |}.

Definition add_publisher_to_metadata (publisher : Simyan.Publisher)
    (metadata : Metadata) : Metadata :=
  let old := ser_publisher (iss_series (issue metadata)) in
  let resources :=
    add_resource (pub_resources old)
      (comicvine_resource (Simyan.publisher_id publisher)) in
  set_issue metadata
    (set_series (issue metadata)
       (set_publisher (iss_series (issue metadata))
          {| pub_resources := resources;
             pub_title := Simyan.publisher_name publisher |})).

(** [not metron_info.id or metron_info.id.source == COMIC_VINE]. *)
Definition id_is_comicvine_or_unset (metron_info : MetronInfo) : bool :=
  match mi_id metron_info with
  | None => true
  | Some s => bool_decide (src_source s = COMIC_VINE)
  end.

(** [metron_info.id and metron_info.id.source == COMIC_VINE]. *)
Definition id_is_comicvine (metron_info : MetronInfo) : bool :=
  match mi_id metron_info with
  | None => false
  | Some s => bool_decide (src_source s = COMIC_VINE)
  end.

Definition add_publisher_to_metron_info (publisher : Simyan.Publisher)
    (metron_info : MetronInfo) : MetronInfo :=
  let old := mi_publisher metron_info in
  let id' :=
    if id_is_comicvine_or_unset metron_info
    then Some (Simyan.publisher_id publisher) else ir_id old in
  {| mi_id := mi_id metron_info;
     mi_publisher := {| ir_id := id'; ir_value := Simyan.publisher_name publisher |};
     mi_series := mi_series metron_info; mi_arcs := mi_arcs metron_info;
     mi_characters := mi_characters metron_info;
     mi_cover_date := mi_cover_date metron_info;
     mi_credits := mi_credits metron_info;
     mi_locations := mi_locations metron_info;
     mi_number := mi_number metron_info;
     mi_store_date := mi_store_date metron_info;
     mi_summary := mi_summary metron_info; mi_teams := mi_teams metron_info;
     mi_collection_title := mi_collection_title metron_info;
     mi_url := mi_url metron_info; mi_pages := mi_pages metron_info |}.

Definition add_publisher_to_comic_info (publisher : Simyan.Publisher)
    (comic_info : ComicInfo) : ComicInfo :=
  {| ci_publisher := Some (Simyan.publisher_name publisher);
     ci_series := ci_series comic_info;
     ci_character_list := ci_character_list comic_info;
     ci_credits := ci_credits comic_info;
     ci_cover_date := ci_cover_date comic_info;
     ci_location_list := ci_location_list comic_info;
     ci_number := ci_number comic_info;
     ci_story_arc_list := ci_story_arc_list comic_info;
     ci_summary := ci_summary comic_info;
     ci_team_list := ci_team_list comic_info;
     ci_title := ci_title comic_info; ci_web := ci_web comic_info;
     ci_pages := ci_pages comic_info |}.

Definition add_series_to_metadata (series : Simyan.Volume)
    (metadata : Metadata) : Metadata :=
  let old := iss_series (issue metadata) in
  let resources :=
    add_resource (ser_resources old)
      (comicvine_resource (Simyan.volume_id series)) in
  set_issue metadata
    (set_series (issue metadata)
       {| ser_publisher := ser_publisher old;
          ser_resources := resources;
          ser_start_year := Simyan.volume_start_year series;
          ser_title := Simyan.volume_name series;
          ser_volume := ser_volume old |}).

Definition add_series_to_metron_info (series : Simyan.Volume)
    (metron_info : MetronInfo) : MetronInfo :=
  let old := mi_series metron_info in
  let id' :=
    if id_is_comicvine_or_unset metron_info
    then Some (Simyan.volume_id series) else is_id old in
  {| mi_id := mi_id metron_info;
     mi_publisher := mi_publisher metron_info;
     mi_series := {| is_id := id'; is_name := Simyan.volume_name series |};
     mi_arcs := mi_arcs metron_info;
     mi_characters := mi_characters metron_info;
     mi_cover_date := mi_cover_date metron_info;
     mi_credits := mi_credits metron_info;
     mi_locations := mi_locations metron_info;
     mi_number := mi_number metron_info;
     mi_store_date := mi_store_date metron_info;
     mi_summary := mi_summary metron_info; mi_teams := mi_teams metron_info;
     mi_collection_title := mi_collection_title metron_info;
     mi_url := mi_url metron_info; mi_pages := mi_pages metron_info |}.

Definition add_series_to_comic_info (series : Simyan.Volume)
    (comic_info : ComicInfo) : ComicInfo :=
  {| ci_publisher := ci_publisher comic_info;
     ci_series := Some (Simyan.volume_name series);
     ci_character_list := ci_character_list comic_info;
     ci_credits := ci_credits comic_info;
     ci_cover_date := ci_cover_date comic_info;
     ci_location_list := ci_location_list comic_info;
     ci_number := ci_number comic_info;
     ci_story_arc_list := ci_story_arc_list comic_info;
     ci_summary := ci_summary comic_info;
     ci_team_list := ci_team_list comic_info;
     ci_title := ci_title comic_info; ci_web := ci_web comic_info;
     ci_pages := ci_pages comic_info |}.

Definition titled_of_entry (x : Simyan.GenericEntry) : TitledResource :=
  {| tr_title := Simyan.entry_name x;
     tr_resources := [comicvine_resource (Simyan.entry_id x)] |}.

Definition credit_of_creator (x : Simyan.CreatorEntry) : Credit :=
  {| cr_creator :=
       {| tr_title := Simyan.creator_name x;
          tr_resources := [comicvine_resource (Simyan.creator_id x)] |};
     cr_roles :=
       (fun r => {| tr_title := r; tr_resources := [] |})
         <$> role_names (Simyan.creator_roles x) |}.

Definition add_issue_to_metadata (issue_ : Simyan.Issue)
    (metadata : Metadata) : Metadata :=
  let old := issue metadata in
  let resources :=
    add_resource (iss_resources old)
      (comicvine_resource (Simyan.issue_id issue_)) in
  set_issue metadata
    {| iss_series := iss_series old;
       iss_resources := resources;
       iss_characters := titled_of_entry <$> Simyan.issue_characters issue_;
       iss_cover_date := Simyan.issue_cover_date issue_;
       iss_credits := credit_of_creator <$> Simyan.issue_creators issue_;
       iss_format := iss_format old;
       iss_locations := titled_of_entry <$> Simyan.issue_locations issue_;
       iss_number := Simyan.issue_number issue_;
       iss_store_date := Simyan.issue_store_date issue_;
       iss_story_arcs :=
         (fun x => {| sa_title := Simyan.entry_name x;
                      sa_resources := [comicvine_resource (Simyan.entry_id x)] |})
           <$> Simyan.issue_story_arcs issue_;
       iss_summary := Simyan.issue_summary issue_;
       iss_teams := titled_of_entry <$> Simyan.issue_teams issue_;
       iss_title := Simyan.issue_name issue_ |}.

(** What the console and [Role.load] answer. *)
Record Console := {
  (** [DatePrompt.ask("Cover Date", default=date.today())] *)
  ask_cover_date : date;
  (** [Role.load(value=...)]; [None] stands for its [ValueError]. *)
  Role_load : string -> option Role
}.

Definition info_of_entry (x : Simyan.GenericEntry) : InfoResource :=
  {| ir_id := Some (Simyan.entry_id x); ir_value := Simyan.entry_name x |}.

Definition role_resource (console : Console) (r : string) : RoleResource :=
  match Role_load console (strip r) with
  | Some role => {| rr_value := role |}
  | None => {| rr_value := OTHER |}
  end.

Definition info_credit_of_creator (console : Console)
    (x : Simyan.CreatorEntry) : InfoCredit :=
  {| ic_creator :=
       {| ir_id := Some (Simyan.creator_id x); ir_value := Simyan.creator_name x |};
     ic_roles := role_resource console <$> re_split_roles (Simyan.creator_roles x) |}.

(** [issue.cover_date or DatePrompt.ask(...)]: a date is always true. *)
Definition cover_date_or_ask (console : Console) (issue_ : Simyan.Issue) : date :=
  match Simyan.issue_cover_date issue_ with
  | Some d => d
  | None => ask_cover_date console
  end.

(** The assignment to [cover_date] ends in a comma inside the
    parentheses: the right-hand side is a tuple of one element. *)
Definition add_issue_to_metron_info (console : Console) (issue_ : Simyan.Issue)
    (metron_info : MetronInfo) : MetronInfo :=
  {| mi_id :=
       if id_is_comicvine_or_unset metron_info
       then Some {| src_source := COMIC_VINE; src_value := Simyan.issue_id issue_ |}
       else mi_id metron_info;
     mi_publisher := mi_publisher metron_info;
     mi_series := mi_series metron_info;
     mi_arcs :=
       (fun x => {| arc_id := Simyan.entry_id x; arc_name := Simyan.entry_name x |})
         <$> Simyan.issue_story_arcs issue_;
     mi_characters := info_of_entry <$> Simyan.issue_characters issue_;
     mi_cover_date := PyTuple [cover_date_or_ask console issue_];
     mi_credits := info_credit_of_creator console <$> Simyan.issue_creators issue_;
     mi_locations := info_of_entry <$> Simyan.issue_locations issue_;
     mi_number := Simyan.issue_number issue_;
     mi_store_date := PyVal_of_optdate (Simyan.issue_store_date issue_);
     mi_summary := Simyan.issue_summary issue_;
     mi_teams := info_of_entry <$> Simyan.issue_teams issue_;
     mi_collection_title := Simyan.issue_name issue_;
     mi_url := Simyan.issue_site_url issue_;
     mi_pages := mi_pages metron_info |}.

(** The dict comprehension: a later creator of the same name replaces the
    earlier entry. *)
Definition credits_dict (creators : list Simyan.CreatorEntry)
    : gmap string (list string) :=
  foldl (fun d x => <[ Simyan.creator_name x := role_names (Simyan.creator_roles x) ]> d)
        ∅ creators.

Definition add_issue_to_comic_info (issue_ : Simyan.Issue)
    (comic_info : ComicInfo) : ComicInfo :=
  {| ci_publisher := ci_publisher comic_info;
     ci_series := ci_series comic_info;
     ci_character_list := Simyan.entry_name <$> Simyan.issue_characters issue_;
     ci_credits := credits_dict (Simyan.issue_creators issue_);
     ci_cover_date := Simyan.issue_cover_date issue_;
     ci_location_list := Simyan.entry_name <$> Simyan.issue_locations issue_;
     ci_number := Simyan.issue_number issue_;
     ci_story_arc_list := Simyan.entry_name <$> Simyan.issue_story_arcs issue_;
     ci_summary := Simyan.issue_summary issue_;
     ci_team_list := Simyan.entry_name <$> Simyan.issue_teams issue_;
     ci_title := Simyan.issue_name issue_;
     ci_web := Simyan.issue_site_url issue_;
     ci_pages := ci_pages comic_info |}.

(** *** The service: identifiers first, interactive search second *)

(** The catalogue session and the operator behind the console.  [None]
    from a [get_*] call stands for [ServiceError]; a [search_*] field is the
    outcome of the interactive [_search_*] method (menu choice, retries and
    service errors included), [None] when it gives up. *)
Record Session := {
  get_publisher : Z -> option Simyan.Publisher;
  get_volume : Z -> option Simyan.Volume;
  get_issue : Z -> option Simyan.Issue;
  search_publishers : string -> option Z;
  search_series : Z -> string -> option Z;
  search_issues : Z -> option string -> option Z;
  console : Console
}.

(** [next((x.value for x in resources if x.source == Source.COMICVINE), None)] *)
Fixpoint first_comicvine (resources : list Resource) : option Z :=
  match resources with
  | [] => None
  | x :: rest =>
      if decide (res_source x = COMICVINE) then Some (res_value x)
      else first_comicvine rest
  end.

Definition _get_publisher_id (self : Session) (metadata : Metadata)
    (metron_info : MetronInfo) : option Z :=
  let publisher_id :=
    or_optint
      (first_comicvine (pub_resources (ser_publisher (iss_series (issue metadata)))))
      (if id_is_comicvine metron_info then ir_id (mi_publisher metron_info) else None) in
  if bool_of_optint publisher_id then publisher_id
  else search_publishers self (pub_title (ser_publisher (iss_series (issue metadata)))).

Definition fetch_publisher (self : Session) (st : MetaInfo)
    : option Simyan.Publisher * MetaInfo :=
  let '(metadata, metron_info, comic_info) := st in
  let publisher_id := _get_publisher_id self metadata metron_info in
  if negb (bool_of_optint publisher_id) then (None, st)
  else
    match publisher_id ≫= get_publisher self with
    | Some publisher =>
        (Some publisher,
         (add_publisher_to_metadata publisher metadata,
          add_publisher_to_metron_info publisher metron_info,
          add_publisher_to_comic_info publisher comic_info))
    | None => (None, st)
    end.

Definition _get_series_id (self : Session) (publisher_id : Z)
    (metadata : Metadata) (metron_info : MetronInfo) : option Z :=
  let series_id :=
    or_optint
      (first_comicvine (ser_resources (iss_series (issue metadata))))
      (if id_is_comicvine metron_info then is_id (mi_series metron_info) else None) in
  if bool_of_optint series_id then series_id
  else search_series self publisher_id (ser_title (iss_series (issue metadata))).

Definition fetch_series (self : Session) (st : MetaInfo) (publisher_id : Z)
    : option Simyan.Volume * MetaInfo :=
  let '(metadata, metron_info, comic_info) := st in
  let series_id := _get_series_id self publisher_id metadata metron_info in
  if negb (bool_of_optint series_id) then (None, st)
  else
    match series_id ≫= get_volume self with
    | Some series =>
        (Some series,
         (add_series_to_metadata series metadata,
          add_series_to_metron_info series metron_info,
          add_series_to_comic_info series comic_info))
    | None => (None, st)
    end.

Definition _get_issue_id (self : Session) (series_id : Z)
    (metadata : Metadata) (metron_info : MetronInfo) : option Z :=
  let issue_id :=
    or_optint
      (first_comicvine (iss_resources (issue metadata)))
      (if id_is_comicvine metron_info then src_value <$> mi_id metron_info else None) in
  if bool_of_optint issue_id then issue_id
  else search_issues self series_id (iss_number (issue metadata)).

Definition fetch_issue (self : Session) (st : MetaInfo) (series_id : Z)
    : option Simyan.Issue * MetaInfo :=
  let '(metadata, metron_info, comic_info) := st in
  let issue_id := _get_issue_id self series_id metadata metron_info in
  if negb (bool_of_optint issue_id) then (None, st)
  else
    match issue_id ≫= get_issue self with
    | Some issue_ =>
        (Some issue_,
         (add_issue_to_metadata issue_ metadata,
          add_issue_to_metron_info (console self) issue_ metron_info,
          add_issue_to_comic_info issue_ comic_info))
    | None => (None, st)
    end.

(** [Comicvine.fetch]: the three stages in turn, each on the objects as the
    stage before left them; the result pairs the returned flag with the
    objects as they are when the method returns. *)
Definition fetch (self : Session) (st : MetaInfo) : bool * MetaInfo :=
  match fetch_publisher self st with
  | (None, st1) => (false, st1)
  | (Some publisher, st1) =>
      match fetch_series self st1 (Simyan.publisher_id publisher) with
      | (None, st2) => (false, st2)
      | (Some series, st2) =>
          match fetch_issue self st2 (Simyan.volume_id series) with
          | (None, st3) => (false, st3)
          | (Some _, st3) => (true, st3)
          end
      end
  end.

End Comicvine.

(* ===================================================================== *)
(** ** perdoo/__main__.py *)
(* ===================================================================== *)

Module Main.
Import Py Models Archives.

(** *** What the program does to the outside, in order *)

Inductive Level := INFO | WARNING | ERROR | CRITICAL.

(** What [to_file] serializes. *)
Inductive Document :=
| MetadataXml (metadata : Metadata)
| MetronInfoXml (metron_info : MetronInfo)
| ComicInfoXml (comic_info : ComicInfo).

Inductive Event :=
| Log (level : Level) (msg : string)
| ConsoleRule (title : string)
| Convert (target : Variant) (old : Path)
| Rename (src dst : string)
| ToFile (entry : string) (doc : Document)
| Unlink (p : Path)
| Move (src dst : Path)
| Mkdir (p : Path).

(** *** Settings *)

(** Modelled from the spec: [perdoo.settings] is not among the sources; a
    service counts as configured when its full credential set is present,
    and the output section names the target format and the metadata files
    to write.  The format values are the extensions of [convert_collection]
    without their dot. *)
Inductive OutputFormat := CB7 | CBT | CBZ.

Definition OutputFormat_value (f : OutputFormat) : string :=
  match f with CB7 => "cb7" | CBT => "cbt" | CBZ => "cbz" end.

Record MarvelSettings := {
  public_key : option string;
  private_key : option string
}.

Record MetronSettings := {
  username : option string;
  password : option string
}.

Record ComicvineSettings := { api_key : option string }.

Record LeagueSettings := {
  client_id : option string;
  client_secret : option string
}.

Record Output := {
  output_create_comic_info : bool;
  output_create_metadata : bool;
  output_create_metron_info : bool;
  format : OutputFormat
}.

Record Settings := {
  collection_folder : Path;
  comicvine : option ComicvineSettings;
  league_of_comic_geeks : option LeagueSettings;
  marvel : option MarvelSettings;
  metron : option MetronSettings;
  output : Output
}.

(** *** fetch_from_services *)

(** A service object: its [fetch] gets the three objects, changes them in
    place and returns whether it succeeded. *)
Definition Service := MetaInfo -> bool * MetaInfo.

(** The service classes; Comicvine's is the one among the sources and is
    built from its session. *)
Record Services := {
  Marvel : MarvelSettings -> Service;
  Metron : MetronSettings -> Service;
  ComicvineSession : ComicvineSettings -> Comicvine.Session;
  League : LeagueSettings -> Service
}.

Definition marvel_service (sv : Services) (settings : Settings) : option Service :=
  match marvel settings with
  | Some s =>
      if bool_of_optstr (public_key s) && bool_of_optstr (private_key s)
      then Some (Marvel sv s) else None
  | None => None
  end.

Definition metron_service (sv : Services) (settings : Settings) : option Service :=
  match metron settings with
  | Some s =>
      if bool_of_optstr (username s) && bool_of_optstr (password s)
      then Some (Metron sv s) else None
  | None => None
  end.

Definition comicvine_service (sv : Services) (settings : Settings) : option Service :=
  match comicvine settings with
  | Some s =>
      if bool_of_optstr (api_key s)
      then Some (Comicvine.fetch (ComicvineSession sv s)) else None
  | None => None
  end.

Definition league_service (sv : Services) (settings : Settings) : option Service :=
  match league_of_comic_geeks settings with
  | Some s =>
      if bool_of_optstr (client_id s) && bool_of_optstr (client_secret s)
      then Some (League sv s) else None
  | None => None
  end.

(** [any(...)] over [service and service.fetch] of the three objects, for
    each service in turn: the generator is consumed up to the first true
    element. *)
Fixpoint any_fetch (services : list (option Service)) (st : MetaInfo)
    : bool * MetaInfo :=
  match services with
  | [] => (false, st)
  | None :: rest => any_fetch rest st
  | Some service :: rest =>
      let '(ok, st') := service st in
      if ok then (true, st') else any_fetch rest st'
  end.

Definition no_services_msg : string := "No external services configured".
Definition unable_msg : string := "Unable to fetch information fron any service".

Definition fetch_from_services (sv : Services) (settings : Settings)
    (metainfo : MetaInfo) : list Event * MetaInfo :=
  let marvel := marvel_service sv settings in
  let metron := metron_service sv settings in
  let comicvine := comicvine_service sv settings in
  let league := league_service sv settings in
  if negb (bool_of_optobj marvel) && negb (bool_of_optobj metron)
     && negb (bool_of_optobj comicvine) && negb (bool_of_optobj league)
  then ([Log WARNING no_services_msg], metainfo)
  else
    let '(success, st) := any_fetch [marvel; metron; comicvine; league] metainfo in
    if success then ([], st) else ([Log WARNING unable_msg], st).

(** *** read_archive *)

(** What an archive handle can do; the classes behind it wrap the archive
    libraries.  [extract_files] gives the image names found in the
    destination when it returns true, [None] when it returns false;
    [archive_files] gives the new container's path, [None] on failure. *)
Record ArchiveIO := {
  list_filenames : BaseArchive -> list string;
  read_file : BaseArchive -> string -> bytes;
  extract_files : BaseArchive -> option (list string);
  archive_files : BaseArchive -> list string -> option Path
}.

(** The schema classes and the conversions of [perdoo.utils].  [None] from
    a [from_bytes] stands for pydantic's [ValidationError]. *)
Record Codec := {
  Metadata_from_bytes : bytes -> option Metadata;
  MetronInfo_from_bytes : bytes -> option MetronInfo;
  ComicInfo_from_bytes : bytes -> option ComicInfo;
  metron_to_metadata : MetronInfo -> Metadata;
  comic_to_metadata : ComicInfo -> Metadata;
  create_metadata : BaseArchive -> Metadata;
  metadata_to_metron : Metadata -> MetronInfo;
  metadata_to_comic : Metadata -> ComicInfo
}.

Definition contains (filenames : list string) (nm : string) : bool :=
  bool_decide (nm ∈ filenames).

(** One [try] block of [read_archive]: the entry is looked up with and
    without the leading separator; a validation error is logged and leaves
    the object [None]. *)
Definition load_entry {A : Type} (from_bytes : bytes -> option A)
    (io : ArchiveIO) (archive : BaseArchive) (filenames : list string)
    (entry : string) (label : string) : list Event * option A :=
  let parsed (nm : string) :=
    match from_bytes (read_file io archive nm) with
    | Some x => ([], Some x)
    | None =>
        ([Log ERROR (name (path archive) +:+ " contains an invalid "
                     +:+ label +:+ " file")], None)
    end in
  if contains filenames ("/" +:+ entry) then parsed ("/" +:+ entry)
  else if contains filenames entry then parsed entry
  else ([], None).

Definition read_archive (io : ArchiveIO) (codec : Codec) (archive : BaseArchive)
    : list Event * MetaInfo :=
  let filenames := list_filenames io archive in
  let '(log1, metadata) :=
    load_entry (Metadata_from_bytes codec) io archive filenames
               "Metadata.xml" "Metadata" in
  let '(log2, metron_info) :=
    load_entry (MetronInfo_from_bytes codec) io archive filenames
               "MetronInfo.xml" "MetronInfo" in
  let '(log3, comic_info) :=
    load_entry (ComicInfo_from_bytes codec) io archive filenames
               "ComicInfo.xml" "ComicInfo" in
  let metadata :=
    match metadata with
    | Some m => m
    | None =>
        match metron_info with
        | Some mi => metron_to_metadata codec mi
        | None =>
            match comic_info with
            | Some ci => comic_to_metadata codec ci
            | None => create_metadata codec archive
            end
        end
    end in
  let metron_info :=
    match metron_info with
    | Some mi => mi
    | None => metadata_to_metron codec metadata
    end in
  let comic_info :=
    match comic_info with
    | Some ci => ci
    | None => metadata_to_comic codec metadata
    end in
  (log1 ++ log2 ++ log3, (metadata, metron_info, comic_info)).

(** *** generate_filename *)

Definition series_filename (metadata : Metadata) : string :=
  let series := iss_series (issue metadata) in
  if 1 <? ser_volume series
  then ser_title series +:+ " v" +:+ str_of_Z (ser_volume series)
  else ser_title series.

Definition number_str (metadata : Metadata) : string :=
  match iss_number (issue metadata) with
  | Some number =>
      if bool_of_str number
      then "_#" +:+ zfill (if decide (iss_format (issue metadata) = COMIC)
                           then 3 else 2)%nat number
      else EmptyString
  | None => EmptyString
  end.

Definition format_str (f : Format) : string :=
  match f with
  | ANNUAL => "_Annual"
  | DIGITAL_CHAPTER => "_Chapter"
  | GRAPHIC_NOVEL => "_GN"
  | HARDCOVER => "_HC"
  | TRADE_PAPERBACK => "_TP"
  | COMIC => EmptyString
  end.

(** [sanitize] comes from [perdoo.utils]. *)
Definition issue_filename (sanitize : string -> string) (metadata : Metadata)
    : string :=
  match iss_format (issue metadata) with
  | ANNUAL | DIGITAL_CHAPTER =>
      sanitize (series_filename metadata)
        +:+ format_str (iss_format (issue metadata)) +:+ number_str metadata
  | GRAPHIC_NOVEL | HARDCOVER | TRADE_PAPERBACK =>
      sanitize (series_filename metadata)
        +:+ number_str metadata +:+ format_str (iss_format (issue metadata))
  | COMIC => sanitize (series_filename metadata) +:+ number_str metadata
  end.

Definition generate_filename (sanitize : string -> string) (root : Path)
    (extension : string) (metadata : Metadata) : Path :=
  let publisher_filename :=
    pub_title (ser_publisher (iss_series (issue metadata))) in
  joinpath
    (joinpath (joinpath root (sanitize publisher_filename))
              (sanitize (series_filename metadata)))
    (issue_filename sanitize metadata +:+ "." +:+ extension).

(** *** Effects and exceptions of the orchestrating functions *)

(** A computation logs events and either returns or raises. *)
Definition M (A : Type) : Type := list Event * (A + Exception).

Definition ret {A : Type} (x : A) : M A := ([], inl x).

Definition raise {A : Type} (e : Exception) : M A := ([], inr e).

Definition emit (e : Event) : M unit := ([e], inl tt).

Definition bind {A B : Type} (m : M A) (k : A -> M B) : M B :=
  match m with
  | (ev, inl x) => let '(ev', r) := k x in (ev ++ ev', r)
  | (ev, inr e) => (ev, inr e)
  end.

Notation "x <- m ;; k" := (bind m (fun x => k))
  (at level 100, m at next level, right associativity).
Notation "m ;;; k" := (bind m (fun _ => k))
  (at level 100, right associativity).

Definition lift_events {A : Type} (r : list Event * A) : M A :=
  (fst r, inl (snd r)).

Definition events {A : Type} (m : M A) : list Event := fst m.
Definition outcome {A : Type} (m : M A) : A + Exception := snd m.

(** How one pass through a loop body ends: at its end or at a [continue],
    or at a [return] of the enclosing function. *)
Inductive Control := Next | Return_.

Fixpoint for_each {A : Type} (items : list A) (body : A -> M Control) : M unit :=
  match items with
  | [] => ret tt
  | x :: rest =>
      c <- body x ;;
      match c with
      | Next => for_each rest body
      | Return_ => ret tt
      end
  end.

(** *** rename_images *)

(** A scratch folder, as the names of the files in it. *)
Definition Folder := list string.

(** [img_file.rename(folder / dst)]: the source must exist; an existing
    target is replaced. *)
Definition rename_file (folder : Folder) (src dst : string) : M Folder :=
  if contains folder src then
    emit (Rename src dst) ;;;
    ret (if decide (src = dst) then folder
         else dst :: filter (fun x => x ≠ src ∧ x ≠ dst) folder)
  else raise (FileNotFoundError src).

Definition padded (pad_count index : nat) : string :=
  zfill pad_count (str_of_nat index).

Fixpoint rename_loop (filename : string) (pad_count index : nat)
    (image_list : list string) (folder : Folder) : M Folder :=
  match image_list with
  | [] => ret folder
  | img_file :: rest =>
      let new_filename :=
        filename +:+ "_" +:+ padded pad_count index +:+ suffix_of_name img_file in
      folder' <-
        (if decide (img_file ≠ new_filename) then
           emit (Log INFO ("Renamed " +:+ img_file +:+ " to " +:+ new_filename)) ;;;
           rename_file folder img_file
             (filename +:+ "-" +:+ padded pad_count index +:+ suffix_of_name img_file)
         else ret folder) ;;
      rename_loop filename pad_count (S index) rest folder'
  end.

(** [list_images] is [list_files(folder, *IMAGE_EXTENSIONS)] of
    [perdoo.utils]: the image files of the folder in their sort order. *)
Definition rename_images (list_images : Folder -> list string)
    (folder : Folder) (filename : string) : M Folder :=
  let image_list := list_images folder in
  let pad_count := String.length (str_of_nat (length image_list)) in
  rename_loop filename pad_count 0 image_list folder.

(** The canonical page name of the specification:
    [<base-name>-<padded-index><original-extension>]. *)
Definition canonical_name (filename : string) (pad_count index : nat)
    (img_file : string) : string :=
  filename +:+ "-" +:+ padded pad_count index +:+ suffix_of_name img_file.

(** The renames among the events. *)
Definition renames (evs : list Event) : list (string * string) :=
  omap (fun e => match e with Rename s d => Some (s, d) | _ => None end) evs.

(** *** process_pages *)

(** The [from_path] constructors of the three page classes. *)
Record PageClasses := {
  MetadataPage_from_path : string -> nat -> bool -> option Page -> Page;
  MetronPage_from_path : string -> nat -> bool -> option Page -> Page;
  ComicPage_from_path : string -> nat -> bool -> option Page -> Page
}.

(** [next((x for x in pages if x.index == index), None)] *)
Definition find_page (index : nat) (old : list Page) : option Page :=
  List.find (fun x => bool_decide (pg_index x = index)) old.

Fixpoint build_pages (from_path : string -> nat -> bool -> option Page -> Page)
    (old : list Page) (count index : nat) (image_list : list string) : list Page :=
  match image_list with
  | [] => []
  | img_file :: rest =>
      let is_final_page := bool_decide (index = (count - 1)%nat) in
      from_path img_file index is_final_page (find_page index old)
        :: build_pages from_path old count (S index) rest
  end.

(** Modelled from the spec: [sorted(set(...))] on pages, whose ordering
    and equality live in the absent page classes; the collections are
    stored back sorted by index, equal entries once. *)
Definition page_le (a b : Page) : Prop := (pg_index a <= pg_index b)%nat.

#[global] Instance page_le_dec : RelDecision page_le.
Proof. intros a b. unfold page_le. apply _. Defined.

Definition sorted_pages (ps : list Page) : list Page :=
  merge_sort page_le (remove_dups ps).

Definition set_metadata_pages (m : Metadata) (ps : list Page) : Metadata :=
  {| issue := issue m; meta := meta m; pages := ps |}.

Definition set_metron_pages (m : MetronInfo) (ps : list Page) : MetronInfo :=
  {| mi_id := mi_id m; mi_publisher := mi_publisher m; mi_series := mi_series m;
     mi_arcs := mi_arcs m; mi_characters := mi_characters m;
     mi_cover_date := mi_cover_date m; mi_credits := mi_credits m;
     mi_locations := mi_locations m; mi_number := mi_number m;
     mi_store_date := mi_store_date m; mi_summary := mi_summary m;
     mi_teams := mi_teams m; mi_collection_title := mi_collection_title m;
     mi_url := mi_url m; mi_pages := ps |}.

Definition set_comic_pages (c : ComicInfo) (ps : list Page) : ComicInfo :=
  {| ci_publisher := ci_publisher c; ci_series := ci_series c;
     ci_character_list := ci_character_list c; ci_credits := ci_credits c;
     ci_cover_date := ci_cover_date c; ci_location_list := ci_location_list c;
     ci_number := ci_number c; ci_story_arc_list := ci_story_arc_list c;
     ci_summary := ci_summary c; ci_team_list := ci_team_list c;
     ci_title := ci_title c; ci_web := ci_web c; ci_pages := ps |}.

Definition process_pages (list_images : Folder -> list string)
    (classes : PageClasses) (folder : Folder) (st : MetaInfo) (filename : string)
    : M (Folder * MetaInfo) :=
  let '(metadata, metron_info, comic_info) := st in
  folder' <- rename_images list_images folder filename ;;
  let image_list := list_images folder' in
  let count := length image_list in
  let metadata_pages :=
    build_pages (MetadataPage_from_path classes) (pages metadata) count 0 image_list in
  let metron_info_pages :=
    build_pages (MetronPage_from_path classes) (mi_pages metron_info) count 0 image_list in
  let comic_info_pages :=
    build_pages (ComicPage_from_path classes) (ci_pages comic_info) count 0 image_list in
  ret (folder',
       (set_metadata_pages metadata (sorted_pages metadata_pages),
        set_metron_pages metron_info (sorted_pages metron_info_pages),
        set_comic_pages comic_info (sorted_pages comic_info_pages))).

(** *** convert_collection and start *)

(** Everything outside the three source files that one run meets.  The
    files on disk are those of the moment each archive is opened. *)
Record World := {
  lib : Sniffers;
  py7zr_loaded : bool;
  disk : Disk;
  io : ArchiveIO;
  codec : Codec;
  services : Services;
  sanitize : string -> string;
  (** [perdoo.ARCHIVE_EXTENSIONS] *)
  ARCHIVE_EXTENSIONS : list string;
  (** [perdoo.utils.list_files(path, *extensions)] *)
  list_files : Path -> list string -> list Path;
  list_images : Folder -> list string;
  page_classes : PageClasses;
  (** [date.today()] *)
  today : date;
  (** [perdoo.__version__] *)
  version : string
}.

(** [Tool()]: the default tool signature. *)
Definition Tool_default (w : World) : Tool :=
  {| tool_value := "Perdoo"; tool_version := version w |}.

(** [Meta(date_=...)]: the tool defaults to [Tool()]. *)
Definition Meta_of_date (w : World) (d : date) : Meta :=
  {| date_ := d; tool := Tool_default w |}.

Definition lift {A : Type} (r : A + Exception) : M A := ([], r).

Definition open_archive (w : World) (p : Path) : M BaseArchive :=
  lift (get_archive (lib w) (py7zr_loaded w) (disk w) p).

Definition convert_target (output_ : OutputFormat) : string * Variant :=
  match output_ with
  | CB7 => (".cb7", CB7Archive)
  | CBT => (".cbt", CBTArchive)
  | CBZ => (".cbz", CBZArchive)
  end.

Definition OutputFormat_name (f : OutputFormat) : string :=
  match f with CB7 => "CB7" | CBT => "CBT" | CBZ => "CBZ" end.

(** [formats.remove(x)]: the first occurrence goes; [None] stands for the
    [ValueError] of an absent element. *)
Fixpoint list_remove (x : string) (l : list string) : option (list string) :=
  match l with
  | [] => None
  | y :: rest =>
      if decide (y = x) then Some rest else cons y <$> list_remove x rest
  end.

Definition convert_collection (w : World) (path_ : Path) (output_ : OutputFormat)
    : M unit :=
  let '(format_, archive_type) := convert_target output_ in
  match list_remove format_ (ARCHIVE_EXTENSIONS w) with
  | None => raise (ValueError "list.remove(x): x not in list")
  | Some formats =>
      for_each (list_files w path_ formats) (fun file =>
        emit (Log INFO ("Converting " +:+ name file +:+ " to "
                        +:+ OutputFormat_name output_ +:+ " format")) ;;;
        archive <- open_archive w file ;;
        emit (Convert archive_type (path archive)) ;;;
        ret Next)
  end.

(** [p.relative_to(root)]; [None] stands for its [ValueError]. *)
Fixpoint relative_to (p root : Path) : option Path :=
  match root, p with
  | [], _ => Some p
  | r :: root', x :: p' => if decide (r = x) then relative_to p' root' else None
  | _ :: _, [] => None
  end.

(** The freshness test of the loop body:
    [metadata.meta.tool == Tool() and abs(date.today() - date_).days < 28]. *)
Definition is_fresh (w : World) (metadata : Metadata) : bool :=
  bool_decide (tool (meta metadata) = Tool_default w)
  && (abs_days (today w) (date_ (meta metadata)) <? 28).

Definition set_meta (m : Metadata) (mt : Meta) : Metadata :=
  {| issue := issue m; meta := mt; pages := pages m |}.

Definition write_if (flag : bool) (entry : string) (doc : Document)
    (folder : Folder) : M Folder :=
  if flag then emit (ToFile entry doc) ;;; ret (entry :: folder) else ret folder.

(** The last statement of the loop body, after the [with] block. *)
Definition organize (settings : Settings) (file new_file : Path) : M Control :=
  match relative_to file (collection_folder settings),
        relative_to new_file (collection_folder settings) with
  | Some rel, Some new_rel =>
      if decide (rel ≠ new_rel) then
        emit (Log INFO ("Organizing comic, moving file to "
                        +:+ String.concat "/" new_rel)) ;;;
        emit (Mkdir (parent new_file)) ;;;
        emit (Move file new_file) ;;;
        ret Next
      else ret Next
  | _, _ => raise (ValueError "path is not in the subpath of the collection")
  end.

(** The body of the loop of [start] from the [CONSOLE.rule] call on. *)
Definition process (w : World) (settings : Settings) (file : Path)
    (archive : BaseArchive) (st : MetaInfo) : M Control :=
  emit (ConsoleRule (stem file)) ;;;
  emit (Log INFO ("Processing " +:+ name file)) ;;;
  st <- lift_events (fetch_from_services (services w) settings st) ;;
  let new_file :=
    generate_filename (sanitize w) (collection_folder settings)
      (OutputFormat_value (format (output settings))) (fst (fst st)) in
  match extract_files (io w) archive with
  | None => ret Return_
  | Some temp_folder =>
      r <- process_pages (list_images w) (page_classes w) temp_folder st
             (stem new_file) ;;
      let '(folder, (metadata, metron_info, comic_info)) := r in
      let metadata := set_meta metadata (Meta_of_date w (today w)) in
      folder <- write_if (output_create_metadata (output settings))
                  "Metadata.xml" (MetadataXml metadata) folder ;;
      folder <- write_if (output_create_metron_info (output settings))
                  "MetronInfo.xml" (MetronInfoXml metron_info) folder ;;
      folder <- write_if (output_create_comic_info (output settings))
                  "ComicInfo.xml" (ComicInfoXml comic_info) folder ;;
      match archive_files (io w) archive folder with
      | None =>
          emit (Log CRITICAL "Unable to re-archive images") ;;;
          ret Next
      | Some archive_file =>
          emit (Unlink (path archive)) ;;;
          emit (Move archive_file (path archive)) ;;;
          organize settings file new_file
      end
  end.

(** The body of the loop of [start]. *)
Definition process_file (w : World) (settings : Settings) (force : bool)
    (file : Path) : M Control :=
  archive <- open_archive w file ;;
  st <- lift_events (read_archive (io w) (codec w) archive) ;;
  if negb force then
    if is_fresh w (fst (fst st)) then ret Next
    else process w settings file archive st
  else process w settings file archive st.

Definition start (w : World) (settings : Settings) (force : bool) : M unit :=
  emit (Log INFO "Starting Perdoo") ;;;
  convert_collection w (collection_folder settings) (format (output settings)) ;;;
  for_each
    (list_files w (collection_folder settings)
       ["." +:+ OutputFormat_value (format (output settings))])
    (process_file w settings force).

End Main.

(* ===================================================================== *)
(** ** The specification's wording of set merging, reconciliation and
       service failure *)
(* ===================================================================== *)

Module Spec.
Import Py Models Archives Main.

(** [merged] is the set union of [old] with the single identifier [new]. *)
Definition union_with (old : list Resource) (new : Resource)
    (merged : list Resource) : Prop :=
  (forall r, r ∈ old -> r ∈ merged)
  /\ new ∈ merged
  /\ (forall r, r ∈ merged -> r ∈ old \/ r = new)
  /\ NoDup merged.

(** The bytes of a metadata entry, looked up at the container root with and
    without the leading separator. *)
Definition stored_entry (io : ArchiveIO) (archive : BaseArchive)
    (entry : string) : option bytes :=
  if bool_decide (("/" +:+ entry) ∈ list_filenames io archive)
  then Some (read_file io archive ("/" +:+ entry))
  else if bool_decide (entry ∈ list_filenames io archive)
  then Some (read_file io archive entry)
  else None.

(** An entry that is present and parses; a validation failure counts as
    absent. *)
Definition parsed {A : Type} (from_bytes : bytes -> option A) (io : ArchiveIO)
    (archive : BaseArchive) (entry : string) : option A :=
  stored_entry io archive entry ≫= from_bytes.

(** The first populated candidate of an ordered list, else the default. *)
Fixpoint first_populated {A : Type} (candidates : list (option A)) (dflt : A) : A :=
  match candidates with
  | [] => dflt
  | Some x :: _ => x
  | None :: rest => first_populated rest dflt
  end.

(** The derivation precedence of the reconciliation engine. *)
Definition reconcile (codec : Codec) (archive : BaseArchive)
    (metadata : option Metadata) (metron_info : option MetronInfo)
    (comic_info : option ComicInfo) : MetaInfo :=
  let canonical :=
    first_populated
      [metadata;
       metron_to_metadata codec <$> metron_info;
       comic_to_metadata codec <$> comic_info]
      (create_metadata codec archive) in
  (canonical,
   default (metadata_to_metron codec canonical) metron_info,
   default (metadata_to_comic codec canonical) comic_info).

(** The services run one after the other on the same objects, each fetch
    returning failure. *)
Inductive AllFail : list Service -> MetaInfo -> MetaInfo -> Prop :=
| AllFail_nil st : AllFail [] st st
| AllFail_cons (s : Service) rest st st1 st2 :
    s st = (false, st1) -> AllFail rest st1 st2 -> AllFail (s :: rest) st st2.

(** A service whose failed fetch leaves the three objects as they were. *)
Definition unchanged_on_failure (s : Service) : Prop :=
  forall st st', s st = (false, st') -> st' = st.

(** The configured services, in the order the program tries them. *)
Definition configured (sv : Services) (settings : Settings) : list Service :=
  omap id [marvel_service sv settings; metron_service sv settings;
           comicvine_service sv settings; league_service sv settings].

(** The loop body ends at the freshness gate: the archive was opened and
    read, nothing else was done, and the loop goes on. *)
Definition skipped (w : World) (settings : Settings) (force : bool)
    (file : Path) : Prop :=
  exists archive,
    get_archive (lib w) (py7zr_loaded w) (disk w) file = inl archive
    /\ process_file w settings force file
       = (fst (read_archive (io w) (codec w) archive), inl Next).

(** The loop body goes past the gate: after opening and reading the
    archive it runs the processing steps. *)
Definition processed (w : World) (settings : Settings) (force : bool)
    (file : Path) : Prop :=
  exists archive,
    get_archive (lib w) (py7zr_loaded w) (disk w) file = inl archive
    /\ let r := read_archive (io w) (codec w) archive in
       let steps := process w settings file archive (snd r) in
       process_file w settings force file
       = (fst r ++ events steps, outcome steps).

(** The provenance stamp that the gate looks at. *)
Definition stamp_of (w : World) (archive : BaseArchive) : Meta :=
  meta (fst (fst (snd (read_archive (io w) (codec w) archive)))).

(** A listing already in the canonical form
    [<base-name>-<padded-index><original-extension>]. *)
Definition canonical_listing (filename : string) (image_list : list string)
    : Prop :=
  forall i img,
    image_list !! i = Some img ->
    img = canonical_name filename
            (String.length (str_of_nat (length image_list))) i img.

End Spec.

(* ===================================================================== *)
(** ** Concrete libraries, archives and collections for the examples *)
(* ===================================================================== *)

Module Demo.
Import Py Models Archives Main.

Fixpoint starts_with (sig content : bytes) : bool :=
  match sig, content with
  | [], _ => true
  | s :: sig', c :: content' =>
      if Byte.eqb s c then starts_with sig' content' else false
  | _ :: _, [] => false
  end.

(** Stand-ins for the four library tests: the leading magic bytes of a
    zip, rar, tar and 7z file. *)
Definition zip_magic : bytes := [Byte.x50; Byte.x4b; Byte.x03; Byte.x04].
Definition rar_magic : bytes := [Byte.x52; Byte.x61; Byte.x72; Byte.x21].
Definition tar_magic : bytes := [Byte.x75; Byte.x73; Byte.x74; Byte.x61; Byte.x72].
Definition sevenz_magic : bytes := [Byte.x37; Byte.x7a; Byte.xbc; Byte.xaf].

Definition magic : Sniffers :=
  {| is_zipfile := starts_with zip_magic;
     is_rarfile := starts_with rar_magic;
     is_tarfile := starts_with tar_magic;
     is_7zfile := starts_with sevenz_magic |}.

(** A disk with a zip file, a 7z file and a text file, the last two under
    names that end in [.cbz]. *)
Definition zip_path : Path := ["comics"; "first.cbz"].
Definition sevenz_path : Path := ["comics"; "second.cbz"].
Definition text_path : Path := ["comics"; "notes.cbz"].

Definition three_files : Disk := fun p =>
  if decide (p = zip_path) then zip_magic ++ [Byte.x00]
  else if decide (p = sevenz_path) then sevenz_magic ++ [Byte.x00]
  else [Byte.x68; Byte.x69].

(** An issue that already carries the publisher's Comicvine identifier
    and nothing else. *)
Definition blank_publisher : Publisher :=
  {| pub_resources := [{| res_source := COMICVINE; res_value := 10 |}];
     pub_title := "marvel comics" |}.

Definition blank_series : Series :=
  {| ser_publisher := blank_publisher; ser_resources := [];
     ser_start_year := None; ser_title := "Amazing"; ser_volume := 1 |}.

Definition blank_issue : Issue :=
  {| iss_series := blank_series; iss_resources := []; iss_characters := [];
     iss_cover_date := None; iss_credits := []; iss_format := COMIC;
     iss_locations := []; iss_number := Some "1"; iss_store_date := None;
     iss_story_arcs := []; iss_summary := None; iss_teams := [];
     iss_title := None |}.

Definition perdoo_tool : Tool := {| tool_value := "Perdoo"; tool_version := "0.1.0" |}.

Definition metadata_dated (d : date) : Metadata :=
  {| issue := blank_issue; meta := {| date_ := d; tool := perdoo_tool |};
     pages := [] |}.


Definition blank_metron_info : MetronInfo :=
  {| mi_id := None;
     mi_publisher := {| ir_id := None; ir_value := "marvel comics" |};
     mi_series := {| is_id := None; is_name := "Amazing" |};
     mi_arcs := []; mi_characters := []; mi_cover_date := PyNone;
     mi_credits := []; mi_locations := []; mi_number := Some "1";
     mi_store_date := PyNone; mi_summary := None; mi_teams := [];
     mi_collection_title := None; mi_url := None; mi_pages := [] |}.

Definition blank_comic_info : ComicInfo :=
  {| ci_publisher := Some "marvel comics"; ci_series := Some "Amazing";
     ci_character_list := []; ci_credits := ∅; ci_cover_date := None;
     ci_location_list := []; ci_number := Some "1"; ci_story_arc_list := [];
     ci_summary := None; ci_team_list := []; ci_title := None; ci_web := None;
     ci_pages := [] |}.

Definition metainfo_dated (d : date) : MetaInfo :=
  (metadata_dated d, blank_metron_info, blank_comic_info).

(** The same objects without any stored identifier. *)
Definition unidentified : MetaInfo :=
  ({| issue :=
        Comicvine.set_series blank_issue
          (Comicvine.set_publisher blank_series
             {| pub_resources := []; pub_title := "marvel comics" |});
      meta := {| date_ := 0; tool := perdoo_tool |};
      pages := [] |},
   blank_metron_info, blank_comic_info).

(** A catalogue that knows publisher 10 and nothing else; the operator
    finds no series. *)
Definition publisher_only : Comicvine.Session :=
  {| Comicvine.get_publisher := fun id =>
       if decide (id = 10)
       then Some {| Simyan.publisher_id := 10; Simyan.publisher_name := "Marvel" |}
       else None;
     Comicvine.get_volume := fun _ => None;
     Comicvine.get_issue := fun _ => None;
     Comicvine.search_publishers := fun _ => None;
     Comicvine.search_series := fun _ _ => None;
     Comicvine.search_issues := fun _ _ => None;
     Comicvine.console :=
       {| Comicvine.ask_cover_date := 0; Comicvine.Role_load := fun _ => None |} |}.

Definition failing : Service := fun st => (false, st).

Definition succeeding : Service := fun st => (true, st).

Definition demo_services : Services :=
  {| Marvel := fun _ => failing;
     Metron := fun _ => failing;
     ComicvineSession := fun _ => publisher_only;
     League := fun _ => succeeding |}.

Definition demo_output : Output :=
  {| output_create_comic_info := true; output_create_metadata := true;
     output_create_metron_info := true; format := CBZ |}.

(** Settings with Comicvine as the only configured service. *)
Definition comicvine_only : Settings :=
  {| collection_folder := ["comics"];
     comicvine := Some {| api_key := Some "key" |};
     league_of_comic_geeks := None;
     marvel := None;
     metron := Some {| username := Some "user"; password := None |};
     output := demo_output |}.

(** Settings with Metron, Comicvine and League configured. *)
Definition three_services : Settings :=
  {| collection_folder := ["comics"];
     comicvine := Some {| api_key := Some "key" |};
     league_of_comic_geeks :=
       Some {| client_id := Some "id"; client_secret := Some "secret" |};
     marvel := Some {| public_key := Some "public"; private_key := Some EmptyString |};
     metron := Some {| username := Some "user"; password := Some "word" |};
     output := demo_output |}.

(** Settings without any service. *)
Definition no_service : Settings :=
  {| collection_folder := ["comics"];
     comicvine := None; league_of_comic_geeks := None;
     marvel := None; metron := None;
     output := demo_output |}.

(** A collection of two zip archives without metadata entries. *)
Definition first_path : Path := ["comics"; "first.cbz"].
Definition second_path : Path := ["comics"; "second.cbz"].

Definition scratch : Folder := ["b.jpg"; "a.jpg"].

Definition demo_io (no_extract no_archive : list Path) : ArchiveIO :=
  {| list_filenames := fun _ => ["a.jpg"; "b.jpg"];
     read_file := fun _ _ => [];
     extract_files := fun a =>
       if bool_decide (path a ∈ no_extract) then None else Some scratch;
     archive_files := fun a _ =>
       if bool_decide (path a ∈ no_archive) then None
       else Some ["tmp"; stem (path a) +:+ ".cbz"] |}.

(** Every archive gets the same default metadata, stamped [stamp]. *)
Definition demo_codec (stamp : Meta) : Codec :=
  {| Metadata_from_bytes := fun _ => None;
     MetronInfo_from_bytes := fun _ => None;
     ComicInfo_from_bytes := fun _ => None;
     metron_to_metadata := fun _ => metadata_dated 0;
     comic_to_metadata := fun _ => metadata_dated 0;
     create_metadata := fun _ =>
       {| issue := blank_issue; meta := stamp; pages := [] |};
     metadata_to_metron := fun _ => blank_metron_info;
     metadata_to_comic := fun _ => blank_comic_info |}.

Definition demo_page (img_file : string) (index : nat) (is_final_page : bool)
    (old : option Page) : Page :=
  {| pg_index := index; pg_final := is_final_page; pg_file := img_file;
     pg_flags := match old with Some p => pg_flags p | None => EmptyString end |}.

Definition sorted_images (folder : Folder) : list string :=
  merge_sort String.le (filter (fun nm => suffix_of_name nm ≠ ".xml") folder).

Definition demo_today : date := 739000.

Definition demo_world (stamp : Meta) (no_extract no_archive : list Path) : World :=
  {| lib := magic;
     py7zr_loaded := true;
     disk := fun _ => zip_magic;
     io := demo_io no_extract no_archive;
     codec := demo_codec stamp;
     services := demo_services;
     sanitize := fun s => s;
     ARCHIVE_EXTENSIONS := [".cb7"; ".cbr"; ".cbt"; ".cbz"];
     list_files := fun _ extensions =>
       if decide (extensions = [".cbz"]) then [first_path; second_path] else [];
     list_images := sorted_images;
     page_classes :=
       {| MetadataPage_from_path := demo_page;
          MetronPage_from_path := demo_page;
          ComicPage_from_path := demo_page |};
     today := demo_today;
     version := "0.1.0" |}.

Definition stamped (d : date) : Meta := {| date_ := d; tool := perdoo_tool |}.

Definition foreign_stamp (d : date) : Meta :=
  {| date_ := d; tool := {| tool_value := "Other"; tool_version := "1" |} |}.

End Demo.

From Stdlib Require DecimalNat DecimalFacts.

(* ===================================================================== *)
(** ** perdoo/services/comicvine.py: the interactive searches *)
(* ===================================================================== *)

Module Search.
Import Py Models Main.

(** Exceptions other than [ServiceError], which the searches do not catch. *)
Inductive Failure := IndexError | AttributeError | TypeError.

(** How a search ends: it returns, it raises, or the model's fuel ran out
    before the operator stopped asking for another try. *)
Inductive Result (A : Type) :=
| Returned (x : A)
| Raised (e : Failure)
| Unfinished.

Arguments Returned {A} x.
Arguments Raised {A} e.
Arguments Unfinished {A}.

(** The operator at the console, by round of one search: the title typed
    at [Prompt.ask], the index picked in [create_menu] for the options
    shown (0 is the default entry, none of the above), and the answer to
    [Confirm.ask("Try Again")]. *)
Record Operator := {
  ask_title : nat -> string;
  choose : nat -> list string -> nat;
  try_again : nat -> bool
}.

(** What [list_volumes] yields: the volume and its publisher's identifier,
    [None] for a volume without publisher. *)
Record VolumeEntry := {
  ve_volume : Simyan.Volume;
  ve_publisher : option Z
}.

(** What [list_issues] yields. *)
Record IssueEntry := {
  ie_id : Z;
  ie_number : option string;
  ie_name : option string
}.

(** The catalogue's list calls, by the value of their [filter] parameter;
    [None] stands for [ServiceError].  The two sorts whose keys are tuples
    with optional members are Python's [sorted] with that key; [None]
    stands for the [TypeError] of keys that cannot be compared. *)
Record Catalogue := {
  list_publishers : string -> option (list Simyan.Publisher);
  list_volumes : string -> option (list VolumeEntry);
  list_issues : string -> option (list IssueEntry);
  sorted_by_name_year : list VolumeEntry -> option (list VolumeEntry);
  sorted_by_number_name : list IssueEntry -> option (list IssueEntry)
}.

(** [sorted(publishers, key=lambda x: x.name)]: names are strings, the sort
    is stable. *)
Fixpoint insert_by_name (x : Simyan.Publisher) (l : list Simyan.Publisher)
    : list Simyan.Publisher :=
  match l with
  | [] => [x]
  | y :: rest =>
      if String.leb (Simyan.publisher_name x) (Simyan.publisher_name y)
      then x :: y :: rest
      else y :: insert_by_name x rest
  end.

Definition sorted_by_name (l : list Simyan.Publisher) : list Simyan.Publisher :=
  foldr insert_by_name [] l.

Definition str_of_optstr (s : option string) : string := default "None" s.

Definition str_of_optint (z : option Z) : string :=
  match z with Some z => str_of_Z z | None => "None" end.

Definition publisher_label (x : Simyan.Publisher) : string :=
  str_of_Z (Simyan.publisher_id x) +:+ " | " +:+ Simyan.publisher_name x.

Definition volume_label (x : VolumeEntry) : string :=
  str_of_Z (Simyan.volume_id (ve_volume x)) +:+ " | "
  +:+ Simyan.volume_name (ve_volume x) +:+ " ("
  +:+ str_of_optint (Simyan.volume_start_year (ve_volume x)) +:+ ")".

Definition issue_label (x : IssueEntry) : string :=
  str_of_Z (ie_id x) +:+ " | " +:+ str_of_optstr (ie_number x) +:+ " - "
  +:+ (if bool_of_optstr (ie_name x) then default EmptyString (ie_name x)
       else EmptyString).

(** [title or Prompt.ask(...)] *)
Definition title_or_ask (op : Operator) (round : nat) (title : option string)
    : string :=
  if bool_of_optstr title then default EmptyString title else ask_title op round.

(** [options[index - 1]] for an index other than 0. *)
Definition pick {A B : Type} (options : list A) (index : nat) (id : A -> B)
    : Result (option B) :=
  match options !! (index - 1)%nat with
  | Some x => Returned (Some (id x))
  | None => Raised IndexError
  end.

Fixpoint _search_publishers (cat : Catalogue) (op : Operator)
    (fuel round : nat) (title : option string)
    : list Event * Result (option Z) :=
  match fuel with
  | O => ([], Unfinished)
  | S fuel =>
      let title := title_or_ask op round title in
      match list_publishers cat ("name:" +:+ title) with
      | None => ([Log ERROR EmptyString], Returned None)
      | Some listed =>
          let options := sorted_by_name listed in
          let warn :=
            match options with
            | [] =>
                [Log WARNING ("Unable to find any publishers with the title: '"
                              +:+ title +:+ "'")]
            | _ :: _ => []
            end in
          let index := choose op round (publisher_label <$> options) in
          if decide (index ≠ 0%nat) then
            (warn, pick options index Simyan.publisher_id)
          else if negb (try_again op round) then (warn, Returned None)
          else
            let '(ev, r) := _search_publishers cat op fuel (S round) None in
            (warn ++ ev, r)
      end
  end.

(** The list comprehension of [_search_series]: the volumes of the given
    publisher; a volume without publisher raises [AttributeError]. *)
Fixpoint of_publisher (publisher_id : Z) (l : list VolumeEntry)
    : Result (list VolumeEntry) :=
  match l with
  | [] => Returned []
  | x :: rest =>
      match ve_publisher x with
      | None => Raised AttributeError
      | Some id =>
          match of_publisher publisher_id rest with
          | Returned kept =>
              Returned (if decide (id = publisher_id) then x :: kept else kept)
          | other => other
          end
      end
  end.

Fixpoint _search_series (cat : Catalogue) (op : Operator)
    (fuel round : nat) (publisher_id : Z) (title : option string)
    : list Event * Result (option Z) :=
  match fuel with
  | O => ([], Unfinished)
  | S fuel =>
      let title := title_or_ask op round title in
      match list_volumes cat ("name:" +:+ title) with
      | None => ([Log ERROR EmptyString], Returned None)
      | Some listed =>
          match of_publisher publisher_id listed with
          | Raised e => ([], Raised e)
          | Unfinished => ([], Unfinished)
          | Returned kept =>
              match sorted_by_name_year cat kept with
              | None => ([], Raised TypeError)
              | Some options =>
                  let warn :=
                    match options with
                    | [] =>
                        [Log WARNING
                           ("Unable to find any Series with a PublisherId: "
                            +:+ str_of_Z publisher_id +:+ " and the title: '"
                            +:+ title +:+ "'")]
                    | _ :: _ => []
                    end in
                  let index := choose op round (volume_label <$> options) in
                  if decide (index ≠ 0%nat) then
                    (warn, pick options index
                             (fun x => Simyan.volume_id (ve_volume x)))
                  else if negb (try_again op round) then (warn, Returned None)
                  else
                    let '(ev, r) :=
                      _search_series cat op fuel (S round) publisher_id None in
                    (warn ++ ev, r)
              end
          end
      end
  end.

Definition issue_filter (series_id : Z) (number : option string) : string :=
  if bool_of_optstr number
  then "volume:" +:+ str_of_Z series_id +:+ ",issue_number:"
       +:+ default EmptyString number
  else "volume:" +:+ str_of_Z series_id.

Fixpoint _search_issues (cat : Catalogue) (op : Operator)
    (fuel round : nat) (series_id : Z) (number : option string)
    : list Event * Result (option Z) :=
  match fuel with
  | O => ([], Unfinished)
  | S fuel =>
      match list_issues cat (issue_filter series_id number) with
      | None => ([Log ERROR EmptyString], Returned None)
      | Some listed =>
          match sorted_by_number_name cat listed with
          | None => ([], Raised TypeError)
          | Some options =>
              let warn :=
                match options with
                | [] =>
                    [Log WARNING
                       ("Unable to find any Issues with a SeriesId: "
                        +:+ str_of_Z series_id +:+ " and the issue number: '"
                        +:+ str_of_optstr number +:+ "'")]
                | _ :: _ => []
                end in
              let index := choose op round (issue_label <$> options) in
              if decide (index ≠ 0%nat) then (warn, pick options index ie_id)
              else if bool_of_optstr number then
                let '(ev, r) :=
                  _search_issues cat op fuel (S round) series_id None in
                (warn ++ Log INFO "Searching again without the issue number"
                         :: ev, r)
              else (warn, Returned None)
          end
      end
  end.

End Search.

(* ===================================================================== *)
(** ** Wording of the further properties *)
(* ===================================================================== *)

Module Props.
Import Py Models Archives Main.

(** The error line of [read_archive] for an entry that is stored in the
    archive and does not validate; nothing for any other entry. *)
Definition invalid_entry_log {A : Type} (from_bytes : bytes -> option A)
    (io : ArchiveIO) (archive : BaseArchive) (entry label : string)
    : list Event :=
  match Spec.stored_entry io archive entry with
  | Some content =>
      match from_bytes content with
      | Some _ => []
      | None =>
          [Log ERROR (name (path archive) +:+ " contains an invalid "
                      +:+ label +:+ " file")]
      end
  | None => []
  end.

(** The six entry names that [read_archive] looks for. *)
Definition metadata_entries : list string :=
  ["/Metadata.xml"; "Metadata.xml"; "/MetronInfo.xml"; "MetronInfo.xml";
   "/ComicInfo.xml"; "ComicInfo.xml"].

(** What [convert_collection] logs and does for one file that opens. *)
Definition conversion_of (output_ : OutputFormat) (file : Path) : list Event :=
  [Log INFO ("Converting " +:+ name file +:+ " to "
             +:+ OutputFormat_name output_ +:+ " format");
   Convert (snd (convert_target output_)) file].

(** Events that change the collection itself. *)
Definition touches_collection (e : Event) : bool :=
  match e with
  | Unlink _ | Move _ _ | Mkdir _ | Convert _ _ => true
  | _ => false
  end.

(** The archive behind a path can be opened. *)
Definition opens (w : World) (file : Path) : Prop :=
  exists a, get_archive (lib w) (py7zr_loaded w) (disk w) file = inl a.

Definition converting_line (output_ : OutputFormat) (file : Path) : Event :=
  Log INFO ("Converting " +:+ name file +:+ " to "
            +:+ OutputFormat_name output_ +:+ " format").

(** One pass of the loop of [convert_collection]. *)
Definition convert_step (w : World) (output_ : OutputFormat) (file : Path)
    : M Control :=
  emit (converting_line output_ file) ;;;
  archive <- open_archive w file ;;
  emit (Convert (snd (convert_target output_)) (path archive)) ;;;
  ret Next.

(** The metadata files that the output settings ask for, as written into
    the scratch folder. *)
Definition written (settings : Settings) (st : MetaInfo) : list Event :=
  (if output_create_metadata (output settings)
   then [ToFile "Metadata.xml" (MetadataXml (fst (fst st)))] else [])
  ++ (if output_create_metron_info (output settings)
      then [ToFile "MetronInfo.xml" (MetronInfoXml (snd (fst st)))] else [])
  ++ (if output_create_comic_info (output settings)
      then [ToFile "ComicInfo.xml" (ComicInfoXml (snd st))] else []).

(** The scratch folder with these files in it. *)
Definition staged (settings : Settings) (folder : Folder) : Folder :=
  (if output_create_comic_info (output settings) then ["ComicInfo.xml"] else [])
  ++ (if output_create_metron_info (output settings) then ["MetronInfo.xml"] else [])
  ++ (if output_create_metadata (output settings) then ["Metadata.xml"] else [])
  ++ folder.

(** The first lines of every processed archive. *)
Definition heading (file : Path) : list Event :=
  [ConsoleRule (stem file); Log INFO ("Processing " +:+ name file)].

(** The characters of a string that are not role delimiters. *)
Fixpoint without_delims (s : string) : string :=
  match s with
  | EmptyString => EmptyString
  | String c rest =>
      if Comicvine.is_role_delim c then without_delims rest
      else String c (without_delims rest)
  end.

Fixpoint has_delim (s : string) : bool :=
  match s with
  | EmptyString => false
  | String c rest => Comicvine.is_role_delim c || has_delim rest
  end.

(** One whitespace character: the string is the encoding of one and
    nothing more. *)
Definition space_char (w : string) : bool :=
  match w with
  | String c EmptyString => Comicvine.is_space c
  | String c (String d EmptyString) => Comicvine.is_space2 c d
  | String c (String d (String e EmptyString)) => Comicvine.is_space3 c d e
  | _ => false
  end.

(** The string begins, or ends, with a whitespace character: one of its
    first, or last, one to three bytes is one. *)
Definition leading_space (s : string) : bool :=
  space_char (Py.take_str 1 s) || space_char (Py.take_str 2 s)
  || space_char (Py.take_str 3 s).

Definition trailing_space (s : string) : bool :=
  let back n := String.rev (Py.take_str n (String.rev s)) in
  space_char (back 1%nat) || space_char (back 2%nat) || space_char (back 3%nat).

(** The string is made of whitespace characters only. *)
Fixpoint all_space (s : string) : bool :=
  match s with
  | EmptyString => true
  | String c r1 =>
      if Comicvine.is_space c then all_space r1
      else
        match r1 with
        | String d r2 =>
            if Comicvine.is_space2 c d then all_space r2
            else
              match r2 with
              | String e r3 => Comicvine.is_space3 c d e && all_space r3
              | EmptyString => false
              end
        | EmptyString => false
        end
  end.



(** A listing whose names are already those that [rename_images] compares
    with: base name, underscore, padded index, extension. *)
Definition underscore_listing (filename : string) (image_list : list string)
    : Prop :=
  forall i img,
    image_list !! i = Some img ->
    img = filename +:+ "_"
          +:+ padded (String.length (str_of_nat (length image_list))) i
          +:+ suffix_of_name img.

(** Each image of a listing with the canonical name for its position. *)
Fixpoint canonical_pairs (filename : string) (pad_count index : nat)
    (image_list : list string) : list (string * string) :=
  match image_list with
  | [] => []
  | img :: rest =>
      (img, canonical_name filename pad_count index img)
        :: canonical_pairs filename pad_count (S index) rest
  end.

(** [int(s)] for a string of decimal digits. *)
Definition int_of_digits (s : string) : option nat :=
  Nat.of_uint <$> NilEmpty.uint_of_string s.

Definition is_log (e : Event) : bool :=
  match e with Log _ _ => true | _ => false end.

Definition is_rename (e : Event) : bool :=
  match e with Rename _ _ => true | _ => false end.

End Props.

(* ===================================================================== *)
(** ** Further archives, catalogues and collections for the examples *)
(* ===================================================================== *)

Module Cases.
Import Py Models Archives Main.

(** An archive that stores a broken [/Metadata.xml] next to a sound
    [Metadata.xml]. *)
Definition sound : bytes := [Byte.x01].

Definition shadow_io : ArchiveIO :=
  {| list_filenames := fun _ => ["/Metadata.xml"; "Metadata.xml"; "a.jpg"];
     read_file := fun _ nm =>
       if decide (nm = "Metadata.xml") then sound else [];
     extract_files := fun _ => None;
     archive_files := fun _ _ => None |}.

(** Only the one-byte content [sound] validates. *)
Definition picky {A : Type} (x : A) (content : bytes) : option A :=
  match content with
  | [Byte.x01] => Some x
  | _ => None
  end.

Definition picky_codec : Codec :=
  {| Metadata_from_bytes := picky (Demo.metadata_dated 7);
     MetronInfo_from_bytes := picky Demo.blank_metron_info;
     ComicInfo_from_bytes := picky Demo.blank_comic_info;
     metron_to_metadata := fun _ => Demo.metadata_dated 1;
     comic_to_metadata := fun _ => Demo.metadata_dated 2;
     create_metadata := fun _ => Demo.metadata_dated 3;
     metadata_to_metron := fun _ => Demo.blank_metron_info;
     metadata_to_comic := fun _ => Demo.blank_comic_info |}.

Definition cbz (p : Path) : BaseArchive :=
  {| variant := CBZArchive; path := p |}.

(** A world like [w] with another disk, library switch and listing. *)
Definition with_disk (w : World) (loaded : bool) (d : Disk)
    (listing : Path -> list string -> list Path) : World :=
  {| lib := lib w; py7zr_loaded := loaded; disk := d; io := io w;
     codec := codec w; services := services w; sanitize := sanitize w;
     ARCHIVE_EXTENSIONS := ARCHIVE_EXTENSIONS w;
     list_files := listing;
     list_images := list_images w; page_classes := page_classes w;
     today := today w; version := version w |}.

(** Two rar files wait for conversion; the collection itself holds a zip
    archive followed by a text file under a [.cbz] name. *)
Definition old_first : Path := ["comics"; "old1.cbr"].
Definition old_second : Path := ["comics"; "old2.cbr"].

Definition mixed_disk : Disk := fun p =>
  if decide (p = Demo.text_path) then [Byte.x68; Byte.x69]
  else if decide (p = old_first) then Demo.rar_magic
  else if decide (p = old_second) then Demo.rar_magic
  else Demo.zip_magic.

Definition mixed_listing (root : Path) (extensions : list string) : list Path :=
  if decide (extensions = [".cbz"])
  then [Demo.first_path; Demo.text_path; Demo.second_path]
  else [old_first; old_second].

(** The same, with the text file among the files to convert. *)
Definition broken_listing (root : Path) (extensions : list string) : list Path :=
  if decide (extensions = [".cbz"])
  then [Demo.first_path]
  else [old_first; Demo.text_path; old_second].

Definition broken_world : World :=
  with_disk (Demo.demo_world (Demo.foreign_stamp 0) [] []) false
    mixed_disk broken_listing.

Definition mixed_world : World :=
  with_disk (Demo.demo_world (Demo.foreign_stamp 0) [] []) false
    mixed_disk mixed_listing.

(** A catalogue that knows publisher 10, volume 20 and issue 30; the
    operator finds the volume and the issue by searching. *)
Definition amazing_one : Simyan.Issue :=
  {| Simyan.issue_id := 30; Simyan.issue_name := Some "Origins";
     Simyan.issue_number := Some "1"; Simyan.issue_cover_date := None;
     Simyan.issue_store_date := Some 700000; Simyan.issue_summary := None;
     Simyan.issue_site_url := Some "https://comicvine.example/30";
     Simyan.issue_characters :=
       [{| Simyan.entry_id := 1; Simyan.entry_name := "Spider" |}];
     Simyan.issue_creators :=
       [{| Simyan.creator_id := 5; Simyan.creator_name := "Lee";
           Simyan.creator_roles := "writer, editor" |};
        {| Simyan.creator_id := 6; Simyan.creator_name := "Ditko";
           Simyan.creator_roles := "penciler~inker" |};
        {| Simyan.creator_id := 7; Simyan.creator_name := "Lee";
           Simyan.creator_roles := "cover" |}];
     Simyan.issue_locations := []; Simyan.issue_story_arcs := [];
     Simyan.issue_teams := [] |}.

Definition known_roles (r : string) : option Role :=
  if decide (r = "writer") then Some (RoleKeyword "Writer")
  else if decide (r = "inker") then Some (RoleKeyword "Inker")
  else None.

Definition full_session : Comicvine.Session :=
  {| Comicvine.get_publisher := fun id =>
       if decide (id = 10)
       then Some {| Simyan.publisher_id := 10; Simyan.publisher_name := "Marvel" |}
       else None;
     Comicvine.get_volume := fun id =>
       if decide (id = 20)
       then Some {| Simyan.volume_id := 20;
                    Simyan.volume_name := "The Amazing";
                    Simyan.volume_start_year := Some 1963 |}
       else None;
     Comicvine.get_issue := fun id =>
       if decide (id = 30) then Some amazing_one else None;
     Comicvine.search_publishers := fun _ => None;
     Comicvine.search_series := fun _ _ => Some 20;
     Comicvine.search_issues := fun _ _ => Some 30;
     Comicvine.console :=
       {| Comicvine.ask_cover_date := 710000;
          Comicvine.Role_load := known_roles |} |}.

(** MetronInfo whose own identifier comes from another source system. *)
Definition foreign_metron_info : MetronInfo :=
  {| mi_id := Some {| src_source := INFO_METRON; src_value := 77 |};
     mi_publisher := {| ir_id := Some 3; ir_value := "marvel comics" |};
     mi_series := {| is_id := Some 4; is_name := "Amazing" |};
     mi_arcs := []; mi_characters := []; mi_cover_date := PyNone;
     mi_credits := []; mi_locations := []; mi_number := Some "1";
     mi_store_date := PyNone; mi_summary := None; mi_teams := [];
     mi_collection_title := None; mi_url := None; mi_pages := [] |}.

(** A small catalogue for the searches: two publishers under the title
    Marvel, three volumes titled Amazing of which one belongs to another
    publisher, and the issues of volume 2127 by number. *)
Definition marvel : Models.Simyan.Publisher :=
  {| Models.Simyan.publisher_id := 31;
     Models.Simyan.publisher_name := "Marvel" |}.

Definition marvel_uk : Models.Simyan.Publisher :=
  {| Models.Simyan.publisher_id := 1868;
     Models.Simyan.publisher_name := "Marvel UK" |}.

Definition volume_of (id : Z) (year : Z) (publisher : Z) : Search.VolumeEntry :=
  {| Search.ve_volume :=
       {| Models.Simyan.volume_id := id;
          Models.Simyan.volume_name := "Amazing";
          Models.Simyan.volume_start_year := Some year |};
     Search.ve_publisher := Some publisher |}.

Definition issue_of (id : Z) (number : string) : Search.IssueEntry :=
  {| Search.ie_id := id;
     Search.ie_number := Some number;
     Search.ie_name := None |}.

Definition shelf : Search.Catalogue :=
  {| Search.list_publishers := fun filter_ =>
       if decide (filter_ = "name:Marvel") then Some [marvel_uk; marvel]
       else Some [];
     Search.list_volumes := fun filter_ =>
       if decide (filter_ = "name:Amazing")
       then Some [volume_of 2127 1963 31; volume_of 9000 1999 10;
                  volume_of 2128 1999 31]
       else Some [];
     Search.list_issues := fun filter_ =>
       if decide (filter_ = "volume:2127,issue_number:1")
       then Some [issue_of 6422 "1"]
       else if decide (filter_ = "volume:2127")
       then Some [issue_of 6422 "1"; issue_of 6423 "2"]
       else Some [];
     Search.sorted_by_name_year := Some;
     Search.sorted_by_number_name := Some |}.

(** An operator who types the given title, declines the first menu, asks
    for another try and then picks the given entry; and one who declines
    every menu and every retry. *)
Definition second_try (typed : string) (entry : nat) : Search.Operator :=
  {| Search.ask_title := fun _ => typed;
     Search.choose := fun round _ =>
       match round with O => 0%nat | S _ => entry end;
     Search.try_again := fun round =>
       match round with O => true | S _ => false end |}.

Definition declines : Search.Operator :=
  {| Search.ask_title := fun _ => "Nothing";
     Search.choose := fun _ _ => 0%nat;
     Search.try_again := fun _ => false |}.

(** A catalogue that lists the two Marvel publishers but raises
    [ServiceError] for every other title. *)
Definition flaky : Search.Catalogue :=
  {| Search.list_publishers := fun filter_ =>
       if decide (filter_ = "name:Marvel") then Some [marvel_uk; marvel]
       else None;
     Search.list_volumes := fun _ => None;
     Search.list_issues := fun _ => None;
     Search.sorted_by_name_year := Some;
     Search.sorted_by_number_name := Some |}.



(** A creator whose first role is followed by a no-break space (U+00A0). *)
Definition nbsp : string := String (ascii_of_nat 194) (String (ascii_of_nat 160) EmptyString).

Definition spaced_creator : Models.Simyan.CreatorEntry :=
  {| Models.Simyan.creator_id := 5;
     Models.Simyan.creator_name := "Lee";
     Models.Simyan.creator_roles := "writer" +:+ nbsp +:+ ", editor" |}.

End Cases.

(* ===================================================================== *)
(** ** Archive dispatch *)
(* ===================================================================== *)

Section Dispatch.
Import Py Archives.

Variables (lib : Sniffers) (disk : Disk).

Lemma get_archive_zip loaded p :
  is_zipfile lib (disk p) = true ->
  variant_of (get_archive lib loaded disk p) = Some CBZArchive.
Proof. intros H. unfold get_archive. now rewrite H. Qed.

Lemma get_archive_raises_inv loaded p :
  raises (get_archive lib loaded disk p) ->
  is_zipfile lib (disk p) = false /\ is_rarfile lib (disk p) = false
  /\ is_tarfile lib (disk p) = false /\ loaded = false.
Proof.
  unfold get_archive.
  destruct (is_zipfile lib (disk p)), (is_rarfile lib (disk p)),
    (is_tarfile lib (disk p)), loaded; simpl; intuition.
Qed.

End Dispatch.

(** C2 (as stated, refuted).  Without the 7z library loaded, a file whose
    content carries the 7z signature makes [get_archive] raise the
    unsupported-format error, although the dispatch by the four signatures
    returns the 7z variant for it. *)
Lemma get_archive_not_by_four_signatures :
  Archives.raises
    (Archives.get_archive Demo.magic false Demo.three_files Demo.sevenz_path)
  /\ Archives.variant_of
       (Archives.dispatch_by_signature Demo.magic Demo.three_files Demo.sevenz_path)
     = Some Archives.CB7Archive.
Proof. split; vm_compute; [exact I | reflexivity]. Qed.

(** C2 (amended).  [get_archive] looks at the content behind the path only:
    two paths with the same bytes get the same variant.  It tests the zip,
    rar and tar signatures in this order and returns the first match.  When
    none of the three matches: with the 7z library loaded, content with the
    7z signature gives the 7z variant; without it the unsupported-format
    error is raised, whatever the content.  The error is never raised for
    content that matches the zip, rar or tar signature. *)
Theorem get_archive_dispatch (lib : Archives.Sniffers) (loaded : bool)
    (disk : Archives.Disk) (p : Py.Path) :
  let zip := Archives.is_zipfile lib (disk p) in
  let rar := Archives.is_rarfile lib (disk p) in
  let tar := Archives.is_tarfile lib (disk p) in
  let sevenz := Archives.is_7zfile lib (disk p) in
  let result := Archives.get_archive lib loaded disk p in
  (forall disk' q, disk' q = disk p ->
     Archives.variant_of (Archives.get_archive lib loaded disk' q)
     = Archives.variant_of result)
  /\ (zip = true -> Archives.variant_of result = Some Archives.CBZArchive)
  /\ (zip = false -> rar = true ->
      Archives.variant_of result = Some Archives.CBRArchive)
  /\ (zip = false -> rar = false -> tar = true ->
      Archives.variant_of result = Some Archives.CBTArchive)
  /\ (zip = false -> rar = false -> tar = false -> loaded = true ->
      sevenz = true -> Archives.variant_of result = Some Archives.CB7Archive)
  /\ (zip = false -> rar = false -> tar = false -> loaded = false ->
      result = inr (Archives.unsupported p))
  /\ (Archives.raises result -> zip = false /\ rar = false /\ tar = false).
Proof.
  cbv zeta. repeat apply conj.
  - intros disk' q Hq. unfold Archives.get_archive. rewrite Hq.
    destruct (Archives.is_zipfile lib (disk p)),
      (Archives.is_rarfile lib (disk p)),
      (Archives.is_tarfile lib (disk p)), loaded; reflexivity.
  - apply get_archive_zip.
  - unfold Archives.get_archive. intros -> ->. reflexivity.
  - unfold Archives.get_archive. intros -> -> ->. reflexivity.
  - unfold Archives.get_archive. intros -> -> -> -> _. reflexivity.
  - unfold Archives.get_archive. intros -> -> -> ->. reflexivity.
  - intros H. apply get_archive_raises_inv in H. tauto.
Qed.

Lemma get_archive_dispatch_witness :
  Archives.variant_of
    (Archives.get_archive Demo.magic true Demo.three_files Demo.zip_path)
  = Some Archives.CBZArchive
  /\ Archives.variant_of
       (Archives.get_archive Demo.magic true Demo.three_files Demo.sevenz_path)
     = Some Archives.CB7Archive
  /\ Archives.get_archive Demo.magic false Demo.three_files Demo.text_path
     = inr (Archives.unsupported Demo.text_path).
Proof.
  split; [|split].
  - apply (get_archive_dispatch Demo.magic true Demo.three_files Demo.zip_path).
    reflexivity.
  - apply (get_archive_dispatch Demo.magic true Demo.three_files Demo.sevenz_path);
      reflexivity.
  - apply (get_archive_dispatch Demo.magic false Demo.three_files Demo.text_path);
      reflexivity.
Defined.

(** With the 7z library loaded the last test is true for every file: a text
    file that matches none of the four signatures is handed out as a 7z
    archive, no error raised. *)
Example get_archive_text_file_loaded :
  Archives.get_archive Demo.magic true Demo.three_files Demo.text_path
  = inl {| Archives.variant := Archives.CB7Archive;
           Archives.path := Demo.text_path |}.
Proof. reflexivity. Qed.

(* ===================================================================== *)
(** ** Python string helpers *)
(* ===================================================================== *)

Section Strings.
Import Py.

Lemma length_append (a b : string) :
  String.length (a +:+ b) = (String.length a + String.length b)%nat.
Proof. induction a as [|c a IH]; simpl; [reflexivity | now rewrite IH]. Qed.

Lemma length_zeros n : String.length (zeros n) = n.
Proof. induction n; simpl; congruence. Qed.





(** Without a leading sign the padding is a run of zeros in front. *)
Lemma zfill_unsigned w c rest :
  is_sign c = false ->
  zfill w (String c rest)
  = zeros (w - len (String c rest)) +:+ String c rest.
Proof.
  intros Hc. unfold zfill.
  destruct (Nat.leb_spec w (len (String c rest))) as [H|H].
  - replace (w - len (String c rest))%nat with 0%nat by lia.
    reflexivity.
  - now rewrite Hc.
Qed.

Lemma append_nonempty_r (a b : string) : b <> EmptyString -> a +:+ b <> EmptyString.
Proof. intros H. destruct a; simpl; [exact H | discriminate]. Qed.

End Strings.

(* ===================================================================== *)
(** ** Identifier merging *)
(* ===================================================================== *)

Section Resources.
Import Models Comicvine.

Lemma add_resource_union old new : Spec.union_with old new (add_resource old new).
Proof.
  unfold Spec.union_with, add_resource. repeat apply conj.
  - intros r Hr. apply elem_of_elements. set_solver.
  - apply elem_of_elements. set_solver.
  - intros r Hr. apply elem_of_elements in Hr. set_solver.
  - apply NoDup_elements.
Qed.

End Resources.

(** C8.  Merging a resolved publisher, series or issue identifier into the
    canonical metadata leaves in the entity's resources exactly the
    identifiers that were there before together with the new Comicvine
    (source, value) pair, each of them once. *)
Theorem merged_resources_are_set_union
    (publisher : Models.Simyan.Publisher) (series : Models.Simyan.Volume)
    (issue_ : Models.Simyan.Issue) (metadata : Models.Metadata) :
  let publisher_of m := Models.ser_publisher (Models.iss_series (Models.issue m)) in
  let series_of m := Models.iss_series (Models.issue m) in
  Spec.union_with
    (Models.pub_resources (publisher_of metadata))
    {| Models.res_source := Models.COMICVINE;
       Models.res_value := Models.Simyan.publisher_id publisher |}
    (Models.pub_resources
       (publisher_of (Comicvine.add_publisher_to_metadata publisher metadata)))
  /\ Spec.union_with
       (Models.ser_resources (series_of metadata))
       {| Models.res_source := Models.COMICVINE;
          Models.res_value := Models.Simyan.volume_id series |}
       (Models.ser_resources
          (series_of (Comicvine.add_series_to_metadata series metadata)))
  /\ Spec.union_with
       (Models.iss_resources (Models.issue metadata))
       {| Models.res_source := Models.COMICVINE;
          Models.res_value := Models.Simyan.issue_id issue_ |}
       (Models.iss_resources
          (Models.issue (Comicvine.add_issue_to_metadata issue_ metadata))).
Proof.
  cbv zeta. repeat apply conj; simpl; apply add_resource_union.
Qed.

(** The merge touches one entity: the publisher merge leaves the series and
    issue identifiers alone. *)
Lemma add_publisher_keeps_other_resources publisher metadata :
  Models.ser_resources
    (Models.iss_series
       (Models.issue (Comicvine.add_publisher_to_metadata publisher metadata)))
  = Models.ser_resources (Models.iss_series (Models.issue metadata))
  /\ Models.iss_resources
       (Models.issue (Comicvine.add_publisher_to_metadata publisher metadata))
     = Models.iss_resources (Models.issue metadata).
Proof. split; reflexivity. Qed.

(* ===================================================================== *)
(** ** The cover date written by issue enrichment *)
(* ===================================================================== *)

(** C10.  Issue enrichment assigns to the cover date of MetronInfo a tuple
    of one element, the issue's cover date or, when that is absent, the
    date the operator is prompted for; it is never a bare date.  The store
    date is assigned as it comes. *)
Theorem cover_date_is_one_element_tuple (console : Comicvine.Console)
    (issue_ : Models.Simyan.Issue) (metron_info : Models.MetronInfo) :
  let after := Comicvine.add_issue_to_metron_info console issue_ metron_info in
  Models.mi_cover_date after
  = Models.PyTuple
      [match Models.Simyan.issue_cover_date issue_ with
       | Some d => d
       | None => Comicvine.ask_cover_date console
       end]
  /\ (forall d, Models.mi_cover_date after <> Models.PyDate d)
  /\ Models.mi_store_date after
     = match Models.Simyan.issue_store_date issue_ with
       | Some d => Models.PyDate d
       | None => Models.PyNone
       end.
Proof.
  cbv zeta. repeat apply conj.
  - reflexivity.
  - intros d. simpl. discriminate.
  - reflexivity.
Qed.

(* ===================================================================== *)
(** ** Reconciliation *)
(* ===================================================================== *)

Section Reconciliation.
Import Py Models Archives Main.

Variables (io : ArchiveIO) (codec : Codec) (archive : BaseArchive).

Lemma load_entry_parsed {A : Type} (from_bytes : bytes -> option A)
    (entry label : string) :
  snd (load_entry from_bytes io archive (list_filenames io archive) entry label)
  = Spec.parsed from_bytes io archive entry.
Proof.
  unfold load_entry, Spec.parsed, Spec.stored_entry, contains.
  repeat case_bool_decide; simpl;
    try destruct (from_bytes _); reflexivity.
Qed.

End Reconciliation.

(** C4.  Whatever subset of the three metadata files is present and parses,
    [read_archive] returns the three schemas by the fixed precedence: the
    canonical metadata is the parsed one, else derived from MetronInfo, else
    from ComicInfo, else the default made from the archive; a missing
    MetronInfo and a missing ComicInfo are then derived from that canonical
    metadata. *)
Theorem read_archive_precedence (io : Main.ArchiveIO) (codec : Main.Codec)
    (archive : Archives.BaseArchive) :
  let metadata :=
    Spec.parsed (Main.Metadata_from_bytes codec) io archive "Metadata.xml" in
  let metron_info :=
    Spec.parsed (Main.MetronInfo_from_bytes codec) io archive "MetronInfo.xml" in
  let comic_info :=
    Spec.parsed (Main.ComicInfo_from_bytes codec) io archive "ComicInfo.xml" in
  let canonical :=
    match metadata, metron_info, comic_info with
    | Some m, _, _ => m
    | None, Some mi, _ => Main.metron_to_metadata codec mi
    | None, None, Some ci => Main.comic_to_metadata codec ci
    | None, None, None => Main.create_metadata codec archive
    end in
  snd (Main.read_archive io codec archive)
  = Spec.reconcile codec archive metadata metron_info comic_info
  /\ Spec.reconcile codec archive metadata metron_info comic_info
     = (canonical,
        match metron_info with
        | Some mi => mi
        | None => Main.metadata_to_metron codec canonical
        end,
        match comic_info with
        | Some ci => ci
        | None => Main.metadata_to_comic codec canonical
        end).
Proof.
  cbv zeta. split.
  - unfold Main.read_archive.
    rewrite <- (load_entry_parsed io archive (Main.Metadata_from_bytes codec)
                  "Metadata.xml" "Metadata").
    rewrite <- (load_entry_parsed io archive (Main.MetronInfo_from_bytes codec)
                  "MetronInfo.xml" "MetronInfo").
    rewrite <- (load_entry_parsed io archive (Main.ComicInfo_from_bytes codec)
                  "ComicInfo.xml" "ComicInfo").
    destruct (Main.load_entry (Main.Metadata_from_bytes codec) _ _ _ _ _)
      as [log1 [m|]];
      destruct (Main.load_entry (Main.MetronInfo_from_bytes codec) _ _ _ _ _)
        as [log2 [mi|]];
      destruct (Main.load_entry (Main.ComicInfo_from_bytes codec) _ _ _ _ _)
        as [log3 [ci|]]; reflexivity.
  - unfold Spec.reconcile.
    destruct (Spec.parsed (Main.Metadata_from_bytes codec) _ _ _),
      (Spec.parsed (Main.MetronInfo_from_bytes codec) _ _ _),
      (Spec.parsed (Main.ComicInfo_from_bytes codec) _ _ _); reflexivity.
Qed.

(* ===================================================================== *)
(** ** The issue file name *)
(* ===================================================================== *)

Section Filename.
Import Py Models Main.

Variable sanitize : string -> string.



Lemma append_empty_r (s : string) : s +:+ EmptyString = s.
Proof.
  induction s as [|c s IH]; [reflexivity |].
  change (String c (s +:+ EmptyString) = String c s). now rewrite IH.
Qed.

End Filename.



(* ===================================================================== *)
(** ** Enrichment *)
(* ===================================================================== *)

Section Enrichment.
Import Py Models Main.

Lemma any_fetch_configured (services : list (option Service)) st :
  any_fetch services st = any_fetch (Some <$> omap id services) st.
Proof.
  revert st. induction services as [|[s|] rest IH]; intros st; simpl.
  - reflexivity.
  - destruct (s st) as [[|] st']; [reflexivity | apply IH].
  - apply IH.
Qed.

(** Services that all fail are all run, each on what the one before left. *)
Lemma any_fetch_all_fail (ss : list Service) st st' :
  Spec.AllFail ss st st' -> any_fetch (Some <$> ss) st = (false, st').
Proof.
  induction 1 as [st | s rest st st1 st2 Hs _ IH]; simpl.
  - reflexivity.
  - rewrite Hs. exact IH.
Qed.

(** The first success ends the round: the services behind it are not run. *)
Lemma any_fetch_first_success (before after : list Service) (s : Service)
    st st1 st2 :
  Spec.AllFail before st st1 -> s st1 = (true, st2) ->
  any_fetch (Some <$> (before ++ s :: after)) st = (true, st2).
Proof.
  induction 1 as [st | s0 rest st st1 st1' Hs _ IH]; simpl; intros Hok.
  - now rewrite Hok.
  - rewrite Hs. now apply IH.
Qed.

Lemma all_fail_unchanged (ss : list Service) st st' :
  Forall Spec.unchanged_on_failure ss -> Spec.AllFail ss st st' -> st' = st.
Proof.
  intros Hall Hfail. induction Hfail as [st | s rest st st1 st2 Hs _ IH].
  - reflexivity.
  - apply Forall_cons in Hall as [Hs' Hrest].
    rewrite (IH Hrest). now apply Hs'.
Qed.

Lemma configured_nil sv settings :
  Spec.configured sv settings = [] <->
  negb (bool_of_optobj (marvel_service sv settings))
  && negb (bool_of_optobj (metron_service sv settings))
  && negb (bool_of_optobj (comicvine_service sv settings))
  && negb (bool_of_optobj (league_service sv settings)) = true.
Proof.
  unfold Spec.configured.
  destruct (marvel_service sv settings), (metron_service sv settings),
    (comicvine_service sv settings), (league_service sv settings);
    simpl; split; congruence.
Qed.

Lemma fetch_from_services_any sv settings st :
  Spec.configured sv settings <> [] ->
  fetch_from_services sv settings st
  = let '(success, st') := any_fetch (Some <$> Spec.configured sv settings) st in
    if success then ([], st') else ([Log WARNING unable_msg], st').
Proof.
  intros Hne. unfold fetch_from_services.
  destruct (negb _ && _ && _ && _) eqn:E.
  - apply configured_nil in E. contradiction.
  - now rewrite any_fetch_configured.
Qed.

(** A Comicvine fetch that fails at the publisher stage changes nothing. *)
Lemma comicvine_fetch_publisher_failure self st :
  fst (Comicvine.fetch_publisher self st) = None ->
  Comicvine.fetch self st = (false, st).
Proof.
  unfold Comicvine.fetch, Comicvine.fetch_publisher.
  destruct st as [[metadata metron_info] comic_info].
  destruct (negb _); [reflexivity|].
  destruct (_ ≫= _); simpl; [discriminate | reflexivity].
Qed.

End Enrichment.

(** C5 (as stated, refuted).  Comicvine is the only configured service; the
    publisher resolves from its stored identifier and the series does not.
    The fetch returns failure and the warning is logged, yet the canonical
    metadata holds the catalogue's publisher title in place of the one it
    had before enrichment. *)
Lemma failed_enrichment_changes_metadata :
  let before := Demo.metainfo_dated 0 in
  let result :=
    Main.fetch_from_services Demo.demo_services Demo.comicvine_only before in
  Spec.configured Demo.demo_services Demo.comicvine_only
  = [Comicvine.fetch Demo.publisher_only]
  /\ fst (Comicvine.fetch Demo.publisher_only before) = false
  /\ fst result = [Main.Log Main.WARNING Main.unable_msg]
  /\ snd result <> before.
Proof.
  cbv zeta. repeat apply conj; try reflexivity.
  intros H.
  apply (f_equal (fun st : Models.MetaInfo =>
           Models.pub_title
             (Models.ser_publisher (Models.iss_series (Models.issue (fst (fst st)))))))
    in H.
  vm_compute in H. discriminate.
Qed.

(** C5 (amended).  Enrichment tries the configured services in the order
    Marvel, Metron, Comicvine, League, each on the objects as the service
    before left them, and stops at the first whose fetch reports success.
    If every configured service's fetch returns failure, the warning is
    logged and the objects are what the failed fetches left: they equal
    their state before enrichment when no failed fetch changed them, which
    for Comicvine is the case when the publisher does not resolve. *)
Theorem enrichment_tries_services_in_order (sv : Main.Services)
    (settings : Main.Settings) (st : Models.MetaInfo) :
  let tried :=
    omap id [Main.marvel_service sv settings; Main.metron_service sv settings;
             Main.comicvine_service sv settings; Main.league_service sv settings] in
  let result := Main.fetch_from_services sv settings st in
  (forall before s after st1 st2,
     tried = before ++ s :: after ->
     Spec.AllFail before st st1 -> s st1 = (true, st2) ->
     result = ([], st2))
  /\ (forall st', tried <> [] -> Spec.AllFail tried st st' ->
        result = ([Main.Log Main.WARNING Main.unable_msg], st')
        /\ (Forall Spec.unchanged_on_failure tried -> st' = st))
  /\ (forall self st0,
        fst (Comicvine.fetch_publisher self st0) = None ->
        Comicvine.fetch self st0 = (false, st0)).
Proof.
  cbv zeta. fold (Spec.configured sv settings). repeat apply conj.
  - intros before s after st1 st2 Htried Hfail Hok.
    rewrite fetch_from_services_any.
    + rewrite Htried, (any_fetch_first_success before after s st st1 st2);
        auto.
    + rewrite Htried. now destruct before.
  - intros st' Hne Hfail. split.
    + rewrite fetch_from_services_any by assumption.
      now rewrite (any_fetch_all_fail _ st st').
    + intros Hall. now apply (all_fail_unchanged (Spec.configured sv settings)).
  - apply comicvine_fetch_publisher_failure.
Qed.

Lemma enrichment_tries_services_in_order_witness :
  let st := Demo.metainfo_dated 0 in
  let st1 := snd (Comicvine.fetch Demo.publisher_only st) in
  Main.fetch_from_services Demo.demo_services Demo.three_services st = ([], st1)
  /\ (Main.fetch_from_services Demo.demo_services Demo.comicvine_only st
      = ([Main.Log Main.WARNING Main.unable_msg], st1)
      /\ (Forall Spec.unchanged_on_failure
            (Spec.configured Demo.demo_services Demo.comicvine_only) -> st1 = st))
  /\ Comicvine.fetch Demo.publisher_only Demo.unidentified
     = (false, Demo.unidentified).
Proof.
  cbv zeta.
  pose (st := Demo.metainfo_dated 0).
  pose (st1 := snd (Comicvine.fetch Demo.publisher_only st)).
  assert (Hcv : Comicvine.fetch Demo.publisher_only st = (false, st1))
    by (vm_compute; reflexivity).
  split; [|split].
  - apply (proj1 (enrichment_tries_services_in_order
                    Demo.demo_services Demo.three_services st)
             [Demo.failing; Comicvine.fetch Demo.publisher_only]
             Demo.succeeding [] st1 st1).
    + reflexivity.
    + apply (Spec.AllFail_cons Demo.failing _ st st st1); [reflexivity|].
      apply (Spec.AllFail_cons _ [] st st1 st1); [exact Hcv|].
      apply Spec.AllFail_nil.
    + reflexivity.
  - apply (proj1 (proj2 (enrichment_tries_services_in_order
                           Demo.demo_services Demo.comicvine_only st)) st1).
    + discriminate.
    + apply (Spec.AllFail_cons _ [] st st1 st1); [exact Hcv|].
      apply Spec.AllFail_nil.
  - apply (proj2 (proj2 (enrichment_tries_services_in_order
                           Demo.demo_services Demo.comicvine_only st))
             Demo.publisher_only Demo.unidentified).
    reflexivity.
Defined.

(* ===================================================================== *)
(** ** The loop of [start] *)
(* ===================================================================== *)

Section Orchestrator.
Import Py Models Archives Main.

Lemma bind_lift_inl {A B : Type} (x : A) (k : A -> M B) :
  bind (lift (inl x)) k = k x.
Proof. unfold bind, lift. now destruct (k x). Qed.

Lemma bind_lift_events {A B : Type} (r : list Event * A) (k : A -> M B) :
  bind (lift_events r) k = (fst r ++ events (k (snd r)), outcome (k (snd r))).
Proof. unfold bind, lift_events, events, outcome. now destruct (k (snd r)). Qed.

Lemma bind_emit {B : Type} (e : Event) (k : unit -> M B) :
  bind (emit e) k = (e :: events (k tt), outcome (k tt)).
Proof. unfold bind, emit, events, outcome. now destruct (k tt). Qed.

Lemma for_each_return {A : Type} (x : A) rest (body : A -> M Control) ev :
  body x = (ev, inl Return_) -> for_each (x :: rest) body = (ev, inl tt).
Proof. intros H. simpl. unfold bind. rewrite H. simpl. now rewrite app_nil_r. Qed.

Lemma for_each_next {A : Type} (x : A) rest (body : A -> M Control) ev :
  body x = (ev, inl Next) ->
  for_each (x :: rest) body
  = (ev ++ events (for_each rest body), outcome (for_each rest body)).
Proof.
  intros H. simpl. unfold bind. rewrite H.
  unfold events, outcome. now destruct (for_each rest body).
Qed.

Variables (w : World) (settings : Settings).

(** The processing steps start with the console rule. *)
Lemma process_events_head file archive st :
  exists tail_,
    events (process w settings file archive st) = ConsoleRule (stem file) :: tail_.
Proof. unfold process. rewrite bind_emit. simpl. eauto. Qed.

Lemma process_file_opened force file archive :
  get_archive (lib w) (py7zr_loaded w) (disk w) file = inl archive ->
  let r := read_archive (io w) (codec w) archive in
  let rest_ :=
    if negb force then
      if is_fresh w (fst (fst (snd r))) then ret Next
      else process w settings file archive (snd r)
    else process w settings file archive (snd r) in
  process_file w settings force file = (fst r ++ events rest_, outcome rest_).
Proof.
  intros Hopen. cbv zeta. unfold process_file, open_archive.
  rewrite Hopen, bind_lift_inl, bind_lift_events. reflexivity.
Qed.

Lemma is_fresh_spec metadata :
  is_fresh w metadata = true <->
  tool (meta metadata) = Tool_default w
  /\ Z.abs (today w - date_ (meta metadata)) < 28.
Proof.
  unfold is_fresh, abs_days.
  rewrite andb_true_iff, bool_decide_eq_true, Z.ltb_lt. reflexivity.
Qed.

Lemma skipped_iff_fresh file archive :
  get_archive (lib w) (py7zr_loaded w) (disk w) file = inl archive ->
  Spec.skipped w settings false file <->
  is_fresh w (fst (fst (snd (read_archive (io w) (codec w) archive)))) = true.
Proof.
  intros Hopen. unfold Spec.skipped. split.
  - intros (archive' & Hopen' & Hrun).
    assert (archive' = archive) as -> by congruence.
    rewrite (process_file_opened false file archive Hopen) in Hrun.
    simpl in Hrun.
    destruct (is_fresh w _); [reflexivity | exfalso].
    destruct (process_events_head file archive
                (snd (read_archive (io w) (codec w) archive))) as [tl Htl].
    rewrite Htl in Hrun.
    apply (f_equal fst) in Hrun. simpl in Hrun.
    apply (f_equal (@length Event)) in Hrun.
    rewrite length_app in Hrun. simpl in Hrun. lia.
  - intros Hfresh. exists archive. split; [assumption|].
    rewrite (process_file_opened false file archive Hopen). simpl.
    rewrite Hfresh. simpl. now rewrite app_nil_r.
Qed.

Lemma processed_unless_fresh force file archive :
  get_archive (lib w) (py7zr_loaded w) (disk w) file = inl archive ->
  force = true
  \/ is_fresh w (fst (fst (snd (read_archive (io w) (codec w) archive)))) = false ->
  Spec.processed w settings force file.
Proof.
  intros Hopen Hcase. exists archive. split; [assumption|]. cbv zeta.
  rewrite (process_file_opened force file archive Hopen). cbv zeta.
  destruct Hcase as [-> | Hfresh]; simpl.
  - reflexivity.
  - destruct force; simpl; [reflexivity | now rewrite Hfresh].
Qed.

Lemma processed_not_skipped force file :
  Spec.processed w settings force file -> ~ Spec.skipped w settings force file.
Proof.
  intros (archive & Hopen & Hrun) (archive' & Hopen' & Hskip).
  assert (archive' = archive) as -> by congruence.
  cbv zeta in Hrun. rewrite Hskip in Hrun.
  destruct (process_events_head file archive
              (snd (read_archive (io w) (codec w) archive))) as [tl Htl].
  rewrite Htl in Hrun.
  apply (f_equal fst) in Hrun. simpl in Hrun.
  apply (f_equal (@length Event)) in Hrun.
  rewrite length_app in Hrun. simpl in Hrun. lia.
Qed.

End Orchestrator.

(** C6.  With the force flag unset an opened archive is skipped exactly
    when its stamp carries the default tool signature and a date whose
    distance from today is under 28 days; a stamp of today with the default
    tool is therefore skipped.  With the force flag set the archive is
    processed and not skipped, whatever the stamp. *)
Theorem freshness_gate (w : Main.World) (settings : Main.Settings)
    (file : Py.Path) (archive : Archives.BaseArchive) :
  Archives.get_archive (Main.lib w) (Main.py7zr_loaded w) (Main.disk w) file
  = inl archive ->
  let stamp := Spec.stamp_of w archive in
  (Spec.skipped w settings false file <->
   Models.tool stamp = Main.Tool_default w
   /\ Z.abs (Main.today w - Models.date_ stamp) < 28)
  /\ (Models.tool stamp = Main.Tool_default w ->
      Models.date_ stamp = Main.today w ->
      Spec.skipped w settings false file)
  /\ Spec.processed w settings true file
  /\ ~ Spec.skipped w settings true file.
Proof.
  intros Hopen. cbv zeta. unfold Spec.stamp_of.
  assert (Hiff := skipped_iff_fresh w settings file archive Hopen).
  rewrite is_fresh_spec in Hiff.
  assert (Hforce : Spec.processed w settings true file).
  { apply (processed_unless_fresh w settings true file archive Hopen). now left. }
  repeat apply conj.
  - apply Hiff.
  - apply Hiff.
  - intros Htool Hdate. apply Hiff. split; [assumption|].
    rewrite Hdate, Z.sub_diag. reflexivity.
  - exact Hforce.
  - now apply processed_not_skipped.
Qed.

Lemma freshness_gate_witness :
  let w := Demo.demo_world (Demo.stamped Demo.demo_today) [] [] in
  Spec.skipped w Demo.no_service false Demo.first_path
  /\ Spec.processed w Demo.no_service true Demo.first_path.
Proof.
  cbv zeta.
  pose proof (freshness_gate
                (Demo.demo_world (Demo.stamped Demo.demo_today) [] [])
                Demo.no_service Demo.first_path
                {| Archives.variant := Archives.CBZArchive;
                   Archives.path := Demo.first_path |}
                eq_refl) as H.
  cbv zeta in H. destruct H as (_ & Htoday & Hforce & _).
  split; [apply Htoday; reflexivity | exact Hforce].
Defined.

(** C9.  The gate takes the absolute value of the difference of the two
    dates: with the force flag unset and the default tool signature, an
    archive stamped with a date after today is skipped as well when that
    date is less than 28 days away. *)
Theorem future_stamp_is_skipped (w : Main.World) (settings : Main.Settings)
    (file : Py.Path) (archive : Archives.BaseArchive) :
  Archives.get_archive (Main.lib w) (Main.py7zr_loaded w) (Main.disk w) file
  = inl archive ->
  let stamp := Spec.stamp_of w archive in
  Models.tool stamp = Main.Tool_default w ->
  Main.today w < Models.date_ stamp ->
  Models.date_ stamp - Main.today w < 28 ->
  Py.abs_days (Main.today w) (Models.date_ stamp)
  = Models.date_ stamp - Main.today w
  /\ Spec.skipped w settings false file.
Proof.
  intros Hopen. cbv zeta. unfold Spec.stamp_of. intros Htool Hlater Hnear.
  split.
  - unfold Py.abs_days. lia.
  - apply (skipped_iff_fresh w settings file archive Hopen).
    apply is_fresh_spec. split; [assumption | lia].
Qed.

Lemma future_stamp_is_skipped_witness :
  Spec.skipped
    (Demo.demo_world (Demo.stamped (Demo.demo_today + 27)) [] [])
    Demo.no_service false Demo.first_path.
Proof.
  apply (future_stamp_is_skipped
           (Demo.demo_world (Demo.stamped (Demo.demo_today + 27)) [] [])
           Demo.no_service Demo.first_path
           {| Archives.variant := Archives.CBZArchive;
              Archives.path := Demo.first_path |}).
  - reflexivity.
  - reflexivity.
  - reflexivity.
  - reflexivity.
Defined.

Section ExtractFailure.
Import Py Models Archives Main.

Variables (w : World) (settings : Settings).

(** Past the gate, a failed extraction leaves the loop body by [return]. *)
Lemma process_extract_failure file archive st :
  extract_files (io w) archive = None ->
  outcome (process w settings file archive st) = inl Return_.
Proof.
  intros Hx. unfold process.
  rewrite !bind_emit. simpl. now rewrite Hx.
Qed.

(** The re-archiving failure next to it leaves by [continue]. *)
Lemma for_each_after_return {A : Type} (x : A) rest (body : A -> M Control) :
  outcome (body x) = inl Return_ ->
  for_each (x :: rest) body = (events (body x), inl tt).
Proof.
  intros H. apply for_each_return.
  destruct (body x) as [ev r]. simpl in *. now subst.
Qed.

(** Whatever follows an archive that fails to extract is never visited. *)
Lemma loop_ends_at_extract_failure force file archive rest :
  get_archive (lib w) (py7zr_loaded w) (disk w) file = inl archive ->
  Spec.processed w settings force file ->
  extract_files (io w) archive = None ->
  for_each (file :: rest) (process_file w settings force)
  = (events (process_file w settings force file), inl tt).
Proof.
  intros Hopen (archive' & Hopen' & Hrun) Hx.
  assert (archive' = archive) as -> by congruence.
  apply for_each_after_return. cbv zeta in Hrun. rewrite Hrun. simpl.
  now apply process_extract_failure.
Qed.

End ExtractFailure.

(** C1 (the code departs from it).  A collection of two archives, the
    first of which fails to extract: the run ends with the first archive and
    the second is never opened.  When the first archive fails at
    re-archiving instead, the run goes on to the second. *)
Theorem extract_failure_ends_the_run :
  let failing_extract :=
    Demo.demo_world (Demo.foreign_stamp 0) [Demo.first_path] [] in
  let failing_rearchive :=
    Demo.demo_world (Demo.foreign_stamp 0) [] [Demo.first_path] in
  Main.list_files failing_extract ["comics"] [".cbz"]
  = [Demo.first_path; Demo.second_path]
  /\ Main.start failing_extract Demo.no_service false
     = ([Main.Log Main.INFO "Starting Perdoo";
         Main.ConsoleRule "first";
         Main.Log Main.INFO "Processing first.cbz";
         Main.Log Main.WARNING "No external services configured"],
        inl tt)
  /\ (Main.ConsoleRule "second"
      ∉ Main.events (Main.start failing_extract Demo.no_service false))
  /\ (Main.ConsoleRule "second"
      ∈ Main.events (Main.start failing_rearchive Demo.no_service false)).
Proof.
  cbv zeta. repeat apply conj.
  - reflexivity.
  - vm_compute. reflexivity.
  - vm_compute. intros H. repeat (apply elem_of_cons in H as [H|H]; [discriminate|]).
    now apply elem_of_nil in H.
  - vm_compute. repeat first [apply list_elem_of_here | apply list_elem_of_further].
Qed.

(* ===================================================================== *)
(** ** Page renaming *)
(* ===================================================================== *)

Section Renaming.
Import Py Models Main.

Lemma append_inv_head (a b c : string) : a +:+ b = a +:+ c -> b = c.
Proof.
  induction a as [|x a IH]; intros H; [exact H|].
  apply IH. now injection H.
Qed.

(** The name compared with and the name renamed to differ in their
    separator, so they are never the same string. *)
Lemma hyphen_ne_underscore (filename a b : string) :
  filename +:+ "-" +:+ a <> filename +:+ "_" +:+ b.
Proof. intros H. apply append_inv_head in H. discriminate. Qed.

Lemma rename_file_same folder img :
  img ∈ folder -> rename_file folder img img = ([Rename img img], inl folder).
Proof.
  intros Hin. unfold rename_file, contains.
  rewrite bool_decide_eq_true_2 by assumption.
  rewrite bind_emit. simpl. now destruct (decide (img = img)).
Qed.

Lemma rename_loop_canonical filename pad image_list :
  forall index folder,
    (forall i img, image_list !! i = Some img ->
       img = canonical_name filename pad (index + i) img) ->
    (forall img, img ∈ image_list -> img ∈ folder) ->
    outcome (rename_loop filename pad index image_list folder) = inl folder
    /\ renames (events (rename_loop filename pad index image_list folder))
       = (fun img => (img, img)) <$> image_list.
Proof.
  induction image_list as [|img rest IH]; intros index folder Hcanon Hin.
  - split; reflexivity.
  - assert (H0 : img = canonical_name filename pad index img).
    { rewrite <- (Nat.add_0_r index) at 1. now apply Hcanon. }
    assert (Hrest : forall i x, rest !! i = Some x ->
              x = canonical_name filename pad (S index + i) x).
    { intros i x Hi. replace (S index + i)%nat with (index + S i)%nat by lia.
      now apply Hcanon. }
    assert (Hin' : forall x, x ∈ rest -> x ∈ folder).
    { intros x Hx. apply Hin. now apply list_elem_of_further. }
    destruct (IH (S index) folder Hrest Hin') as [IHo IHr].
    simpl rename_loop.
    destruct (decide _) as [_|Heq].
    + change (filename +:+ "-" +:+ padded pad index +:+ suffix_of_name img)
        with (canonical_name filename pad index img).
      rewrite <- H0.
      rewrite rename_file_same by (apply Hin; apply list_elem_of_here).
      unfold bind. simpl.
      destruct (rename_loop filename pad (S index) rest folder) as [ev r].
      simpl in *. split; [assumption | now rewrite IHr].
    + exfalso. apply Heq. rewrite H0 at 1. apply hyphen_ne_underscore.
Qed.

(** On a folder whose images are already in the canonical form, the rename
    step calls [rename] on every image, each onto its own name, and the
    folder stays as it was. *)
Lemma rename_images_canonical list_images folder filename :
  Spec.canonical_listing filename (list_images folder) ->
  (forall img, img ∈ list_images folder -> img ∈ folder) ->
  outcome (rename_images list_images folder filename) = inl folder
  /\ renames (events (rename_images list_images folder filename))
     = (fun img => (img, img)) <$> list_images folder.
Proof.
  intros Hcanon Hin. unfold rename_images.
  apply rename_loop_canonical; [|assumption].
  intros i img Hi. now apply Hcanon.
Qed.

End Renaming.

(** C3 (the code departs from it).  A folder whose two images carry the
    canonical names: the rename step compares each name with the
    underscore form, finds it different, logs a rename and calls [rename]
    on both images.  A folder in the underscore form is left alone and so
    never reaches the canonical names. *)
Theorem canonical_folder_is_renamed_again :
  let canonical := ["Amazing_#001-0.jpg"; "Amazing_#001-1.jpg"] in
  let underscored := ["Amazing_#001_0.jpg"; "Amazing_#001_1.jpg"] in
  Demo.sorted_images canonical
  = [Main.canonical_name "Amazing_#001" 1 0 "Amazing_#001-0.jpg";
     Main.canonical_name "Amazing_#001" 1 1 "Amazing_#001-1.jpg"]
  /\ Main.rename_images Demo.sorted_images canonical "Amazing_#001"
     = ([Main.Log Main.INFO "Renamed Amazing_#001-0.jpg to Amazing_#001_0.jpg";
         Main.Rename "Amazing_#001-0.jpg" "Amazing_#001-0.jpg";
         Main.Log Main.INFO "Renamed Amazing_#001-1.jpg to Amazing_#001_1.jpg";
         Main.Rename "Amazing_#001-1.jpg" "Amazing_#001-1.jpg"],
        inl canonical)
  /\ Main.rename_images Demo.sorted_images underscored "Amazing_#001"
     = ([], inl underscored).
Proof. cbv zeta. repeat apply conj; vm_compute; reflexivity. Qed.

(* ===================================================================== *)
(** ** Further properties: reading an archive *)
(* ===================================================================== *)

Section ReadArchive.
Import Py Models Archives Main.

Variables (io : ArchiveIO) (codec : Codec) (archive : BaseArchive).

Lemma load_entry_log {A : Type} (from_bytes : bytes -> option A)
    (entry label : string) :
  fst (load_entry from_bytes io archive (list_filenames io archive) entry label)
  = Props.invalid_entry_log from_bytes io archive entry label.
Proof.
  unfold load_entry, Props.invalid_entry_log, Spec.stored_entry, contains.
  repeat case_bool_decide; simpl;
    try destruct (from_bytes _); reflexivity.
Qed.

Lemma read_archive_events :
  fst (read_archive io codec archive)
  = fst (load_entry (Metadata_from_bytes codec) io archive
           (list_filenames io archive) "Metadata.xml" "Metadata")
    ++ fst (load_entry (MetronInfo_from_bytes codec) io archive
              (list_filenames io archive) "MetronInfo.xml" "MetronInfo")
    ++ fst (load_entry (ComicInfo_from_bytes codec) io archive
              (list_filenames io archive) "ComicInfo.xml" "ComicInfo").
Proof.
  unfold read_archive.
  destruct (load_entry (Metadata_from_bytes codec) _ _ _ _ _) as [log1 m].
  destruct (load_entry (MetronInfo_from_bytes codec) _ _ _ _ _) as [log2 mi].
  destruct (load_entry (ComicInfo_from_bytes codec) _ _ _ _ _) as [log3 ci].
  reflexivity.
Qed.

Lemma stored_entry_absent (entry : string) :
  ("/" +:+ entry) ∉ list_filenames io archive ->
  entry ∉ list_filenames io archive ->
  Spec.stored_entry io archive entry = None.
Proof.
  intros H1 H2. unfold Spec.stored_entry.
  now rewrite !bool_decide_eq_false_2.
Qed.

Lemma read_archive_reconcile :
  snd (read_archive io codec archive)
  = Spec.reconcile codec archive
      (Spec.parsed (Metadata_from_bytes codec) io archive "Metadata.xml")
      (Spec.parsed (MetronInfo_from_bytes codec) io archive "MetronInfo.xml")
      (Spec.parsed (ComicInfo_from_bytes codec) io archive "ComicInfo.xml").
Proof.
  unfold read_archive.
  rewrite <- (load_entry_parsed io archive (Metadata_from_bytes codec)
                "Metadata.xml" "Metadata").
  rewrite <- (load_entry_parsed io archive (MetronInfo_from_bytes codec)
                "MetronInfo.xml" "MetronInfo").
  rewrite <- (load_entry_parsed io archive (ComicInfo_from_bytes codec)
                "ComicInfo.xml" "ComicInfo").
  destruct (load_entry (Metadata_from_bytes codec) _ _ _ _ _) as [log1 [m|]];
    destruct (load_entry (MetronInfo_from_bytes codec) _ _ _ _ _) as [log2 [mi|]];
    destruct (load_entry (ComicInfo_from_bytes codec) _ _ _ _ _) as [log3 [ci|]];
    reflexivity.
Qed.

Lemma read_archive_log :
  fst (read_archive io codec archive)
  = Props.invalid_entry_log (Metadata_from_bytes codec) io archive
      "Metadata.xml" "Metadata"
    ++ Props.invalid_entry_log (MetronInfo_from_bytes codec) io archive
         "MetronInfo.xml" "MetronInfo"
    ++ Props.invalid_entry_log (ComicInfo_from_bytes codec) io archive
         "ComicInfo.xml" "ComicInfo".
Proof. rewrite read_archive_events, !load_entry_log. reflexivity. Qed.

End ReadArchive.

Lemma append_inv_tail (a b c : string) : a +:+ c = b +:+ c -> a = b.
Proof.
  revert b. induction a as [|x a IH]; intros [|y b] H.
  - reflexivity.
  - apply (f_equal String.length) in H.
    change (String.length c = S (String.length (b +:+ c))) in H.
    rewrite length_append in H. lia.
  - apply (f_equal String.length) in H.
    change (S (String.length (a +:+ c)) = String.length c) in H.
    rewrite length_append in H. lia.
  - change (String x (a +:+ c) = String y (b +:+ c)) in H.
    injection H as -> H. f_equal. now apply IH.
Qed.

Lemma invalid_line_inj (nm label label' : string) :
  nm +:+ " contains an invalid " +:+ label +:+ " file"
  = nm +:+ " contains an invalid " +:+ label' +:+ " file" ->
  label = label'.
Proof.
  intros H. apply append_inv_head, append_inv_head in H.
  now apply append_inv_tail in H.
Qed.

Lemma invalid_entry_log_line {A : Type} (from_bytes : Py.bytes -> option A)
    (io : Main.ArchiveIO) (archive : Archives.BaseArchive)
    (entry label label' : string) :
  Main.Log Main.ERROR
    (Py.name (Archives.path archive) +:+ " contains an invalid "
     +:+ label' +:+ " file")
  ∈ Props.invalid_entry_log from_bytes io archive entry label
  <-> label' = label
      /\ exists content,
           Spec.stored_entry io archive entry = Some content
           /\ from_bytes content = None.
Proof.
  unfold Props.invalid_entry_log.
  destruct (Spec.stored_entry io archive entry) as [content|].
  - destruct (from_bytes content) eqn:E; split.
    + intros H. now apply elem_of_nil in H.
    + intros (_ & c & Hc & Hnone). congruence.
    + intros H. apply list_elem_of_singleton in H. injection H as H.
      apply invalid_line_inj in H. eauto.
    + intros (-> & _). apply list_elem_of_here.
  - split.
    + intros H. now apply elem_of_nil in H.
    + intros (_ & c & Hc & _). discriminate.
Qed.

Ltac in_list :=
  repeat first [apply list_elem_of_here | apply list_elem_of_further].

(** X1.  An archive that lists none of the six metadata entry names is
    read without any parse and without any log line: the canonical metadata
    is the default made from the archive and the two other schemas are
    derived from it. *)
Theorem read_archive_without_entries (io : Main.ArchiveIO) (codec : Main.Codec)
    (archive : Archives.BaseArchive) :
  (forall nm, nm ∈ Props.metadata_entries ->
     nm ∉ Main.list_filenames io archive) ->
  Main.read_archive io codec archive
  = ([],
     (Main.create_metadata codec archive,
      Main.metadata_to_metron codec (Main.create_metadata codec archive),
      Main.metadata_to_comic codec (Main.create_metadata codec archive))).
Proof.
  intros Habsent.
  assert (Hm : Spec.stored_entry io archive "Metadata.xml" = None)
    by (apply stored_entry_absent; apply Habsent; in_list).
  assert (Hmi : Spec.stored_entry io archive "MetronInfo.xml" = None)
    by (apply stored_entry_absent; apply Habsent; in_list).
  assert (Hci : Spec.stored_entry io archive "ComicInfo.xml" = None)
    by (apply stored_entry_absent; apply Habsent; in_list).
  pose proof (read_archive_reconcile io codec archive) as Hval.
  pose proof (read_archive_log io codec archive) as Hlog.
  unfold Props.invalid_entry_log, Spec.parsed in *.
  rewrite Hm, Hmi, Hci in Hlog, Hval.
  destruct (Main.read_archive io codec archive) as [log st].
  simpl in *. now subst.
Qed.

Lemma read_archive_without_entries_witness :
  Main.read_archive (Demo.demo_io [] []) (Demo.demo_codec (Demo.stamped 0))
    {| Archives.variant := Archives.CBZArchive; Archives.path := Demo.first_path |}
  = ([],
     ({| Models.issue := Demo.blank_issue; Models.meta := Demo.stamped 0;
         Models.pages := [] |},
      Demo.blank_metron_info, Demo.blank_comic_info)).
Proof.
  apply (read_archive_without_entries (Demo.demo_io [] [])
           (Demo.demo_codec (Demo.stamped 0))).
  intros nm Hnm Hin. vm_compute in Hin.
  apply elem_of_cons in Hin as [-> | Hin];
    [|apply elem_of_cons in Hin as [-> | Hin]; [|now apply elem_of_nil in Hin]];
    vm_compute in Hnm;
    repeat (apply elem_of_cons in Hnm as [Hnm | Hnm]; [discriminate|]);
    now apply elem_of_nil in Hnm.
Defined.

(** X2.  [read_archive] logs one error line for each of the three entries
    that is stored in the archive and fails validation, in the order
    Metadata, MetronInfo, ComicInfo, and nothing else: the log is empty
    exactly when every stored metadata entry validates. *)
Theorem read_archive_logs_invalid_entries (io : Main.ArchiveIO)
    (codec : Main.Codec) (archive : Archives.BaseArchive) :
  let log := fst (Main.read_archive io codec archive) in
  let line label :=
    Main.Log Main.ERROR
      (Py.name (Archives.path archive) +:+ " contains an invalid "
       +:+ label +:+ " file") in
  let invalid {A : Type} (from_bytes : Py.bytes -> option A) entry :=
    exists content,
      Spec.stored_entry io archive entry = Some content
      /\ from_bytes content = None in
  log = Props.invalid_entry_log (Main.Metadata_from_bytes codec) io archive
          "Metadata.xml" "Metadata"
        ++ Props.invalid_entry_log (Main.MetronInfo_from_bytes codec) io archive
             "MetronInfo.xml" "MetronInfo"
        ++ Props.invalid_entry_log (Main.ComicInfo_from_bytes codec) io archive
             "ComicInfo.xml" "ComicInfo"
  /\ (line "Metadata" ∈ log <->
      invalid (Main.Metadata_from_bytes codec) "Metadata.xml")
  /\ (line "MetronInfo" ∈ log <->
      invalid (Main.MetronInfo_from_bytes codec) "MetronInfo.xml")
  /\ (line "ComicInfo" ∈ log <->
      invalid (Main.ComicInfo_from_bytes codec) "ComicInfo.xml").
Proof.
  cbv zeta. rewrite read_archive_log. split; [reflexivity|].
  repeat apply conj; rewrite !elem_of_app, !invalid_entry_log_line;
    intuition discriminate.
Qed.

(** X3.  An entry stored under the name with the leading separator hides
    the one without it: when [/Metadata.xml] is listed and fails validation,
    the error is logged and the canonical metadata is derived by the
    precedence for a missing Metadata file, whether or not a [Metadata.xml]
    is stored next to it. *)
Theorem rooted_entry_hides_plain_entry (io : Main.ArchiveIO)
    (codec : Main.Codec) (archive : Archives.BaseArchive) :
  "/Metadata.xml" ∈ Main.list_filenames io archive ->
  Main.Metadata_from_bytes codec (Main.read_file io archive "/Metadata.xml")
  = None ->
  Main.Log Main.ERROR
    (Py.name (Archives.path archive) +:+ " contains an invalid Metadata file")
  ∈ fst (Main.read_archive io codec archive)
  /\ snd (Main.read_archive io codec archive)
     = Spec.reconcile codec archive None
         (Spec.parsed (Main.MetronInfo_from_bytes codec) io archive
            "MetronInfo.xml")
         (Spec.parsed (Main.ComicInfo_from_bytes codec) io archive
            "ComicInfo.xml").
Proof.
  intros Hin Hbad.
  assert (Hstored : Spec.stored_entry io archive "Metadata.xml"
                    = Some (Main.read_file io archive "/Metadata.xml")).
  { unfold Spec.stored_entry. now rewrite bool_decide_eq_true_2. }
  split.
  - rewrite read_archive_log. unfold Props.invalid_entry_log at 1.
    rewrite Hstored, Hbad. apply list_elem_of_here.
  - rewrite read_archive_reconcile. unfold Spec.parsed at 1.
    rewrite Hstored. simpl. now rewrite Hbad.
Qed.

Lemma rooted_entry_hides_plain_entry_witness :
  Main.Metadata_from_bytes Cases.picky_codec
    (Main.read_file Cases.shadow_io (Cases.cbz Demo.first_path) "Metadata.xml")
  = Some (Demo.metadata_dated 7)
  /\ fst (fst (snd (Main.read_archive Cases.shadow_io Cases.picky_codec
                      (Cases.cbz Demo.first_path))))
     = Demo.metadata_dated 3.
Proof.
  split; [reflexivity|].
  pose proof (rooted_entry_hides_plain_entry Cases.shadow_io Cases.picky_codec
                (Cases.cbz Demo.first_path)) as H.
  destruct H as [_ H].
  - apply list_elem_of_here.
  - reflexivity.
  - rewrite H. reflexivity.
Defined.

(* ===================================================================== *)
(** ** Further properties: dispatch and conversion *)
(* ===================================================================== *)

Section Loops.
Import Py Models Archives Main.

Lemma bind_inl {A B : Type} (ev : list Event) (x : A) (k : A -> M B) :
  bind (ev, inl x) k = (ev ++ events (k x), outcome (k x)).
Proof. unfold bind, events, outcome. now destruct (k x). Qed.

Lemma bind_inr {A B : Type} (ev : list Event) (e : Exception) (k : A -> M B) :
  bind (ev, inr e) k = (ev, inr e).
Proof. reflexivity. Qed.

Lemma bind_split {A B : Type} (m : M A) (k : A -> M B) :
  bind m k
  = match outcome m with
    | inl x => (events m ++ events (k x), outcome (k x))
    | inr e => (events m, inr e)
    end.
Proof. destruct m as [ev [x|e]]; [apply bind_inl | reflexivity]. Qed.

Lemma for_each_raise {A : Type} (x : A) rest (body : A -> M Control) e :
  outcome (body x) = inr e ->
  for_each (x :: rest) body = (events (body x), inr e).
Proof.
  intros H. simpl. rewrite bind_split, H. reflexivity.
Qed.

Lemma for_each_cons_next {A : Type} (x : A) rest (body : A -> M Control) :
  outcome (body x) = inl Next ->
  for_each (x :: rest) body
  = (events (body x) ++ events (for_each rest body),
     outcome (for_each rest body)).
Proof. intros H. simpl. rewrite bind_split, H. reflexivity. Qed.

(** A stretch of passes that all end at the end of the body or at a
    [continue] is run in full, and the loop goes on behind it. *)
Lemma for_each_app_next {A : Type} (before after : list A)
    (body : A -> M Control) :
  Forall (fun x => outcome (body x) = inl Next) before ->
  for_each (before ++ after) body
  = (concat (events ∘ body <$> before) ++ events (for_each after body),
     outcome (for_each after body)).
Proof.
  induction 1 as [|x before Hx _ IH]; simpl app.
  - simpl. unfold events, outcome. now destruct (for_each after body).
  - rewrite (for_each_cons_next x _ body Hx), IH. simpl.
    now rewrite app_assoc.
Qed.

Lemma for_each_all_next {A : Type} (items : list A) (body : A -> M Control) :
  Forall (fun x => outcome (body x) = inl Next) items ->
  for_each items body = (concat (events ∘ body <$> items), inl tt).
Proof.
  intros H. rewrite <- (app_nil_r items) at 1.
  rewrite (for_each_app_next items [] body H). simpl.
  now rewrite app_nil_r.
Qed.

Lemma get_archive_path lib loaded disk p a :
  get_archive lib loaded disk p = inl a -> path a = p.
Proof.
  unfold get_archive.
  repeat destruct (_ : bool); simpl; intros H; inversion H; reflexivity.
Qed.

Lemma list_remove_None x l : list_remove x l = None <-> x ∉ l.
Proof.
  induction l as [|y l IH]; simpl.
  - split; [intros _; apply not_elem_of_nil | reflexivity].
  - destruct (decide (y = x)) as [->|Hne].
    + split; [discriminate | intros H; exfalso; apply H; apply list_elem_of_here].
    + rewrite not_elem_of_cons. destruct (list_remove x l); simpl.
      * split; [discriminate | intros [_ H]; now apply IH in H].
      * split; [intros _; split; [congruence | now apply IH] | reflexivity].
Qed.

Lemma filter_all {A : Type} (P : A -> Prop) `{forall x, Decision (P x)} l :
  Forall P l -> filter P l = l.
Proof.
  induction 1 as [|x l Hx _ IH]; [reflexivity|].
  rewrite filter_cons_True by assumption. now rewrite IH.
Qed.

Lemma list_remove_NoDup x l :
  x ∈ l -> NoDup l -> list_remove x l = Some (filter (fun y => y ≠ x) l).
Proof.
  induction l as [|y l IH]; intros Hin Hnd.
  - now apply elem_of_nil in Hin.
  - apply NoDup_cons in Hnd as [Hy Hnd]. simpl.
    destruct (decide (y = x)) as [->|Hne].
    + rewrite filter_cons_False by tauto. f_equal.
      symmetry. apply filter_all. rewrite Forall_forall.
      intros z Hz ->. contradiction.
    + rewrite filter_cons_True by assumption.
      apply elem_of_cons in Hin as [->|Hin]; [contradiction|].
      now rewrite (IH Hin Hnd).
Qed.

Variable w : World.

(** One pass of the conversion loop over a file that opens. *)
Lemma convert_pass output_ file :
  Props.opens w file ->
  Props.convert_step w output_ file
  = (Props.conversion_of output_ file, inl Next).
Proof.
  intros [a Hopen]. unfold Props.convert_step, open_archive.
  rewrite Hopen, bind_emit.
  rewrite bind_lift_inl, bind_emit. simpl.
  now rewrite (get_archive_path _ _ _ _ _ Hopen).
Qed.

Lemma convert_pass_raises output_ file e :
  get_archive (lib w) (py7zr_loaded w) (disk w) file = inr e ->
  Props.convert_step w output_ file
  = ([Props.converting_line output_ file], inr e).
Proof.
  intros Hopen. unfold Props.convert_step, open_archive.
  rewrite Hopen, bind_emit. reflexivity.
Qed.

Lemma convert_collection_loop path_ output_ formats :
  list_remove (fst (convert_target output_)) (ARCHIVE_EXTENSIONS w)
  = Some formats ->
  convert_collection w path_ output_
  = for_each (list_files w path_ formats) (Props.convert_step w output_).
Proof.
  intros H. unfold convert_collection.
  destruct (convert_target output_) as [format_ archive_type] eqn:E.
  simpl in *. rewrite H. unfold Props.convert_step. now rewrite E.
Qed.

Lemma convert_steps output_ files :
  Forall (Props.opens w) files ->
  for_each files (Props.convert_step w output_)
  = (concat (Props.conversion_of output_ <$> files), inl tt).
Proof.
  intros Hall. rewrite for_each_all_next.
  - f_equal. f_equal. apply Forall_fmap_ext_1.
    eapply Forall_impl; [exact Hall|]. intros f Hf. unfold compose.
    now rewrite convert_pass.
  - eapply Forall_impl; [exact Hall|]. intros f Hf. now rewrite convert_pass.
Qed.

Lemma convert_steps_raise output_ ok bad rest e :
  Forall (Props.opens w) ok ->
  get_archive (lib w) (py7zr_loaded w) (disk w) bad = inr e ->
  for_each (ok ++ bad :: rest) (Props.convert_step w output_)
  = (concat (Props.conversion_of output_ <$> ok)
     ++ [Props.converting_line output_ bad], inr e).
Proof.
  intros Hall Hbad. rewrite for_each_app_next.
  - rewrite (for_each_raise bad rest _ e);
      rewrite (convert_pass_raises output_ bad e Hbad); [|reflexivity].
    unfold events at 2. cbn [fst]. f_equal. f_equal. f_equal.
    apply Forall_fmap_ext_1.
    eapply Forall_impl; [exact Hall|]. intros f Hf. unfold compose.
    now rewrite convert_pass.
  - eapply Forall_impl; [exact Hall|]. intros f Hf. now rewrite convert_pass.
Qed.

End Loops.

(** X5.  [convert_collection] looks for files of every known extension but
    the target's and converts them one by one, in the order listed, to the
    variant of the configured output format, which is never the rar
    variant.  A target extension that is not among the known ones raises
    [ValueError] before any file is touched.  The first file that cannot be
    opened ends the conversion with its exception: the files before it are
    converted, the files after it are not looked at. *)
Theorem convert_collection_in_order (w : Main.World) (path_ : Py.Path)
    (output_ : Main.OutputFormat) :
  let format_ := fst (Main.convert_target output_) in
  let run := Main.convert_collection w path_ output_ in
  (format_ ∉ Main.ARCHIVE_EXTENSIONS w ->
   run = ([], inr (Py.ValueError "list.remove(x): x not in list")))
  /\ (format_ ∈ Main.ARCHIVE_EXTENSIONS w ->
      NoDup (Main.ARCHIVE_EXTENSIONS w) ->
      let files :=
        Main.list_files w path_
          (filter (fun x => x ≠ format_) (Main.ARCHIVE_EXTENSIONS w)) in
      (Forall (Props.opens w) files ->
       run = (concat (Props.conversion_of output_ <$> files), inl tt))
      /\ (forall ok bad rest e,
            files = ok ++ bad :: rest ->
            Forall (Props.opens w) ok ->
            Archives.get_archive (Main.lib w) (Main.py7zr_loaded w)
              (Main.disk w) bad = inr e ->
            run = (concat (Props.conversion_of output_ <$> ok)
                   ++ [Props.converting_line output_ bad], inr e)))
  /\ snd (Main.convert_target output_) <> Archives.CBRArchive.
Proof.
  cbv zeta. repeat apply conj.
  - intros Hnot. apply list_remove_None in Hnot.
    unfold Main.convert_collection.
    destruct (Main.convert_target output_) as [format_ archive_type].
    simpl in Hnot. now rewrite Hnot.
  - intros Hin Hnd.
    split; [intros Hall | intros ok bad rest e Hfiles Hall Hbad];
      rewrite (convert_collection_loop w path_ output_ _
                 (list_remove_NoDup _ _ Hin Hnd)).
    + now apply convert_steps.
    + rewrite Hfiles. now apply convert_steps_raise.
  - destruct output_; discriminate.
Qed.

Lemma convert_collection_in_order_witness :
  Main.convert_collection Cases.mixed_world ["comics"] Main.CBZ
  = (Props.conversion_of Main.CBZ Cases.old_first
     ++ Props.conversion_of Main.CBZ Cases.old_second, inl tt)
  /\ Main.convert_collection Cases.broken_world ["comics"] Main.CBZ
     = (Props.conversion_of Main.CBZ Cases.old_first
        ++ [Props.converting_line Main.CBZ Demo.text_path],
        inr (Archives.unsupported Demo.text_path)).
Proof.
  split.
  - refine (proj1 (proj1 (proj2 (convert_collection_in_order
                                  Cases.mixed_world ["comics"] Main.CBZ)) _ _) _).
    + vm_compute. in_list.
    + vm_compute. repeat (apply NoDup_cons; split;
        [intros H; repeat (apply elem_of_cons in H as [H|H]; [discriminate|]);
         now apply elem_of_nil in H |]). apply NoDup_nil_2.
    + repeat (apply Forall_cons; split; [eexists; reflexivity|]). apply Forall_nil_2.
  - refine (proj2 (proj1 (proj2 (convert_collection_in_order
                                  Cases.broken_world ["comics"] Main.CBZ)) _ _)
              [Cases.old_first] Demo.text_path [Cases.old_second] _ _ _ _).
    + vm_compute. in_list.
    + vm_compute. repeat (apply NoDup_cons; split;
        [intros H; repeat (apply elem_of_cons in H as [H|H]; [discriminate|]);
         now apply elem_of_nil in H |]). apply NoDup_nil_2.
    + reflexivity.
    + repeat (apply Forall_cons; split; [eexists; reflexivity|]). apply Forall_nil_2.
    + reflexivity.
Defined.

Section StartLoop.
Import Py Models Archives Main.

Variables (w : World) (settings : Settings) (force : bool).

Lemma process_file_raises file e :
  get_archive (lib w) (py7zr_loaded w) (disk w) file = inr e ->
  process_file w settings force file = ([], inr e).
Proof. intros H. unfold process_file, open_archive. now rewrite H. Qed.

Lemma start_split :
  start w settings force
  = match outcome (convert_collection w (collection_folder settings)
                     (format (output settings))) with
    | inl _ =>
        let loop :=
          for_each
            (list_files w (collection_folder settings)
               ["." +:+ OutputFormat_value (format (output settings))])
            (process_file w settings force) in
        (Log INFO "Starting Perdoo"
         :: events (convert_collection w (collection_folder settings)
                      (format (output settings)))
         ++ events loop, outcome loop)
    | inr e =>
        (Log INFO "Starting Perdoo"
         :: events (convert_collection w (collection_folder settings)
                      (format (output settings))), inr e)
    end.
Proof.
  unfold start. rewrite bind_emit, bind_split.
  destruct (convert_collection w _ _) as [cev [[]|e]]; reflexivity.
Qed.

End StartLoop.

(** X6.  An archive that [get_archive] rejects ends the whole run with the
    exception: a failed conversion keeps [start] from processing anything,
    and in the processing loop the archives before the rejected one are
    handled, the rejected one and all behind it are not. *)
Theorem start_ends_at_unsupported_archive (w : Main.World)
    (settings : Main.Settings) (force : bool) :
  let root := Main.collection_folder settings in
  let target := Main.format (Main.output settings) in
  let conversion := Main.convert_collection w root target in
  (forall e, Main.outcome conversion = inr e ->
     Main.start w settings force
     = (Main.Log Main.INFO "Starting Perdoo" :: Main.events conversion, inr e))
  /\ (forall before bad after e,
        Main.outcome conversion = inl tt ->
        Main.list_files w root ["." +:+ Main.OutputFormat_value target]
        = before ++ bad :: after ->
        Forall (fun f => Main.outcome (Main.process_file w settings force f)
                         = inl Main.Next) before ->
        Archives.get_archive (Main.lib w) (Main.py7zr_loaded w) (Main.disk w) bad
        = inr e ->
        Main.start w settings force
        = (Main.Log Main.INFO "Starting Perdoo"
           :: Main.events conversion
           ++ concat (Main.events ∘ Main.process_file w settings force <$> before),
           inr e)).
Proof.
  cbv zeta. split.
  - intros e He. rewrite start_split, He. reflexivity.
  - intros before bad after e Hconv Hfiles Hbefore Hbad.
    rewrite start_split, Hconv. cbv zeta. rewrite Hfiles.
    rewrite (for_each_app_next before (bad :: after) _ Hbefore).
    rewrite (for_each_raise bad after _ e);
      rewrite (process_file_raises w settings force bad e Hbad); [|reflexivity].
    unfold Main.events at 3, Main.outcome at 1. cbn [fst snd].
    now rewrite app_nil_r.
Qed.

Lemma start_ends_at_unsupported_archive_witness :
  Main.outcome (Main.start Cases.mixed_world Demo.no_service false)
  = inr (Archives.unsupported Demo.text_path)
  /\ Main.start Cases.broken_world Demo.no_service false
     = (Main.Log Main.INFO "Starting Perdoo"
        :: Props.conversion_of Main.CBZ Cases.old_first
        ++ [Props.converting_line Main.CBZ Demo.text_path],
        inr (Archives.unsupported Demo.text_path)).
Proof.
  split.
  - rewrite (proj2 (start_ends_at_unsupported_archive
                      Cases.mixed_world Demo.no_service false)
               [Demo.first_path] Demo.text_path [Demo.second_path]
               (Archives.unsupported Demo.text_path)).
    + reflexivity.
    + vm_compute. reflexivity.
    + reflexivity.
    + apply Forall_cons; split; [vm_compute; reflexivity | apply Forall_nil_2].
    + reflexivity.
  - apply (proj1 (start_ends_at_unsupported_archive
                    Cases.broken_world Demo.no_service false)).
    vm_compute. reflexivity.
Defined.

(* ===================================================================== *)
(** ** Further properties: processing one archive *)
(* ===================================================================== *)

Section Processing.
Import Py Models Archives Main.

Lemma fetch_from_services_logs sv settings st :
  Forall (fun e => Props.is_log e = true)
    (fst (fetch_from_services sv settings st)).
Proof.
  unfold fetch_from_services.
  destruct (negb _ && _ && _ && _); [repeat constructor|].
  destruct (any_fetch _ st) as [[|] st']; repeat constructor.
Qed.

Lemma rename_file_events folder src dst :
  Forall (fun e => Props.is_rename e = true) (events (rename_file folder src dst)).
Proof.
  unfold rename_file. destruct (contains folder src).
  - rewrite bind_emit. repeat constructor.
  - constructor.
Qed.

Lemma rename_loop_events filename pad image_list :
  forall index folder,
    Forall (fun e => Props.is_log e = true \/ Props.is_rename e = true)
      (events (rename_loop filename pad index image_list folder)).
Proof.
  induction image_list as [|img rest IH]; intros index folder; simpl.
  - constructor.
  - rewrite bind_split. destruct (decide _).
    + pose proof (rename_file_events folder img
                    (filename +:+ "-" +:+ padded pad index
                     +:+ suffix_of_name img)) as Hr.
      destruct (rename_file folder img _) as [rev [f|e]]; simpl in *.
      * constructor; [now left|]. apply Forall_app. split.
        -- eapply Forall_impl; [exact Hr|]. now right.
        -- apply IH.
      * constructor; [now left|].
        eapply Forall_impl; [exact Hr|]. now right.
    + simpl. apply IH.
Qed.

Lemma process_pages_events list_images_ classes folder st filename :
  Forall (fun e => Props.is_log e = true \/ Props.is_rename e = true)
    (events (process_pages list_images_ classes folder st filename)).
Proof.
  unfold process_pages. destruct st as [[metadata metron_info] comic_info].
  rewrite bind_split.
  pose proof (rename_loop_events filename
                (String.length (str_of_nat (length (list_images_ folder))))
                (list_images_ folder) 0 folder) as H.
  fold (rename_images list_images_ folder filename) in H.
  destruct (rename_images list_images_ folder filename) as [ev [f|e]];
    simpl in *; [now rewrite app_nil_r | assumption].
Qed.

Lemma write_if_run flag entry doc folder :
  write_if flag entry doc folder
  = (if flag then [ToFile entry doc] else [],
     inl (if flag then entry :: folder else folder)).
Proof. destruct flag; reflexivity. Qed.

Variables (w : World) (settings : Settings).

(** The processing steps, stage by stage. *)
Lemma process_run file archive st :
  let fetched := fetch_from_services (services w) settings st in
  let new_file :=
    generate_filename (sanitize w) (collection_folder settings)
      (OutputFormat_value (format (output settings))) (fst (fst (snd fetched))) in
  let start_ := Props.heading file ++ fst fetched in
  process w settings file archive st
  = match extract_files (io w) archive with
    | None => (start_, inl Return_)
    | Some temp_folder =>
        let paged :=
          process_pages (list_images w) (page_classes w) temp_folder
            (snd fetched) (stem new_file) in
        match outcome paged with
        | inr e => (start_ ++ events paged, inr e)
        | inl (folder, (metadata, metron_info, comic_info)) =>
            let docs :=
              Props.written settings
                (set_meta metadata (Meta_of_date w (today w)),
                 metron_info, comic_info) in
            match archive_files (io w) archive (Props.staged settings folder) with
            | None =>
                (start_ ++ events paged ++ docs
                 ++ [Log CRITICAL "Unable to re-archive images"], inl Next)
            | Some archive_file =>
                (start_ ++ events paged ++ docs
                 ++ [Unlink (path archive); Move archive_file (path archive)]
                 ++ events (organize settings file new_file),
                 outcome (organize settings file new_file))
            end
        end
    end.
Proof.
  cbv zeta. unfold process, Props.heading.
  rewrite !bind_emit. cbn [events outcome fst snd].
  rewrite bind_lift_events. cbn [events outcome fst snd].
  destruct (extract_files (io w) archive) as [temp_folder|].
  - rewrite bind_split.
    destruct (process_pages _ _ _ _ _) as [pev [[folder [[md mi] ci]]|e]];
      cbn [events outcome fst snd].
    + unfold Props.written, Props.staged, write_if. cbn [fst snd].
      destruct (output_create_metadata (output settings)),
        (output_create_metron_info (output settings)),
        (output_create_comic_info (output settings));
        cbn [bind emit ret events outcome fst snd app];
        destruct (archive_files (io w) archive _);
        cbn [bind emit ret events outcome fst snd app];
        try destruct (organize settings file _) as [oev r];
        cbn [bind emit ret events outcome fst snd app];
        rewrite ?app_nil_r; reflexivity.
    + reflexivity.
  - cbn [bind ret events outcome fst snd app]. now rewrite app_nil_r.
Qed.

End Processing.

Section ProcessingFacts.
Import Py Models Archives Main.























Lemma organize_events settings file new_file :
  Forall (fun e => match e with
                   | Log _ _ | Mkdir _ | Move _ _ => True
                   | _ => False
                   end)
    (events (organize settings file new_file)).
Proof.
  unfold organize.
  destruct (relative_to file (collection_folder settings)),
    (relative_to new_file (collection_folder settings)); try constructor.
  destruct (decide _); [repeat constructor | constructor].
Qed.

End ProcessingFacts.



Section ProcessingSafety.
Import Py Models Archives Main.

Variables (w : World) (settings : Settings).

Lemma written_events st :
  Forall (fun e => Props.touches_collection e = false) (Props.written settings st).
Proof.
  unfold Props.written.
  destruct (output_create_metadata _), (output_create_metron_info _),
    (output_create_comic_info _); repeat constructor.
Qed.

Lemma not_to_file_organize file new_file entry doc :
  ToFile entry doc ∉ events (organize settings file new_file).
Proof.
  intros H. pose proof (organize_events settings file new_file) as Hl.
  rewrite Forall_forall in Hl. now apply Hl in H.
Qed.

End ProcessingSafety.

(** X8.  While an archive is processed, nothing in the collection is
    touched before the new container exists: an unlink, move, mkdir or
    conversion among the events of the processing steps means that in this
    run the archive was extracted, its pages were processed and
    [archive_files] returned a path for the scratch folder staged from
    them.  When it returns nothing for that folder, the steps end with the
    critical log line and the loop goes on. *)
Theorem collection_untouched_until_rearchived (w : Main.World)
    (settings : Main.Settings) (file : Py.Path)
    (archive : Archives.BaseArchive) (st : Models.MetaInfo) :
  let run := Main.process w settings file archive st in
  let fetched := snd (Main.fetch_from_services (Main.services w) settings st) in
  let filename :=
    Py.stem
      (Main.generate_filename (Main.sanitize w) (Main.collection_folder settings)
         (Main.OutputFormat_value (Main.format (Main.output settings)))
         (fst (fst fetched))) in
  let paged temp_folder :=
    Main.outcome
      (Main.process_pages (Main.list_images w) (Main.page_classes w)
         temp_folder fetched filename) in
  (forall e, e ∈ Main.events run -> Props.touches_collection e = true ->
     exists temp_folder folder st2 archive_file,
       Main.extract_files (Main.io w) archive = Some temp_folder
       /\ paged temp_folder = inl (folder, st2)
       /\ Main.archive_files (Main.io w) archive (Props.staged settings folder)
          = Some archive_file)
  /\ (forall temp_folder folder st2,
        Main.extract_files (Main.io w) archive = Some temp_folder ->
        paged temp_folder = inl (folder, st2) ->
        Main.archive_files (Main.io w) archive (Props.staged settings folder)
        = None ->
        Main.outcome run = inl Main.Next
        /\ last (Main.events run)
           = Some (Main.Log Main.CRITICAL "Unable to re-archive images")).
Proof.
  cbv zeta. split.
  - intros e He Htouch. rewrite process_run in He. cbv zeta in He.
    assert (H1 : forall x, x ∈ Props.heading file ->
              Props.touches_collection x = false).
    { intros x Hx. unfold Props.heading in Hx.
      repeat (apply elem_of_cons in Hx as [->|Hx]; [reflexivity|]).
      now apply elem_of_nil in Hx. }
    assert (H2 : forall x,
              x ∈ fst (Main.fetch_from_services (Main.services w) settings st) ->
              Props.touches_collection x = false).
    { intros x Hx.
      pose proof (fetch_from_services_logs (Main.services w) settings st) as Hl.
      rewrite Forall_forall in Hl. apply Hl in Hx. now destruct x. }
    assert (H3 : forall tmp fn x,
              x ∈ Main.events
                    (Main.process_pages (Main.list_images w) (Main.page_classes w)
                       tmp (snd (Main.fetch_from_services (Main.services w)
                                   settings st)) fn) ->
              Props.touches_collection x = false).
    { intros tmp fn x Hx.
      pose proof (process_pages_events (Main.list_images w) (Main.page_classes w)
                    tmp (snd (Main.fetch_from_services (Main.services w)
                                settings st)) fn) as Hl.
      rewrite Forall_forall in Hl. apply Hl in Hx.
      destruct x, Hx; simpl in *; congruence. }
    assert (H4 : forall st', forall x, x ∈ Props.written settings st' ->
              Props.touches_collection x = false).
    { intros st' x Hx. pose proof (written_events settings st') as Hl.
      rewrite Forall_forall in Hl. now apply Hl. }
    destruct (Main.extract_files (Main.io w) archive) as [temp_folder|].
    + destruct (Main.outcome
                  (Main.process_pages (Main.list_images w) (Main.page_classes w)
                     temp_folder
                     (snd (Main.fetch_from_services (Main.services w) settings st))
                     _))
        as [[folder [[md mi] ci]]|err] eqn:Hout.
      * destruct (Main.archive_files (Main.io w) archive _) as [af|] eqn:Haf;
          [exists temp_folder, folder, (md, mi, ci), af; auto|].
        exfalso. cbn [Main.events fst] in He. rewrite !elem_of_app in He.
        destruct_or! He;
          first [apply H1 in He | apply H2 in He | apply H3 in He
                | apply H4 in He
                | apply list_elem_of_singleton in He; subst e; simpl in Htouch];
          congruence.
      * exfalso. cbn [Main.events fst] in He. rewrite !elem_of_app in He.
        destruct_or! He;
          first [apply H1 in He | apply H2 in He | apply H3 in He]; congruence.
    + exfalso. cbn [Main.events fst] in He. rewrite !elem_of_app in He.
      destruct_or! He; first [apply H1 in He | apply H2 in He]; congruence.
  - intros temp_folder folder st2 Hx Hpaged Hnone.
    rewrite process_run. cbv zeta. rewrite Hx, Hpaged.
    destruct st2 as [[md mi] ci]. rewrite Hnone.
    split; [reflexivity|]. cbn [Main.events fst].
    rewrite !app_assoc. apply last_snoc.
Qed.

Lemma collection_untouched_until_rearchived_witness :
  let w := Demo.demo_world (Demo.foreign_stamp 0) [] [Demo.first_path] in
  let run :=
    Main.process w Demo.no_service Demo.first_path (Cases.cbz Demo.first_path)
      (Demo.metainfo_dated 0) in
  Main.outcome run = inl Main.Next
  /\ last (Main.events run)
     = Some (Main.Log Main.CRITICAL "Unable to re-archive images").
Proof.
  cbv zeta.
  eapply (proj2 (collection_untouched_until_rearchived
                   (Demo.demo_world (Demo.foreign_stamp 0) [] [Demo.first_path])
                   Demo.no_service Demo.first_path (Cases.cbz Demo.first_path)
                   (Demo.metainfo_dated 0))).
  - reflexivity.
  - vm_compute. reflexivity.
  - reflexivity.
Defined.

(** X9.  The metadata files written into the scratch folder are those the
    output settings switch on and no others, and the canonical metadata is
    always written with the provenance stamp of this run: today's date and
    the default tool signature. *)
Theorem written_files_follow_settings (w : Main.World)
    (settings : Main.Settings) (file : Py.Path)
    (archive : Archives.BaseArchive) (st : Models.MetaInfo)
    (entry : string) (doc : Main.Document) :
  Main.ToFile entry doc ∈ Main.events (Main.process w settings file archive st) ->
  (entry = "Metadata.xml"
   /\ Main.output_create_metadata (Main.output settings) = true
   /\ exists metadata,
        doc = Main.MetadataXml metadata
        /\ Models.meta metadata
           = {| Models.date_ := Main.today w;
                Models.tool := Main.Tool_default w |})
  \/ (entry = "MetronInfo.xml"
      /\ Main.output_create_metron_info (Main.output settings) = true
      /\ exists metron_info, doc = Main.MetronInfoXml metron_info)
  \/ (entry = "ComicInfo.xml"
      /\ Main.output_create_comic_info (Main.output settings) = true
      /\ exists comic_info, doc = Main.ComicInfoXml comic_info).
Proof.
  intros He. rewrite process_run in He. cbv zeta in He.
  assert (Hw : forall md mi ci,
            Main.ToFile entry doc
            ∈ Props.written settings
                (Main.set_meta md (Main.Meta_of_date w (Main.today w)), mi, ci) ->
            (entry = "Metadata.xml"
             /\ Main.output_create_metadata (Main.output settings) = true
             /\ exists metadata,
                  doc = Main.MetadataXml metadata
                  /\ Models.meta metadata
                     = {| Models.date_ := Main.today w;
                          Models.tool := Main.Tool_default w |})
            \/ (entry = "MetronInfo.xml"
                /\ Main.output_create_metron_info (Main.output settings) = true
                /\ exists metron_info, doc = Main.MetronInfoXml metron_info)
            \/ (entry = "ComicInfo.xml"
                /\ Main.output_create_comic_info (Main.output settings) = true
                /\ exists comic_info, doc = Main.ComicInfoXml comic_info)).
  { intros md mi ci H. unfold Props.written in H. cbn [fst snd] in H.
    rewrite !elem_of_app in H.
    destruct (Main.output_create_metadata _),
      (Main.output_create_metron_info _), (Main.output_create_comic_info _);
      destruct_or! H;
      try (now apply elem_of_nil in H);
      apply list_elem_of_singleton in H; injection H as -> ->;
      eauto 10. }
  assert (Hh : Main.ToFile entry doc ∉ Props.heading file).
  { intros H. unfold Props.heading in H.
    repeat (apply elem_of_cons in H as [H|H]; [discriminate|]).
    now apply elem_of_nil in H. }
  assert (Hf : Main.ToFile entry doc
               ∉ fst (Main.fetch_from_services (Main.services w) settings st)).
  { intros H.
    pose proof (fetch_from_services_logs (Main.services w) settings st) as Hl.
    rewrite Forall_forall in Hl. apply Hl in H. discriminate. }
  assert (Hp : forall tmp fn,
            Main.ToFile entry doc
            ∉ Main.events
                (Main.process_pages (Main.list_images w) (Main.page_classes w)
                   tmp (snd (Main.fetch_from_services (Main.services w)
                               settings st)) fn)).
  { intros tmp fn H.
    pose proof (process_pages_events (Main.list_images w) (Main.page_classes w)
                  tmp (snd (Main.fetch_from_services (Main.services w)
                              settings st)) fn) as Hl.
    rewrite Forall_forall in Hl. apply Hl in H. destruct H; discriminate. }
  assert (Ho : forall nf,
            Main.ToFile entry doc ∉ Main.events (Main.organize settings file nf))
    by (intros; apply not_to_file_organize).
  destruct (Main.extract_files (Main.io w) archive) as [temp_folder|];
    [destruct (Main.outcome _) as [[folder [[md mi] ci]]|err];
     [destruct (Main.archive_files (Main.io w) archive _) as [af|] |] |];
    cbn [Main.events fst] in He; rewrite !elem_of_app in He;
    destruct_or! He;
    first
      [ now apply (Hw md mi ci)
      | exfalso;
        first
          [ now apply Hh in He
          | now apply Hf in He
          | now apply Hp in He
          | now apply Ho in He
          | repeat (apply elem_of_cons in He as [He|He]; [discriminate|]);
            now apply elem_of_nil in He ] ].
Qed.

Lemma written_files_follow_settings_witness :
  let w := Demo.demo_world (Demo.foreign_stamp 0) [] [] in
  let run :=
    Main.process w Demo.no_service Demo.first_path (Cases.cbz Demo.first_path)
      (Demo.metainfo_dated 0) in
  exists metadata,
    Main.events run !! 7%nat
    = Some (Main.ToFile "Metadata.xml" (Main.MetadataXml metadata))
    /\ Models.meta metadata = Demo.stamped Demo.demo_today.
Proof.
  cbv zeta.
  assert (Hlook : exists metadata,
            Main.events
              (Main.process (Demo.demo_world (Demo.foreign_stamp 0) [] [])
                 Demo.no_service Demo.first_path (Cases.cbz Demo.first_path)
                 (Demo.metainfo_dated 0)) !! 7%nat
            = Some (Main.ToFile "Metadata.xml" (Main.MetadataXml metadata)))
    by (eexists; reflexivity).
  destruct Hlook as [metadata Hlook]. exists metadata.
  split; [exact Hlook|].
  destruct (written_files_follow_settings
              (Demo.demo_world (Demo.foreign_stamp 0) [] []) Demo.no_service
              Demo.first_path (Cases.cbz Demo.first_path) (Demo.metainfo_dated 0)
              "Metadata.xml" (Main.MetadataXml metadata)
              (list_elem_of_lookup_2 _ _ _ Hlook))
    as [(_ & _ & m & Hm & Hmeta) | [(H & _) | (H & _)]];
    [injection Hm as <-; exact Hmeta | discriminate H | discriminate H].
Defined.

(* ===================================================================== *)
(** ** Further properties: enrichment *)
(* ===================================================================== *)

Section Services.
Import Py Models Main.

Lemma marvel_service_configured sv settings :
  bool_of_optobj (marvel_service sv settings) = true <->
  exists s, marvel settings = Some s
            /\ bool_of_optstr (public_key s) = true
            /\ bool_of_optstr (private_key s) = true.
Proof.
  unfold marvel_service. destruct (marvel settings) as [s|].
  - destruct (bool_of_optstr (public_key s)) eqn:E1,
      (bool_of_optstr (private_key s)) eqn:E2; simpl; split;
      try discriminate; try (intros (s' & [= <-] & H1 & H2); congruence).
    intros _. eauto.
  - split; [discriminate | intros (s & H & _); discriminate].
Qed.

Lemma metron_service_configured sv settings :
  bool_of_optobj (metron_service sv settings) = true <->
  exists s, metron settings = Some s
            /\ bool_of_optstr (username s) = true
            /\ bool_of_optstr (password s) = true.
Proof.
  unfold metron_service. destruct (metron settings) as [s|].
  - destruct (bool_of_optstr (username s)) eqn:E1,
      (bool_of_optstr (password s)) eqn:E2; simpl; split;
      try discriminate; try (intros (s' & [= <-] & H1 & H2); congruence).
    intros _. eauto.
  - split; [discriminate | intros (s & H & _); discriminate].
Qed.

Lemma comicvine_service_configured sv settings :
  bool_of_optobj (comicvine_service sv settings) = true <->
  exists s, comicvine settings = Some s /\ bool_of_optstr (api_key s) = true.
Proof.
  unfold comicvine_service. destruct (comicvine settings) as [s|].
  - destruct (bool_of_optstr (api_key s)) eqn:E1; simpl; split;
      try discriminate; try (intros (s' & [= <-] & H1); congruence).
    intros _. eauto.
  - split; [discriminate | intros (s & H & _); discriminate].
Qed.

Lemma league_service_configured sv settings :
  bool_of_optobj (league_service sv settings) = true <->
  exists s, league_of_comic_geeks settings = Some s
            /\ bool_of_optstr (client_id s) = true
            /\ bool_of_optstr (client_secret s) = true.
Proof.
  unfold league_service. destruct (league_of_comic_geeks settings) as [s|].
  - destruct (bool_of_optstr (client_id s)) eqn:E1,
      (bool_of_optstr (client_secret s)) eqn:E2; simpl; split;
      try discriminate; try (intros (s' & [= <-] & H1 & H2); congruence).
    intros _. eauto.
  - split; [discriminate | intros (s & H & _); discriminate].
Qed.

Lemma bool_of_optstr_true s :
  bool_of_optstr s = true <-> exists x, s = Some x /\ x <> EmptyString.
Proof.
  destruct s as [[|c x]|]; simpl; split; try discriminate.
  - intros (x & [= <-] & H). contradiction.
  - intros _. eexists. split; [reflexivity | discriminate].
  - reflexivity.
  - intros (x & H & _). discriminate.
Qed.

End Services.

(** X10.  A service takes part in enrichment exactly when its settings
    section is present and each of its credentials is a non-empty string.
    When no service qualifies, [fetch_from_services] logs the
    no-services warning, runs no fetch and hands the three objects back as
    they were; when one qualifies, that warning is not logged. *)
Theorem services_need_full_credentials (sv : Main.Services)
    (settings : Main.Settings) (st : Models.MetaInfo) :
  let filled (s : option string) := exists x, s = Some x /\ x <> EmptyString in
  let marvel :=
    exists s, Main.marvel settings = Some s
              /\ filled (Main.public_key s) /\ filled (Main.private_key s) in
  let metron :=
    exists s, Main.metron settings = Some s
              /\ filled (Main.username s) /\ filled (Main.password s) in
  let comicvine :=
    exists s, Main.comicvine settings = Some s /\ filled (Main.api_key s) in
  let league :=
    exists s, Main.league_of_comic_geeks settings = Some s
              /\ filled (Main.client_id s) /\ filled (Main.client_secret s) in
  (Main.marvel_service sv settings <> None <-> marvel)
  /\ (Main.metron_service sv settings <> None <-> metron)
  /\ (Main.comicvine_service sv settings <> None <-> comicvine)
  /\ (Main.league_service sv settings <> None <-> league)
  /\ (~ marvel -> ~ metron -> ~ comicvine -> ~ league ->
      Main.fetch_from_services sv settings st
      = ([Main.Log Main.WARNING Main.no_services_msg], st))
  /\ (marvel \/ metron \/ comicvine \/ league ->
      Main.Log Main.WARNING Main.no_services_msg
      ∉ fst (Main.fetch_from_services sv settings st)).
Proof.
  cbv zeta.
  assert (Hobj : forall (o : option Main.Service),
            o <> None <-> Py.bool_of_optobj o = true).
  { intros [s|]; simpl; split; congruence. }
  assert (Hm := marvel_service_configured sv settings).
  assert (Hme := metron_service_configured sv settings).
  assert (Hc := comicvine_service_configured sv settings).
  assert (Hl := league_service_configured sv settings).
  rewrite <- Hobj in Hm, Hme, Hc, Hl.
  setoid_rewrite bool_of_optstr_true in Hm.
  setoid_rewrite bool_of_optstr_true in Hme.
  setoid_rewrite bool_of_optstr_true in Hc.
  setoid_rewrite bool_of_optstr_true in Hl.
  split; [exact Hm|]. split; [exact Hme|]. split; [exact Hc|].
  split; [exact Hl|]. split.
  - intros H1 H2 H3 H4. rewrite <- Hm in H1. rewrite <- Hme in H2.
    rewrite <- Hc in H3. rewrite <- Hl in H4.
    unfold Main.fetch_from_services.
    destruct (Main.marvel_service sv settings); [now elim H1|].
    destruct (Main.metron_service sv settings); [now elim H2|].
    destruct (Main.comicvine_service sv settings); [now elim H3|].
    destruct (Main.league_service sv settings); [now elim H4|].
    reflexivity.
  - intros H. rewrite <- Hm, <- Hme, <- Hc, <- Hl in H.
    assert (Hne : Spec.configured sv settings <> []).
    { unfold Spec.configured.
      destruct (Main.marvel_service sv settings),
        (Main.metron_service sv settings),
        (Main.comicvine_service sv settings),
        (Main.league_service sv settings); simpl; try discriminate.
      intuition congruence. }
    rewrite (fetch_from_services_any sv settings st Hne).
    destruct (Main.any_fetch _ st) as [[|] st']; simpl.
    + apply not_elem_of_nil.
    + intros Hin. apply list_elem_of_singleton in Hin. discriminate.
Qed.

Lemma services_need_full_credentials_witness :
  Main.fetch_from_services Demo.demo_services Demo.no_service (Demo.metainfo_dated 0)
  = ([Main.Log Main.WARNING Main.no_services_msg], Demo.metainfo_dated 0)
  /\ Main.Log Main.WARNING Main.no_services_msg
     ∉ fst (Main.fetch_from_services Demo.demo_services Demo.comicvine_only
              (Demo.metainfo_dated 0)).
Proof.
  split.
  - apply (proj1 (proj2 (proj2 (proj2 (proj2
             (services_need_full_credentials Demo.demo_services Demo.no_service
                (Demo.metainfo_dated 0)))))));
      intros (s & H & _); discriminate.
  - apply (proj2 (proj2 (proj2 (proj2 (proj2
             (services_need_full_credentials Demo.demo_services
                Demo.comicvine_only (Demo.metainfo_dated 0))))))).
    right. right. left. eexists. split; [reflexivity|].
    eexists. split; [reflexivity | discriminate].
Defined.

Section Identifiers.
Import Py Models Comicvine.

Lemma first_comicvine_None resources :
  first_comicvine resources = None <->
  Forall (fun r => res_source r <> COMICVINE) resources.
Proof.
  induction resources as [|r rest IH]; simpl.
  - split; [constructor | reflexivity].
  - destruct (decide (res_source r = COMICVINE)) as [E|E].
    + split; [discriminate | intros H; apply Forall_cons in H as [H _]; contradiction].
    + rewrite IH. split; [now constructor | intros H; now apply Forall_cons in H as [_ H]].
Qed.

Lemma first_comicvine_Some resources v :
  first_comicvine resources = Some v <->
  exists before after,
    resources = before ++ comicvine_resource v :: after
    /\ Forall (fun r => res_source r <> COMICVINE) before.
Proof.
  induction resources as [|r rest IH]; simpl.
  - split; [discriminate | intros (b & a & H & _); now destruct b].
  - destruct (decide (res_source r = COMICVINE)) as [E|E].
    + split.
      * intros [= <-]. exists [], rest. split; [|constructor].
        destruct r as [s x]. simpl in *. now subst.
      * intros ([|b0 b] & a & H & Hb); simpl in H.
        -- injection H as -> _. reflexivity.
        -- injection H as -> _. apply Forall_cons in Hb as [Hb _]. contradiction.
    + rewrite IH. split.
      * intros (b & a & -> & Hb). exists (r :: b), a. split; [reflexivity | now constructor].
      * intros ([|b0 b] & a & H & Hb); simpl in H.
        -- injection H as -> _. now elim E.
        -- injection H as -> ->. apply Forall_cons in Hb as [_ Hb]. eauto.
Qed.

Lemma first_comicvine_elem resources v :
  first_comicvine resources = Some v -> comicvine_resource v ∈ resources.
Proof.
  intros H. apply first_comicvine_Some in H as (b & a & -> & _).
  apply elem_of_app. right. apply list_elem_of_here.
Qed.

Lemma or_optint_truthy a b v :
  a = Some v -> v <> 0 -> or_optint a b = Some v.
Proof.
  intros -> Hv. unfold or_optint. simpl.
  destruct (Z.eqb_spec v 0); [contradiction | reflexivity].
Qed.

Lemma bool_of_optint_Some v : v <> 0 -> bool_of_optint (Some v) = true.
Proof. intros Hv. simpl. now destruct (Z.eqb_spec v 0). Qed.

(** The shape shared by the three lookups: the stored identifier, else the
    one of MetronInfo when its source marker allows it, else the search. *)
Lemma lookup_precedence (stored fallback search : option Z) (cv : bool) :
  let id := or_optint stored (if cv then fallback else None) in
  let result := if bool_of_optint id then id else search in
  (forall v, v <> 0 -> stored = Some v -> result = Some v)
  /\ (stored = None \/ stored = Some 0 ->
      (forall v, v <> 0 -> cv = true -> fallback = Some v -> result = Some v)
      /\ (cv = false \/ fallback = None \/ fallback = Some 0 -> result = search)).
Proof.
  cbv zeta. split.
  - intros v Hv ->.
    now rewrite (or_optint_truthy _ _ v eq_refl Hv), (bool_of_optint_Some v Hv).
  - intros Hs.
    assert (Hfalse : bool_of_optint stored = false)
      by (destruct Hs as [-> | ->]; reflexivity).
    unfold or_optint. rewrite Hfalse. split.
    + intros v Hv -> ->. now rewrite (bool_of_optint_Some v Hv).
    + intros [-> | [-> | ->]]; [reflexivity|now destruct cv..].
Qed.

Lemma stored_missing resources :
  Forall (fun r => res_source r <> COMICVINE) resources
  \/ first_comicvine resources = Some 0 ->
  first_comicvine resources = None \/ first_comicvine resources = Some 0.
Proof. intros [H|H]; [left; now apply first_comicvine_None | now right]. Qed.

End Identifiers.

(** X11.  Identifier lookup goes by the same precedence for the publisher,
    the series and the issue.  A non-zero Comicvine identifier stored in
    the canonical metadata is taken first, without any search; identifiers
    of other source systems are never taken.  Without one, MetronInfo's
    identifier is taken when MetronInfo's own source marker names Comicvine
    and the identifier is not zero; in every other case the answer is
    whatever the interactive search gives.  An identifier of zero counts as
    missing. *)
Theorem stored_identifier_comes_first (self : Comicvine.Session)
    (metadata : Models.Metadata) (metron_info : Models.MetronInfo) :
  let publisher :=
    Models.ser_publisher (Models.iss_series (Models.issue metadata)) in
  let series := Models.iss_series (Models.issue metadata) in
  let issue_ := Models.issue metadata in
  let marked := Comicvine.id_is_comicvine metron_info in
  let missing resources :=
    Forall (fun r => Models.res_source r <> Models.COMICVINE) resources
    \/ Comicvine.first_comicvine resources = Some 0 in
  let unusable (id : option Z) := marked = false \/ id = None \/ id = Some 0 in
  (forall v, v <> 0 ->
     (Comicvine.first_comicvine (Models.pub_resources publisher) = Some v ->
      Comicvine._get_publisher_id self metadata metron_info = Some v)
     /\ (Comicvine.first_comicvine (Models.ser_resources series) = Some v ->
         forall publisher_id,
           Comicvine._get_series_id self publisher_id metadata metron_info
           = Some v)
     /\ (Comicvine.first_comicvine (Models.iss_resources issue_) = Some v ->
         forall series_id,
           Comicvine._get_issue_id self series_id metadata metron_info
           = Some v))
  /\ (missing (Models.pub_resources publisher) ->
      (forall v, v <> 0 -> marked = true ->
         Models.ir_id (Models.mi_publisher metron_info) = Some v ->
         Comicvine._get_publisher_id self metadata metron_info = Some v)
      /\ (unusable (Models.ir_id (Models.mi_publisher metron_info)) ->
          Comicvine._get_publisher_id self metadata metron_info
          = Comicvine.search_publishers self (Models.pub_title publisher)))
  /\ (missing (Models.ser_resources series) ->
      forall publisher_id,
        (forall v, v <> 0 -> marked = true ->
           Models.is_id (Models.mi_series metron_info) = Some v ->
           Comicvine._get_series_id self publisher_id metadata metron_info
           = Some v)
        /\ (unusable (Models.is_id (Models.mi_series metron_info)) ->
            Comicvine._get_series_id self publisher_id metadata metron_info
            = Comicvine.search_series self publisher_id
                (Models.ser_title series)))
  /\ (missing (Models.iss_resources issue_) ->
      forall series_id,
        (forall v, v <> 0 -> marked = true ->
           Models.src_value <$> Models.mi_id metron_info = Some v ->
           Comicvine._get_issue_id self series_id metadata metron_info
           = Some v)
        /\ (unusable (Models.src_value <$> Models.mi_id metron_info) ->
            Comicvine._get_issue_id self series_id metadata metron_info
            = Comicvine.search_issues self series_id
                (Models.iss_number issue_)))
  /\ (marked = true <->
      exists s, Models.mi_id metron_info = Some s
                /\ Models.src_source s = Models.COMIC_VINE).
Proof.
  cbv zeta. repeat apply conj.
  - intros v Hv. repeat apply conj.
    + intros H. exact (proj1 (lookup_precedence _ _ _ _) v Hv H).
    + intros H publisher_id. exact (proj1 (lookup_precedence _ _ _ _) v Hv H).
    + intros H series_id. exact (proj1 (lookup_precedence _ _ _ _) v Hv H).
  - intros Hm. apply stored_missing in Hm.
    exact (proj2 (lookup_precedence _ _ _ _) Hm).
  - intros Hm publisher_id. apply stored_missing in Hm.
    exact (proj2 (lookup_precedence _ _ _ _) Hm).
  - intros Hm series_id. apply stored_missing in Hm.
    exact (proj2 (lookup_precedence _ _ _ _) Hm).
  - unfold Comicvine.id_is_comicvine.
    destruct (Models.mi_id metron_info) as [s|].
    + rewrite bool_decide_eq_true. intros H. now exists s.
    + discriminate.
  - intros (s & Hs & Hc). unfold Comicvine.id_is_comicvine. rewrite Hs.
    now apply bool_decide_eq_true.
Qed.

Lemma stored_identifier_comes_first_witness :
  Comicvine._get_publisher_id Demo.publisher_only (Demo.metadata_dated 0)
    Demo.blank_metron_info = Some 10
  /\ Comicvine._get_series_id Demo.publisher_only 10
       (fst (fst Demo.unidentified)) Demo.blank_metron_info
     = Comicvine.search_series Demo.publisher_only 10 "Amazing"
  /\ Comicvine._get_issue_id Demo.publisher_only 7
       (fst (fst Demo.unidentified)) Cases.foreign_metron_info
     = Comicvine.search_issues Demo.publisher_only 7 (Some "1").
Proof.
  repeat apply conj.
  - apply (proj1 (proj1 (stored_identifier_comes_first Demo.publisher_only
                           (Demo.metadata_dated 0) Demo.blank_metron_info)
                    10 ltac:(discriminate))).
    reflexivity.
  - destruct (stored_identifier_comes_first Demo.publisher_only
                (fst (fst Demo.unidentified)) Demo.blank_metron_info)
      as (_ & _ & Hseries & _).
    apply (Hseries (or_introl (Forall_nil_2 _)) 10). left. reflexivity.
  - destruct (stored_identifier_comes_first Demo.publisher_only
                (fst (fst Demo.unidentified)) Cases.foreign_metron_info)
      as (_ & _ & _ & Hissue & _).
    apply (Hissue (or_introl (Forall_nil_2 _)) 7). left. reflexivity.
Defined.

Section FetchStages.
Import Py Models Comicvine.

Variable self : Session.

Lemma fetch_publisher_Some metadata metron_info comic_info publisher st1 :
  fetch_publisher self (metadata, metron_info, comic_info) = (Some publisher, st1) ->
  st1 = (add_publisher_to_metadata publisher metadata,
         add_publisher_to_metron_info publisher metron_info,
         add_publisher_to_comic_info publisher comic_info)
  /\ exists id, get_publisher self id = Some publisher.
Proof.
  unfold fetch_publisher.
  destruct (negb _); [discriminate|].
  destruct (_get_publisher_id self metadata metron_info) as [id|]; simpl;
    [|discriminate].
  destruct (get_publisher self id) as [p|] eqn:E; [|discriminate].
  intros [= <- <-]. eauto.
Qed.

Lemma fetch_series_Some metadata metron_info comic_info publisher_id series st2 :
  fetch_series self (metadata, metron_info, comic_info) publisher_id
  = (Some series, st2) ->
  st2 = (add_series_to_metadata series metadata,
         add_series_to_metron_info series metron_info,
         add_series_to_comic_info series comic_info)
  /\ exists id, get_volume self id = Some series.
Proof.
  unfold fetch_series.
  destruct (negb _); [discriminate|].
  destruct (_get_series_id self publisher_id metadata metron_info) as [id|];
    simpl; [|discriminate].
  destruct (get_volume self id) as [s|] eqn:E; [|discriminate].
  intros [= <- <-]. eauto.
Qed.

Lemma fetch_issue_Some metadata metron_info comic_info series_id issue_ st3 :
  fetch_issue self (metadata, metron_info, comic_info) series_id
  = (Some issue_, st3) ->
  st3 = (add_issue_to_metadata issue_ metadata,
         add_issue_to_metron_info (console self) issue_ metron_info,
         add_issue_to_comic_info issue_ comic_info)
  /\ exists id, get_issue self id = Some issue_.
Proof.
  unfold fetch_issue.
  destruct (negb _); [discriminate|].
  destruct (_get_issue_id self series_id metadata metron_info) as [id|];
    simpl; [|discriminate].
  destruct (get_issue self id) as [i|] eqn:E; [|discriminate].
  intros [= <- <-]. eauto.
Qed.

(** A fetch that reports success went through the three stages. *)
Lemma fetch_true metadata metron_info comic_info st' :
  fetch self (metadata, metron_info, comic_info) = (true, st') ->
  exists publisher series issue_,
    (exists id, get_publisher self id = Some publisher)
    /\ (exists id, get_volume self id = Some series)
    /\ (exists id, get_issue self id = Some issue_)
    /\ st' = (add_issue_to_metadata issue_
                (add_series_to_metadata series
                   (add_publisher_to_metadata publisher metadata)),
              add_issue_to_metron_info (console self) issue_
                (add_series_to_metron_info series
                   (add_publisher_to_metron_info publisher metron_info)),
              add_issue_to_comic_info issue_
                (add_series_to_comic_info series
                   (add_publisher_to_comic_info publisher comic_info))).
Proof.
  unfold fetch.
  destruct (fetch_publisher self _) as [[p|] st1] eqn:E1; [|discriminate].
  apply fetch_publisher_Some in E1 as [-> Hp].
  destruct (fetch_series self _ _) as [[s|] st2] eqn:E2; [|discriminate].
  apply fetch_series_Some in E2 as [-> Hs].
  destruct (fetch_issue self _ _) as [[i|] st3] eqn:E3; [|discriminate].
  apply fetch_issue_Some in E3 as [-> Hi].
  intros [= <-]. exists p, s, i. auto.
Qed.

End FetchStages.

(** X12.  After a Comicvine fetch that reports success, the three schemas
    agree with the catalogue and with each other: the publisher, series and
    issue records all came from the catalogue, their Comicvine identifiers
    are among the resources of the canonical metadata, and the publisher
    name, series name, issue number and issue title are the same in the
    canonical metadata, in MetronInfo and in ComicInfo. *)
Theorem successful_fetch_aligns_schemas (self : Comicvine.Session)
    (st st' : Models.MetaInfo) :
  Comicvine.fetch self st = (true, st') ->
  exists publisher series issue_,
    (exists id, Comicvine.get_publisher self id = Some publisher)
    /\ (exists id, Comicvine.get_volume self id = Some series)
    /\ (exists id, Comicvine.get_issue self id = Some issue_)
    /\ let metadata := fst (fst st') in
       let metron_info := snd (fst st') in
       let comic_info := snd st' in
       let series_ := Models.iss_series (Models.issue metadata) in
       Comicvine.comicvine_resource (Models.Simyan.publisher_id publisher)
       ∈ Models.pub_resources (Models.ser_publisher series_)
       /\ Comicvine.comicvine_resource (Models.Simyan.volume_id series)
          ∈ Models.ser_resources series_
       /\ Comicvine.comicvine_resource (Models.Simyan.issue_id issue_)
          ∈ Models.iss_resources (Models.issue metadata)
       /\ Models.pub_title (Models.ser_publisher series_)
          = Models.Simyan.publisher_name publisher
       /\ Models.ir_value (Models.mi_publisher metron_info)
          = Models.Simyan.publisher_name publisher
       /\ Models.ci_publisher comic_info
          = Some (Models.Simyan.publisher_name publisher)
       /\ Models.ser_title series_ = Models.Simyan.volume_name series
       /\ Models.is_name (Models.mi_series metron_info)
          = Models.Simyan.volume_name series
       /\ Models.ci_series comic_info = Some (Models.Simyan.volume_name series)
       /\ Models.iss_number (Models.issue metadata)
          = Models.Simyan.issue_number issue_
       /\ Models.mi_number metron_info = Models.Simyan.issue_number issue_
       /\ Models.ci_number comic_info = Models.Simyan.issue_number issue_
       /\ Models.iss_title (Models.issue metadata)
          = Models.Simyan.issue_name issue_
       /\ Models.mi_collection_title metron_info
          = Models.Simyan.issue_name issue_
       /\ Models.ci_title comic_info = Models.Simyan.issue_name issue_.
Proof.
  destruct st as [[metadata metron_info] comic_info]. intros H.
  apply fetch_true in H as (p & s & i & Hp & Hs & Hi & ->).
  exists p, s, i. repeat (split; [assumption|]). cbv zeta. cbn [fst snd].
  repeat apply conj; try reflexivity; simpl; apply add_resource_union.
Qed.

Lemma successful_fetch_aligns_schemas_witness :
  let st' := snd (Comicvine.fetch Cases.full_session (Demo.metainfo_dated 0)) in
  Models.ser_title (Models.iss_series (Models.issue (fst (fst st'))))
  = "The Amazing"
  /\ Models.ci_series (snd st') = Some "The Amazing".
Proof.
  cbv zeta.
  destruct (successful_fetch_aligns_schemas Cases.full_session
              (Demo.metainfo_dated 0)
              (snd (Comicvine.fetch Cases.full_session (Demo.metainfo_dated 0)))
              ltac:(vm_compute; reflexivity))
    as (p & s & i & _ & (id & Hs) & _ & H).
  cbv zeta in H.
  destruct H as (_ & _ & _ & _ & _ & _ & H1 & _ & H2 & _).
  split; [rewrite H1 | rewrite H2].
  - unfold Cases.full_session, Comicvine.get_volume in Hs.
    destruct (decide (id = 20)); [|discriminate]. now injection Hs as <-.
  - unfold Cases.full_session, Comicvine.get_volume in Hs.
    destruct (decide (id = 20)); [|discriminate]. now injection Hs as <-.
Defined.

(** X13.  Enrichment never overwrites MetronInfo identifiers that came from
    another source system: when MetronInfo's own identifier names a source
    other than Comicvine, the publisher, series and issue merges leave that
    identifier and the publisher and series identifiers as they were and
    replace only the names and issue facts; when it is unset or names
    Comicvine, all three identifiers become the catalogue's. *)
Theorem foreign_identifiers_are_kept (console : Comicvine.Console)
    (publisher : Models.Simyan.Publisher) (series : Models.Simyan.Volume)
    (issue_ : Models.Simyan.Issue) (metron_info : Models.MetronInfo) :
  let after :=
    Comicvine.add_issue_to_metron_info console issue_
      (Comicvine.add_series_to_metron_info series
         (Comicvine.add_publisher_to_metron_info publisher metron_info)) in
  ((exists s, Models.mi_id metron_info = Some s
              /\ Models.src_source s <> Models.COMIC_VINE) ->
   Models.mi_id after = Models.mi_id metron_info
   /\ Models.ir_id (Models.mi_publisher after)
      = Models.ir_id (Models.mi_publisher metron_info)
   /\ Models.is_id (Models.mi_series after)
      = Models.is_id (Models.mi_series metron_info))
  /\ (Models.mi_id metron_info = None
      \/ (exists s, Models.mi_id metron_info = Some s
                    /\ Models.src_source s = Models.COMIC_VINE) ->
      Models.mi_id after
      = Some {| Models.src_source := Models.COMIC_VINE;
                Models.src_value := Models.Simyan.issue_id issue_ |}
      /\ Models.ir_id (Models.mi_publisher after)
         = Some (Models.Simyan.publisher_id publisher)
      /\ Models.is_id (Models.mi_series after)
         = Some (Models.Simyan.volume_id series))
  /\ Models.ir_value (Models.mi_publisher after)
     = Models.Simyan.publisher_name publisher
  /\ Models.is_name (Models.mi_series after) = Models.Simyan.volume_name series.
Proof.
  cbv zeta. repeat apply conj; try reflexivity.
  - intros (s & Hs & Hne).
    unfold Comicvine.add_issue_to_metron_info, Comicvine.add_series_to_metron_info,
      Comicvine.add_publisher_to_metron_info, Comicvine.id_is_comicvine_or_unset.
    simpl. rewrite Hs. simpl. rewrite !bool_decide_eq_false_2 by assumption.
    auto.
  - intros [Hnone | (s & Hs & Heq)];
      unfold Comicvine.add_issue_to_metron_info,
        Comicvine.add_series_to_metron_info,
        Comicvine.add_publisher_to_metron_info,
        Comicvine.id_is_comicvine_or_unset; simpl.
    + rewrite Hnone. auto.
    + rewrite Hs. simpl. rewrite !bool_decide_eq_true_2 by assumption. auto.
Qed.

Lemma foreign_identifiers_are_kept_witness :
  let after :=
    Comicvine.add_issue_to_metron_info (Comicvine.console Cases.full_session)
      Cases.amazing_one
      (Comicvine.add_series_to_metron_info
         {| Models.Simyan.volume_id := 20; Models.Simyan.volume_name := "The Amazing";
            Models.Simyan.volume_start_year := Some 1963 |}
         (Comicvine.add_publisher_to_metron_info
            {| Models.Simyan.publisher_id := 10;
               Models.Simyan.publisher_name := "Marvel" |}
            Cases.foreign_metron_info)) in
  Models.mi_id after
  = Some {| Models.src_source := Models.INFO_METRON; Models.src_value := 77 |}
  /\ Models.ir_id (Models.mi_publisher after) = Some 3
  /\ Models.is_id (Models.mi_series after) = Some 4.
Proof.
  cbv zeta.
  apply (proj1 (foreign_identifiers_are_kept
                  (Comicvine.console Cases.full_session)
                  {| Models.Simyan.publisher_id := 10;
                     Models.Simyan.publisher_name := "Marvel" |}
                  {| Models.Simyan.volume_id := 20;
                     Models.Simyan.volume_name := "The Amazing";
                     Models.Simyan.volume_start_year := Some 1963 |}
                  Cases.amazing_one Cases.foreign_metron_info)).
  eexists. split; [reflexivity | discriminate].
Defined.

(* ===================================================================== *)
(** ** Further properties: role strings and credits *)
(* ===================================================================== *)

Section RolePieces.
Import Py Models Comicvine.

Lemma concat_cons (x : string) (l : list string) :
  String.concat EmptyString (x :: l) = x +:+ String.concat EmptyString l.
Proof.
  destruct l as [|y l]; simpl.
  - now rewrite append_empty_r.
  - reflexivity.
Qed.

Lemma append_assoc (a b c : string) : (a +:+ b) +:+ c = a +:+ (b +:+ c).
Proof.
  induction a as [|x a IH]; [reflexivity|].
  change (String x ((a +:+ b) +:+ c) = String x (a +:+ (b +:+ c))).
  now rewrite IH.
Qed.

Lemma has_delim_app a b :
  Props.has_delim (a +:+ b) = Props.has_delim a || Props.has_delim b.
Proof.
  induction a as [|x a IH]; [reflexivity|].
  change (is_role_delim x || Props.has_delim (a +:+ b)
          = is_role_delim x || Props.has_delim a || Props.has_delim b).
  rewrite IH. now rewrite orb_assoc.
Qed.

Lemma re_split_go_nonempty cur in_run s : re_split_go cur in_run s <> [].
Proof.
  revert cur in_run. induction s as [|c s IH]; intros cur in_run; simpl.
  - discriminate.
  - destruct (is_role_delim c); [destruct in_run|]; [apply IH | discriminate | apply IH].
Qed.

Lemma re_split_go_no_delim s :
  forall cur in_run,
    Props.has_delim cur = false ->
    Forall (fun p => Props.has_delim p = false) (re_split_go cur in_run s).
Proof.
  induction s as [|c s IH]; intros cur in_run Hcur; simpl.
  - now constructor.
  - destruct (is_role_delim c) eqn:Hc.
    + destruct in_run; [now apply IH|].
      constructor; [assumption | now apply IH].
    + apply IH. rewrite has_delim_app, Hcur. simpl. now rewrite Hc.
Qed.

Lemma re_split_go_concat s :
  forall cur in_run,
    (in_run = true -> cur = EmptyString) ->
    String.concat EmptyString (re_split_go cur in_run s)
    = cur +:+ Props.without_delims s.
Proof.
  induction s as [|c s IH]; intros cur in_run Hrun; simpl.
  - now rewrite append_empty_r.
  - destruct (is_role_delim c).
    + destruct in_run.
      * rewrite IH by reflexivity. now rewrite (Hrun eq_refl).
      * rewrite concat_cons, IH by reflexivity. reflexivity.
    + rewrite IH by discriminate. now rewrite append_assoc.
Qed.

Lemma re_split_go_plain s :
  forall cur, Props.has_delim s = false -> re_split_go cur false s = [cur +:+ s].
Proof.
  induction s as [|c s IH]; intros cur Hs; simpl in *.
  - now rewrite append_empty_r.
  - apply orb_false_iff in Hs as [Hc Hs]. rewrite Hc.
    rewrite IH by assumption. now rewrite append_assoc.
Qed.

Lemma removelast_cons {A : Type} (x : A) l :
  l <> [] -> removelast (x :: l) = x :: removelast l.
Proof. destruct l; [congruence | reflexivity]. Qed.

Lemma removelast_tail_Forall {A : Type} (P : A -> Prop) l :
  Forall P (removelast l) -> Forall P (removelast (tail l)).
Proof.
  destruct l as [|x [|y l]]; simpl; intros H; try constructor.
  now apply Forall_cons in H as [_ H].
Qed.

(** Only the first and the last piece can be empty: a run of delimiters
    splits once. *)
Lemma re_split_go_middle s :
  forall cur in_run,
    cur <> EmptyString \/ in_run = true ->
    Forall (fun p => p <> EmptyString) (removelast (re_split_go cur in_run s)).
Proof.
  induction s as [|c s IH]; intros cur in_run Hcur; simpl.
  - constructor.
  - destruct (is_role_delim c).
    + destruct in_run.
      * apply IH. now right.
      * rewrite removelast_cons by apply re_split_go_nonempty.
        constructor; [now destruct Hcur | apply IH; now right].
    + apply IH. left. apply append_nonempty_r. discriminate.
Qed.

Lemma re_split_go_trailing s c :
  is_role_delim c = true ->
  forall cur in_run,
    last (re_split_go cur in_run (s +:+ String c EmptyString)) = Some EmptyString.
Proof.
  intros Hc. induction s as [|x s IH]; intros cur in_run.
  - change (EmptyString +:+ String c EmptyString) with (String c EmptyString).
    simpl. rewrite Hc. now destruct in_run.
  - change (String x s +:+ String c EmptyString)
      with (String x (s +:+ String c EmptyString)).
    simpl. destruct (is_role_delim x); [destruct in_run|]; try apply IH.
    rewrite last_cons, IH. reflexivity.
Qed.

Lemma roles_pieces_no_delim roles :
  Forall (fun p => Props.has_delim p = false) (re_split_roles roles).
Proof. now apply re_split_go_no_delim. Qed.

End RolePieces.

(** X14.  The roles string of a creator is split at runs of the characters
    tilde, comma, carriage return and line feed: no piece contains one of
    them, the pieces put together are the string without these characters,
    and a string without any of them is one piece.  A run of delimiters
    splits once, so only the first and the last piece can be empty; the
    last one is empty whenever the string ends in a delimiter. *)
Theorem roles_are_split_at_delimiter_runs (roles : string) :
  let pieces := Comicvine.re_split_roles roles in
  Forall (fun p => Props.has_delim p = false) pieces
  /\ String.concat EmptyString pieces = Props.without_delims roles
  /\ (Props.has_delim roles = false -> pieces = [roles])
  /\ Forall (fun p => p <> EmptyString) (removelast (tail pieces))
  /\ (forall c, Comicvine.is_role_delim c = true ->
        last (Comicvine.re_split_roles (roles +:+ String c EmptyString))
        = Some EmptyString).
Proof.
  cbv zeta. unfold Comicvine.re_split_roles. repeat apply conj.
  - now apply re_split_go_no_delim.
  - now rewrite re_split_go_concat by discriminate.
  - intros H. now rewrite re_split_go_plain.
  - destruct roles as [|c s]; simpl; [constructor|].
    destruct (Comicvine.is_role_delim c).
    + simpl. apply re_split_go_middle. now right.
    + apply removelast_tail_Forall, re_split_go_middle.
      left. apply append_nonempty_r. discriminate.
  - intros c Hc. now apply re_split_go_trailing.
Qed.

Lemma roles_are_split_at_delimiter_runs_witness :
  Comicvine.re_split_roles "penciler" = ["penciler"]
  /\ last (Comicvine.re_split_roles ("writer, inker" +:+ String "," EmptyString))
     = Some EmptyString.
Proof.
  split.
  - apply (proj1 (proj2 (proj2 (roles_are_split_at_delimiter_runs "penciler")))).
    reflexivity.
  - apply (proj2 (proj2 (proj2 (proj2
             (roles_are_split_at_delimiter_runs "writer, inker"))))).
    reflexivity.
Defined.

Section Strip.
Import Py Models Comicvine.

Lemma list_of_append a b :
  list_ascii_of_string (a +:+ b)
  = list_ascii_of_string a ++ list_ascii_of_string b.
Proof.
  induction a as [|x a IH]; [reflexivity|].
  change (x :: list_ascii_of_string (a +:+ b)
          = x :: (list_ascii_of_string a ++ list_ascii_of_string b)).
  now rewrite IH.
Qed.

Lemma list_of_inj a b :
  list_ascii_of_string a = list_ascii_of_string b -> a = b.
Proof.
  intros H. rewrite <- (string_of_list_ascii_of_string a),
    <- (string_of_list_ascii_of_string b). now rewrite H.
Qed.

Lemma list_of_rev_app s1 s2 :
  list_ascii_of_string (String.rev_app s1 s2)
  = rev (list_ascii_of_string s1) ++ list_ascii_of_string s2.
Proof.
  revert s2. induction s1 as [|x s1 IH]; intros s2; simpl.
  - reflexivity.
  - rewrite IH. simpl. now rewrite <- app_assoc.
Qed.

Lemma list_of_rev s :
  list_ascii_of_string (String.rev s) = rev (list_ascii_of_string s).
Proof. unfold String.rev. rewrite list_of_rev_app. simpl. apply app_nil_r. Qed.

Lemma string_rev_rev s : String.rev (String.rev s) = s.
Proof. apply list_of_inj. now rewrite !list_of_rev, rev_involutive. Qed.

Lemma string_rev_append a b : String.rev (a +:+ b) = String.rev b +:+ String.rev a.
Proof.
  apply list_of_inj.
  now rewrite list_of_rev, !list_of_append, rev_app_distr, !list_of_rev.
Qed.

Lemma string_rev_empty s : String.rev s = EmptyString -> s = EmptyString.
Proof.
  intros H. apply list_of_inj. apply (f_equal list_ascii_of_string) in H.
  rewrite list_of_rev in H. simpl in *.
  apply (f_equal (@rev ascii)) in H. now rewrite rev_involutive in H.
Qed.

Lemma length_list_of s : length (list_ascii_of_string s) = String.length s.
Proof. induction s; simpl; congruence. Qed.

Lemma string_length_rev s : String.length (String.rev s) = String.length s.
Proof. now rewrite <- !length_list_of, list_of_rev, length_rev. Qed.

Lemma take_drop n s : take_str n s +:+ drop_str n s = s.
Proof.
  revert s. induction n as [|n IH]; intros [|c s]; try reflexivity.
  change (String c (take_str n s +:+ drop_str n s) = String c s).
  now rewrite IH.
Qed.

Lemma take_app w t : take_str (String.length w) (w +:+ t) = w.
Proof.
  induction w as [|c w IH]; [now destruct t|].
  change (String c (take_str (String.length w) (w +:+ t)) = String c w).
  now rewrite IH.
Qed.

Lemma drop_app w t : drop_str (String.length w) (w +:+ t) = t.
Proof. induction w as [|c w IH]; [reflexivity | exact IH]. Qed.

Ltac bytes :=
  repeat (rewrite ?orb_true_iff, ?andb_true_iff, ?orb_false_iff,
            ?andb_false_iff, ?Nat.eqb_eq, ?Nat.eqb_neq, ?Nat.leb_le,
            ?Nat.leb_gt in *);
  lia.

(** The first byte of a whitespace character of two or three bytes is not
    itself one, nor do the first two bytes of one of three make one. *)
Lemma is_space2_lead c d : is_space2 c d = true -> is_space c = false.
Proof. unfold is_space2, is_space. cbv zeta. intros H. bytes. Qed.

Lemma is_space3_lead c d e :
  is_space3 c d e = true -> is_space c = false /\ is_space2 c d = false.
Proof.
  unfold is_space3, is_space2, is_space. cbv zeta. intros H.
  split; bytes.
Qed.

Lemma space_char_length w :
  Props.space_char w = true ->
  String.length w = 1%nat \/ String.length w = 2%nat \/ String.length w = 3%nat.
Proof.
  destruct w as [|c [|d [|e [|f w]]]]; simpl; try discriminate; auto.
Qed.

(** A positive width is that of one whitespace character in front. *)
Lemma space_width_char s k :
  space_width s = S k ->
  exists w rest,
    s = w +:+ rest /\ Props.space_char w = true /\ String.length w = S k.
Proof.
  destruct s as [|c [|d [|e r]]]; simpl; intros H; [discriminate|..].
  - destruct (is_space c) eqn:Hc; [|discriminate].
    exists (String c EmptyString), EmptyString. injection H as <-. auto.
  - destruct (is_space c) eqn:Hc.
    + exists (String c EmptyString), (String d EmptyString).
      injection H as <-. auto.
    + destruct (is_space2 c d) eqn:Hd; [|discriminate].
      exists (String c (String d EmptyString)), EmptyString.
      injection H as <-. auto.
  - destruct (is_space c) eqn:Hc.
    + exists (String c EmptyString), (String d (String e r)).
      injection H as <-. auto.
    + destruct (is_space2 c d) eqn:Hd.
      * exists (String c (String d EmptyString)), (String e r).
        injection H as <-. auto.
      * destruct (is_space3 c d e) eqn:He; [|discriminate].
        exists (String c (String d (String e EmptyString))), r.
        injection H as <-. auto.
Qed.

Lemma space_char_width w t :
  Props.space_char w = true -> space_width (w +:+ t) <> 0%nat.
Proof.
  destruct w as [|c [|d [|e [|f w]]]]; simpl; try discriminate; intros H.
  - change (space_width (String c t) <> 0%nat).
    destruct t as [|x [|y t]]; simpl; rewrite H; discriminate.
  - change (space_width (String c (String d t)) <> 0%nat).
    destruct t as [|x t]; simpl; rewrite H; destruct (is_space c); discriminate.
  - change (space_width (String c (String d (String e t))) <> 0%nat).
    simpl. rewrite H. destruct (is_space c), (is_space2 c d); discriminate.
Qed.

Lemma space_width_rev_char r k :
  space_width_rev r = S k ->
  exists w rest,
    r = w +:+ rest /\ Props.space_char (String.rev w) = true
    /\ String.length w = S k.
Proof.
  destruct r as [|e [|d [|c r]]]; simpl; intros H; [discriminate|..].
  - destruct (is_space e) eqn:He; [|discriminate].
    exists (String e EmptyString), EmptyString. injection H as <-. auto.
  - destruct (is_space e) eqn:He.
    + exists (String e EmptyString), (String d EmptyString).
      injection H as <-. auto.
    + destruct (is_space2 d e) eqn:Hd; [|discriminate].
      exists (String e (String d EmptyString)), EmptyString.
      injection H as <-. auto.
  - destruct (is_space e) eqn:He.
    + exists (String e EmptyString), (String d (String c r)).
      injection H as <-. auto.
    + destruct (is_space2 d e) eqn:Hd.
      * exists (String e (String d EmptyString)), (String c r).
        injection H as <-. auto.
      * destruct (is_space3 c d e) eqn:Hc; [|discriminate].
        exists (String e (String d (String c EmptyString))), r.
        injection H as <-. auto.
Qed.

Lemma space_char_width_rev w t :
  Props.space_char w = true -> space_width_rev (String.rev w +:+ t) <> 0%nat.
Proof.
  destruct w as [|c [|d [|e [|f w]]]]; simpl; try discriminate; intros H.
  - change (space_width_rev (String c t) <> 0%nat).
    destruct t as [|x [|y t]]; simpl; rewrite H; discriminate.
  - change (space_width_rev (String d (String c t)) <> 0%nat).
    destruct t as [|x t]; simpl; rewrite H; destruct (is_space d); discriminate.
  - change (space_width_rev (String e (String d (String c t))) <> 0%nat).
    simpl. rewrite H. destruct (is_space e), (is_space2 d e); discriminate.
Qed.

Lemma all_space_char w s :
  Props.space_char w = true -> Props.all_space (w +:+ s) = Props.all_space s.
Proof.
  destruct w as [|c [|d [|e [|f w]]]]; simpl; try discriminate; intros H.
  - change (Props.all_space (String c s) = Props.all_space s).
    simpl. now rewrite H.
  - change (Props.all_space (String c (String d s)) = Props.all_space s).
    simpl. now rewrite (is_space2_lead c d H), H.
  - change (Props.all_space (String c (String d (String e s)))
            = Props.all_space s).
    destruct (is_space3_lead c d e H) as [Hc Hd].
    simpl. now rewrite Hc, Hd, H.
Qed.

Lemma drop_spaces_id width fuel s :
  width s = 0%nat -> drop_spaces width fuel s = s.
Proof. intros H. destruct fuel; simpl; [reflexivity | now rewrite H]. Qed.

Lemma drop_spaces_S width fuel s :
  drop_spaces width (S fuel) s
  = match width s with
    | O => s
    | S w => drop_spaces width fuel (drop_str (S w) s)
    end.
Proof. reflexivity. Qed.

Lemma drop_spaces_front fuel :
  forall s, (String.length s <= fuel)%nat ->
    exists a,
      s = a +:+ drop_spaces space_width fuel s
      /\ Props.all_space a = true
      /\ space_width (drop_spaces space_width fuel s) = 0%nat.
Proof.
  induction fuel as [|fuel IH]; intros s Hl.
  - destruct s; simpl in Hl; [|lia]. now exists EmptyString.
  - rewrite drop_spaces_S. destruct (space_width s) as [|k] eqn:Hw.
    + now exists EmptyString.
    + destruct (space_width_char s k Hw) as (w & rest & -> & Hc & Hlen).
      rewrite <- Hlen, drop_app.
      rewrite length_append in Hl.
      destruct (IH rest ltac:(lia)) as (a & Ha & Hs & Hz).
      exists (w +:+ a). repeat split.
      * rewrite append_assoc. now rewrite <- Ha.
      * now rewrite all_space_char.
      * exact Hz.
Qed.

Lemma drop_spaces_back fuel :
  forall r acc, (String.length r <= fuel)%nat ->
    Props.all_space acc = true ->
    exists b,
      String.rev r +:+ acc
      = String.rev (drop_spaces space_width_rev fuel r) +:+ b
      /\ Props.all_space b = true
      /\ space_width_rev (drop_spaces space_width_rev fuel r) = 0%nat.
Proof.
  induction fuel as [|fuel IH]; intros r acc Hl Hacc.
  - destruct r; simpl in Hl; [|lia]. now exists acc.
  - rewrite drop_spaces_S. destruct (space_width_rev r) as [|k] eqn:Hw.
    + now exists acc.
    + destruct (space_width_rev_char r k Hw) as (w & rest & -> & Hc & Hlen).
      rewrite <- Hlen, drop_app.
      rewrite length_append in Hl.
      destruct (IH rest (String.rev w +:+ acc) ltac:(lia)) as (b & Hb & Hs & Hz).
      { now rewrite all_space_char. }
      exists b. repeat split; try assumption.
      rewrite string_rev_append, append_assoc. exact Hb.
Qed.

Lemma lstrip_decomp s :
  exists a,
    s = a +:+ lstrip s /\ Props.all_space a = true
    /\ space_width (lstrip s) = 0%nat.
Proof. apply drop_spaces_front. reflexivity. Qed.

Lemma rstrip_decomp s :
  exists b,
    s = rstrip s +:+ b /\ Props.all_space b = true
    /\ space_width_rev (String.rev (rstrip s)) = 0%nat.
Proof.
  destruct (drop_spaces_back (String.length s) (String.rev s) EmptyString)
    as (b & Hb & Hs & Hz); [now rewrite string_length_rev | reflexivity |].
  exists b. unfold rstrip. rewrite string_rev_rev in *.
  rewrite append_empty_r in Hb. auto.
Qed.

Lemma leading_space_width s :
  Props.leading_space s = false <-> space_width s = 0%nat.
Proof.
  unfold Props.leading_space. split.
  - intros H. destruct (space_width s) as [|k] eqn:Hw; [reflexivity|].
    destruct (space_width_char s k Hw) as (w & rest & -> & Hc & Hlen).
    pose proof (take_app w rest) as Ht.
    destruct (space_char_length w Hc) as [E|[E|E]]; rewrite E in Ht;
      rewrite Ht, Hc in H; simpl in H;
      rewrite ?orb_true_r in H; discriminate.
  - intros Hz. apply orb_false_iff. split; [apply orb_false_iff; split|];
      apply not_true_is_false; intros Hc;
      eapply space_char_width in Hc; rewrite take_drop in Hc; contradiction.
Qed.

Lemma trailing_space_width s :
  Props.trailing_space s = false <-> space_width_rev (String.rev s) = 0%nat.
Proof.
  unfold Props.trailing_space. cbv zeta. split.
  - intros H. destruct (space_width_rev (String.rev s)) as [|k] eqn:Hw;
      [reflexivity|].
    destruct (space_width_rev_char _ k Hw) as (w & rest & Hr & Hc & Hlen).
    rewrite Hr in H. pose proof (take_app w rest) as Ht.
    pose proof (string_length_rev w) as Hl.
    destruct (space_char_length _ Hc) as [E|[E|E]]; rewrite E in Hl;
      rewrite <- Hl in Ht; rewrite Ht, Hc in H; simpl in H;
      rewrite ?orb_true_r in H; discriminate.
  - intros Hz. apply orb_false_iff. split; [apply orb_false_iff; split|];
      apply not_true_is_false; intros Hc;
      eapply space_char_width_rev in Hc; rewrite string_rev_rev, take_drop in Hc;
      contradiction.
Qed.

Lemma strip_decomp s :
  exists a b,
    s = a +:+ strip s +:+ b
    /\ Props.all_space a = true /\ Props.all_space b = true.
Proof.
  destruct (lstrip_decomp s) as (a & Hs & Ha & _).
  destruct (rstrip_decomp (lstrip s)) as (b & Hr & Hb & _).
  exists a, b. repeat split; try assumption.
  unfold strip. now rewrite <- Hr.
Qed.

Lemma strip_trailing s : Props.trailing_space (strip s) = false.
Proof.
  apply trailing_space_width.
  destruct (rstrip_decomp (lstrip s)) as (b & _ & _ & Hz). exact Hz.
Qed.

Lemma strip_leading s : Props.leading_space (strip s) = false.
Proof.
  apply leading_space_width.
  destruct (lstrip_decomp s) as (a & _ & _ & Hz).
  destruct (rstrip_decomp (lstrip s)) as (b & Hr & _ & _).
  unfold strip. destruct (space_width (rstrip (lstrip s))) as [|k] eqn:Hw;
    [reflexivity|].
  destruct (space_width_char _ k Hw) as (w & rest & Hx & Hc & _).
  rewrite Hx, append_assoc in Hr. rewrite Hr in Hz.
  now apply (space_char_width w (rest +:+ b)) in Hc.
Qed.

Lemma strip_id s :
  Props.leading_space s = false -> Props.trailing_space s = false ->
  strip s = s.
Proof.
  intros Hl Ht. apply leading_space_width in Hl.
  apply trailing_space_width in Ht. unfold strip, lstrip, rstrip.
  rewrite (drop_spaces_id _ _ s Hl), (drop_spaces_id _ _ _ Ht).
  apply string_rev_rev.
Qed.

Lemma strip_no_delim s : Props.has_delim s = false -> Props.has_delim (strip s) = false.
Proof.
  intros H. destruct (strip_decomp s) as (a & b & Hs & _).
  rewrite Hs, !has_delim_app in H.
  apply orb_false_iff in H as [_ H]. now apply orb_false_iff in H as [H _].
Qed.

End Strip.

(** X15.  Every role title that issue enrichment writes into the canonical
    metadata is one piece of the creator's roles string with the whitespace
    around it removed and nothing else: it contains no delimiter, neither
    begins nor ends with a whitespace character, and there is one title per
    piece, in the order of the pieces.  Whitespace is what [str.strip]
    removes: the ASCII whitespace characters and those beyond ASCII, the
    no-break space among them. *)
Theorem role_titles_are_trimmed_pieces (creator : Models.Simyan.CreatorEntry) :
  let pieces := Comicvine.re_split_roles (Models.Simyan.creator_roles creator) in
  let titles :=
    Models.tr_title <$> Models.cr_roles (Comicvine.credit_of_creator creator) in
  Forall2 (fun piece title =>
             exists a b,
               piece = a +:+ title +:+ b
               /\ Props.all_space a = true /\ Props.all_space b = true)
    pieces titles
  /\ Forall (fun title =>
               Props.has_delim title = false
               /\ Props.leading_space title = false
               /\ Props.trailing_space title = false) titles
  /\ (forall title, Props.leading_space title = false ->
        Props.trailing_space title = false ->
        Comicvine.strip title = title).
Proof.
  cbv zeta. unfold Comicvine.credit_of_creator, Comicvine.role_names. simpl.
  assert (Ht : forall l : list string,
            Models.tr_title
              <$> ((fun r => {| Models.tr_title := r; Models.tr_resources := [] |})
                     <$> l) = l).
  { induction l as [|x l IH]; [reflexivity|]. simpl. f_equal. exact IH. }
  rewrite Ht.
  assert (Hno := roles_pieces_no_delim (Models.Simyan.creator_roles creator)).
  repeat apply conj.
  - apply Forall2_fmap_r, Forall_Forall2_diag, Forall_forall.
    intros piece _. apply strip_decomp.
  - apply Forall_fmap. eapply Forall_impl; [exact Hno|].
    intros piece Hp. simpl. repeat split.
    + now apply strip_no_delim.
    + apply strip_leading.
    + apply strip_trailing.
  - apply strip_id.
Qed.

Lemma role_titles_are_trimmed_pieces_witness :
  Forall2 (fun piece title =>
             exists a b,
               piece = a +:+ title +:+ b
               /\ Props.all_space a = true /\ Props.all_space b = true)
    ["writer" +:+ Cases.nbsp; " editor"] ["writer"; "editor"]
  /\ Comicvine.strip "writer" = "writer".
Proof.
  split.
  - exact (proj1 (role_titles_are_trimmed_pieces Cases.spaced_creator)).
  - apply (proj2 (proj2 (role_titles_are_trimmed_pieces Cases.spaced_creator)));
      reflexivity.
Defined.

Section Credits.
Import Py Models Comicvine.

Lemma credits_dict_snoc creators x :
  credits_dict (creators ++ [x])
  = <[ Simyan.creator_name x := role_names (Simyan.creator_roles x) ]>
      (credits_dict creators).
Proof. unfold credits_dict. now rewrite foldl_app. Qed.

Lemma credits_dict_lookup creators nm :
  credits_dict creators !! nm
  = (fun x => role_names (Simyan.creator_roles x))
      <$> last (filter (fun x => Simyan.creator_name x = nm) creators).
Proof.
  induction creators as [|x creators IH] using rev_ind.
  - reflexivity.
  - rewrite credits_dict_snoc, filter_app.
    destruct (decide (Simyan.creator_name x = nm)) as [E|E].
    + rewrite filter_cons_True by assumption. rewrite filter_nil.
      rewrite last_snoc. subst nm. now rewrite lookup_insert_eq.
    + rewrite filter_cons_False by assumption. rewrite filter_nil, app_nil_r.
      now rewrite lookup_insert_ne.
Qed.

End Credits.

(** X16.  For one creator the three schemas get their roles from the same
    pieces: the canonical metadata and MetronInfo hold one role per piece of
    the roles string, MetronInfo's being the role that [Role.load] gives for
    the canonical title and [OTHER] where it knows none; no role is
    dropped. *)
Theorem creator_roles_correspond (console : Comicvine.Console)
    (creator : Models.Simyan.CreatorEntry) :
  let canonical := Models.cr_roles (Comicvine.credit_of_creator creator) in
  let metron :=
    Models.ic_roles (Comicvine.info_credit_of_creator console creator) in
  length canonical
  = length (Comicvine.re_split_roles (Models.Simyan.creator_roles creator))
  /\ Forall2 (fun title role =>
               Models.rr_value role
               = match Comicvine.Role_load console (Models.tr_title title) with
                 | Some known => known
                 | None => Models.OTHER
                 end) canonical metron.
Proof.
  cbv zeta. unfold Comicvine.credit_of_creator, Comicvine.info_credit_of_creator,
    Comicvine.role_names. simpl. split.
  - now rewrite !length_fmap.
  - apply Forall2_fmap_l, Forall2_fmap_l, Forall2_fmap_r, Forall_Forall2_diag,
      Forall_forall.
    intros piece _. simpl. unfold Comicvine.role_resource.
    now destruct (Comicvine.Role_load console (Comicvine.strip piece)).
Qed.

(** X17.  ComicInfo's credits are keyed by creator name: a name maps to the
    trimmed role pieces of the last creator of that name in the issue (an
    earlier creator of the same name is replaced), and a name that no
    creator carries has no entry. *)
Theorem comic_info_credits_by_name (issue_ : Models.Simyan.Issue)
    (comic_info : Models.ComicInfo) (name_ : string) :
  let credits :=
    Models.ci_credits (Comicvine.add_issue_to_comic_info issue_ comic_info) in
  let namesakes :=
    filter (fun x => Models.Simyan.creator_name x = name_)
      (Models.Simyan.issue_creators issue_) in
  credits !! name_
  = (fun x => Comicvine.strip
                <$> Comicvine.re_split_roles (Models.Simyan.creator_roles x))
      <$> last namesakes
  /\ (credits !! name_ = None <->
      Forall (fun x => Models.Simyan.creator_name x <> name_)
        (Models.Simyan.issue_creators issue_)).
Proof.
  cbv zeta. simpl. rewrite credits_dict_lookup. split; [reflexivity|].
  rewrite fmap_None, last_None.
  induction (Models.Simyan.issue_creators issue_) as [|x l IH].
  - split; [constructor | reflexivity].
  - destruct (decide (Models.Simyan.creator_name x = name_)) as [E|E].
    + rewrite filter_cons_True by assumption. split; [discriminate|].
      intros H. apply Forall_cons in H as [H _]. contradiction.
    + rewrite filter_cons_False by assumption. rewrite IH.
      split; [now constructor | intros H; now apply Forall_cons in H as [_ H]].
Qed.

(* ===================================================================== *)
(** ** Further properties: page names *)
(* ===================================================================== *)

Section RenamingFacts.
Import Py Models Main.

Lemma renames_app evs1 evs2 : renames (evs1 ++ evs2) = renames evs1 ++ renames evs2.
Proof. unfold renames. apply omap_app. Qed.

Lemma rename_loop_sublist filename pad image_list :
  forall index folder,
    sublist (renames (events (rename_loop filename pad index image_list folder)))
      (Props.canonical_pairs filename pad index image_list).
Proof.
  induction image_list as [|img rest IH]; intros index folder.
  - simpl. constructor.
  - cbn [rename_loop Props.canonical_pairs]. rewrite bind_split.
    destruct (decide _) as [Hne|Heq].
    + rewrite bind_emit. unfold rename_file.
      destruct (contains folder img).
      * rewrite bind_emit. cbn [events outcome fst snd ret].
        rewrite renames_app. cbn [renames omap app].
        apply sublist_skip, IH.
      * cbn. apply sublist_nil_l.
    + cbn [events outcome fst snd ret app]. apply sublist_cons, IH.
Qed.

Lemma rename_loop_underscore filename pad image_list :
  forall index folder,
    (forall i img, image_list !! i = Some img ->
       img = filename +:+ "_" +:+ padded pad (index + i) +:+ suffix_of_name img) ->
    rename_loop filename pad index image_list folder = ([], inl folder).
Proof.
  induction image_list as [|img rest IH]; intros index folder Hform.
  - reflexivity.
  - cbn [rename_loop].
    assert (H0 : img = filename +:+ "_" +:+ padded pad index
                       +:+ suffix_of_name img).
    { rewrite <- (Nat.add_0_r index) at 1. now apply Hform. }
    destruct (decide _) as [Hne|_]; [contradiction|].
    unfold ret. rewrite bind_inl. rewrite IH; [reflexivity|].
    intros i x Hi. replace (S index + i)%nat with (index + S i)%nat by lia.
    now apply Hform.
Qed.

End RenamingFacts.

(** X18.  The rename step calls [rename] only on images of the folder's
    listing, each at most once and in listing order, and always onto the
    canonical name [<base-name>-<padded-index><extension>] of the image's
    position.  A folder whose images carry the underscore form of these
    names is left exactly as it is, without a log line. *)
Theorem renames_target_canonical_names (list_images_ : Main.Folder -> list string)
    (folder : Main.Folder) (filename : string) :
  let image_list := list_images_ folder in
  let pad_count := String.length (Py.str_of_nat (length image_list)) in
  let run := Main.rename_images list_images_ folder filename in
  sublist (Main.renames (Main.events run))
    (Props.canonical_pairs filename pad_count 0 image_list)
  /\ (Props.underscore_listing filename image_list -> run = ([], inl folder)).
Proof.
  cbv zeta. unfold Main.rename_images. split.
  - apply rename_loop_sublist.
  - intros H. apply rename_loop_underscore. intros i img Hi. now apply H.
Qed.

Lemma renames_target_canonical_names_witness :
  Main.rename_images Demo.sorted_images
    ["Amazing_#001_1.jpg"; "Amazing_#001_0.jpg"] "Amazing_#001"
  = ([], inl ["Amazing_#001_1.jpg"; "Amazing_#001_0.jpg"]).
Proof.
  apply (proj2 (renames_target_canonical_names Demo.sorted_images
                  ["Amazing_#001_1.jpg"; "Amazing_#001_0.jpg"] "Amazing_#001")).
  intros [|[|i]] img Hi; vm_compute in Hi; try discriminate;
    injection Hi as <-; reflexivity.
Defined.

Section Digits.
Import Py Main.

Lemma length_string_of_uint d :
  String.length (NilEmpty.string_of_uint d) = Decimal.nb_digits d.
Proof. induction d; simpl; congruence. Qed.

Lemma nb_digits_succ d :
  (Decimal.nb_digits d <= Decimal.nb_digits (Decimal.Little.succ d))%nat.
Proof. induction d; simpl; lia. Qed.

Lemma str_of_nat_length n :
  String.length (str_of_nat n)
  = Decimal.nb_digits (DecimalNat.Unsigned.to_lu n).
Proof.
  unfold str_of_nat.
  rewrite length_string_of_uint, DecimalNat.Unsigned.to_uint_alt.
  apply DecimalFacts.nb_digits_rev.
Qed.

(** A larger number never has fewer digits. *)
Lemma str_of_nat_length_mono i n :
  (i <= n)%nat ->
  (String.length (str_of_nat i) <= String.length (str_of_nat n))%nat.
Proof.
  rewrite !str_of_nat_length. induction 1 as [|n _ IH]; [lia|].
  rewrite DecimalNat.Unsigned.to_lu_succ.
  pose proof (nb_digits_succ (DecimalNat.Unsigned.to_lu n)). lia.
Qed.

Lemma is_sign_digit d c rest :
  NilEmpty.string_of_uint d = String c rest -> is_sign c = false.
Proof. destruct d; simpl; intros [= <- _]; reflexivity. Qed.

(** Decimal digits are characters of one byte. *)
Lemma len_string_of_uint d :
  len (NilEmpty.string_of_uint d) = String.length (NilEmpty.string_of_uint d).
Proof. induction d; simpl; congruence. Qed.

Lemma zfill_digits w d :
  zfill w (NilEmpty.string_of_uint d)
  = zeros (w - String.length (NilEmpty.string_of_uint d))
    +:+ NilEmpty.string_of_uint d.
Proof.
  rewrite <- len_string_of_uint.
  destruct (NilEmpty.string_of_uint d) as [|c rest] eqn:E.
  - unfold zfill. simpl. destruct w; simpl; [reflexivity|].
    now rewrite append_empty_r.
  - apply zfill_unsigned. now apply (is_sign_digit d c rest).
Qed.

Lemma uint_of_zeros k s d :
  NilEmpty.uint_of_string s = Some d ->
  NilEmpty.uint_of_string (zeros k +:+ s) = Some (Nat.iter k Decimal.D0 d).
Proof.
  intros H. induction k as [|k IH]; [exact H|].
  change (zeros (S k) +:+ s) with (String "0" (zeros k +:+ s)).
  simpl. now rewrite IH.
Qed.

Lemma of_uint_iter_D0 k d :
  Nat.of_uint (Nat.iter k Decimal.D0 d) = Nat.of_uint d.
Proof. induction k as [|k IH]; [reflexivity | exact IH]. Qed.

Lemma int_of_padded pad index : Props.int_of_digits (padded pad index) = Some index.
Proof.
  unfold Props.int_of_digits, padded, str_of_nat. rewrite zfill_digits.
  rewrite (uint_of_zeros _ _ _ (NilEmpty.usu (Nat.to_uint index))).
  simpl. now rewrite of_uint_iter_D0, DecimalNat.Unsigned.of_to.
Qed.

End Digits.

(** X19.  The index in a page name can be read back: the padded index of
    any position parses to that position, so different positions never get
    the same padded index; and within a listing of [n] images every padded
    index has the same width, the number of digits of [n]. *)
Theorem padded_index_reads_back (pad_count index : nat) :
  Props.int_of_digits (Main.padded pad_count index) = Some index
  /\ (forall other,
        Main.padded pad_count index = Main.padded pad_count other ->
        index = other)
  /\ (forall n, (index <= n)%nat ->
        String.length
          (Main.padded (String.length (Py.str_of_nat n)) index)
        = String.length (Py.str_of_nat n)).
Proof.
  repeat apply conj.
  - apply int_of_padded.
  - intros other H. apply (f_equal Props.int_of_digits) in H.
    rewrite !int_of_padded in H. congruence.
  - intros n Hn. unfold Main.padded, Py.str_of_nat at 2.
    rewrite zfill_digits, length_append, length_zeros.
    pose proof (str_of_nat_length_mono index n Hn) as Hm.
    unfold Py.str_of_nat in Hm at 1. lia.
Qed.

Lemma padded_index_reads_back_witness :
  String.length (Main.padded (String.length (Py.str_of_nat 120)) 7) = 3%nat.
Proof.
  apply (proj2 (proj2 (padded_index_reads_back 0 7)) 120%nat). lia.
Defined.

(* ===================================================================== *)
(** ** Further properties: page lists *)
(* ===================================================================== *)

Section Pages.
Import Py Models Main.

#[local] Instance page_le_trans : Transitive page_le.
Proof. intros a b c. unfold page_le. lia. Qed.

#[local] Instance page_le_total : Total page_le.
Proof. intros a b. unfold page_le. lia. Qed.

Lemma remove_dups_NoDup {A : Type} `{EqDecision A} (l : list A) :
  NoDup l -> remove_dups l = l.
Proof.
  induction 1 as [|x l Hx _ IH]; [reflexivity|]. simpl.
  rewrite IH. destruct (decide_rel _ x l); [contradiction | reflexivity].
Qed.

Lemma StronglySorted_seq a n : StronglySorted le (seq a n).
Proof.
  revert a. induction n as [|n IH]; intros a; simpl; constructor.
  - apply IH.
  - apply Forall_forall. intros x Hx. apply elem_of_seq in Hx. lia.
Qed.

Lemma StronglySorted_by_index l :
  StronglySorted le (pg_index <$> l) -> StronglySorted page_le l.
Proof.
  induction l as [|p l IH]; intros H; [constructor|].
  inversion H as [|? ? Hl Hp]; subst. constructor; [now apply IH|].
  rewrite Forall_fmap in Hp. exact Hp.
Qed.

(** Pages whose indexes count up are already what [sorted(set(...))] gives. *)
Lemma sorted_pages_id l a :
  pg_index <$> l = seq a (length l) -> sorted_pages l = l.
Proof.
  intros Hidx.
  assert (Hnd : NoDup l).
  { apply (NoDup_fmap_1 pg_index). rewrite Hidx. apply NoDup_seq. }
  unfold sorted_pages. rewrite (remove_dups_NoDup l Hnd).
  apply (StronglySorted_unique_strong page_le).
  - intros x1 x2 H1 H2 H12 H21.
    rewrite merge_sort_Permutation in H1.
    apply list_elem_of_lookup in H1 as [i1 H1], H2 as [i2 H2].
    assert (E : pg_index x1 = pg_index x2) by (unfold page_le in *; lia).
    assert (Hi1 : (pg_index <$> l) !! i1 = Some (pg_index x1))
      by now rewrite list_lookup_fmap, H1.
    assert (Hi2 : (pg_index <$> l) !! i2 = Some (pg_index x2))
      by now rewrite list_lookup_fmap, H2.
    rewrite Hidx in Hi1, Hi2. apply lookup_seq in Hi1, Hi2.
    assert (i1 = i2) by lia. subst. congruence.
  - apply StronglySorted_merge_sort; apply _.
  - apply StronglySorted_by_index. rewrite Hidx. apply StronglySorted_seq.
  - apply merge_sort_Permutation.
Qed.

Lemma build_pages_length from_path old count index image_list :
  length (build_pages from_path old count index image_list) = length image_list.
Proof.
  revert index. induction image_list as [|img rest IH]; intros index; simpl;
    [reflexivity | now rewrite IH].
Qed.

Lemma build_pages_lookup from_path old count image_list :
  forall index i,
    build_pages from_path old count index image_list !! i
    = (fun img =>
         from_path img (index + i)%nat
           (bool_decide ((index + i)%nat = (count - 1)%nat))
           (find_page (index + i) old))
        <$> image_list !! i.
Proof.
  induction image_list as [|img rest IH]; intros index i; simpl.
  - now destruct i.
  - destruct i as [|i]; simpl.
    + now rewrite Nat.add_0_r.
    + rewrite IH. now replace (S index + i)%nat with (index + S i)%nat by lia.
Qed.

Lemma build_pages_indices from_path old count image_list :
  (forall x i b o, pg_index (from_path x i b o) = i) ->
  forall index,
    pg_index <$> build_pages from_path old count index image_list
    = seq index (length image_list).
Proof.
  intros Hrec. induction image_list as [|img rest IH]; intros index; simpl.
  - reflexivity.
  - rewrite Hrec. f_equal. apply IH.
Qed.

Lemma sorted_build_pages from_path old count image_list :
  (forall x i b o, pg_index (from_path x i b o) = i) ->
  sorted_pages (build_pages from_path old count 0 image_list)
  = build_pages from_path old count 0 image_list.
Proof.
  intros Hrec. apply (sorted_pages_id _ 0).
  rewrite build_pages_length. now apply build_pages_indices.
Qed.

Lemma find_page_Some index old p :
  find_page index old = Some p -> p ∈ old /\ pg_index p = index.
Proof.
  unfold find_page. intros H. apply find_some in H as [Hin Hp].
  split; [now apply list_elem_of_In | now apply bool_decide_eq_true in Hp].
Qed.

Lemma find_page_None index old :
  find_page index old = None <-> Forall (fun p => pg_index p <> index) old.
Proof.
  unfold find_page. induction old as [|p old IH]; simpl.
  - split; [constructor | reflexivity].
  - case_bool_decide as E.
    + split; [discriminate | intros H; apply Forall_cons in H as [H _]; contradiction].
    + rewrite IH. split; [now constructor | intros H; now apply Forall_cons in H as [_ H]].
Qed.

End Pages.

(** X20.  When the page classes record the index they are given, each
    schema's page list after [process_pages] has one entry per image of the
    renamed folder, in image order: the entry at position [i] is built from
    the [i]-th image with index [i], with the final-page flag set for the
    last image only, and from the first old entry of that schema whose
    index is [i], if there is one.  Old entries beyond the images are
    dropped; the rest of each schema is unchanged. *)
Theorem page_lists_follow_the_images (list_images_ : Main.Folder -> list string)
    (classes : Main.PageClasses) (folder folder' : Main.Folder)
    (st st' : Models.MetaInfo) (filename : string) :
  (forall x i b o,
     Models.pg_index (Main.MetadataPage_from_path classes x i b o) = i) ->
  (forall x i b o,
     Models.pg_index (Main.MetronPage_from_path classes x i b o) = i) ->
  (forall x i b o,
     Models.pg_index (Main.ComicPage_from_path classes x i b o) = i) ->
  Main.outcome (Main.process_pages list_images_ classes folder st filename)
  = inl (folder', st') ->
  let images := list_images_ folder' in
  let count := length images in
  let entry from_path (old : list Models.Page) (i : nat) (img : string) :=
    from_path img i (bool_decide (i = (count - 1)%nat)) (Main.find_page i old) in
  (forall i,
     Models.pages (fst (fst st')) !! i
     = entry (Main.MetadataPage_from_path classes)
         (Models.pages (fst (fst st))) i <$> images !! i)
  /\ (forall i,
        Models.mi_pages (snd (fst st')) !! i
        = entry (Main.MetronPage_from_path classes)
            (Models.mi_pages (snd (fst st))) i <$> images !! i)
  /\ (forall i,
        Models.ci_pages (snd st') !! i
        = entry (Main.ComicPage_from_path classes)
            (Models.ci_pages (snd st)) i <$> images !! i)
  /\ (forall i old p,
        Main.find_page i old = Some p -> p ∈ old /\ Models.pg_index p = i)
  /\ Models.issue (fst (fst st')) = Models.issue (fst (fst st))
  /\ Models.meta (fst (fst st')) = Models.meta (fst (fst st)).
Proof.
  intros H1 H2 H3. destruct st as [[md mi] ci]. unfold Main.process_pages.
  rewrite bind_split.
  destruct (Main.outcome (Main.rename_images list_images_ folder filename))
    as [renamed|e]; [|discriminate].
  cbn [Main.outcome Main.ret snd]. intros [= <- <-]. cbv zeta. cbn [fst snd].
  rewrite !sorted_build_pages by assumption.
  repeat apply conj; try reflexivity.
  - intros i. simpl. now rewrite build_pages_lookup.
  - intros i. simpl. now rewrite build_pages_lookup.
  - intros i. simpl. now rewrite build_pages_lookup.
  - intros i old p. apply find_page_Some.
Qed.

Lemma page_lists_follow_the_images_witness :
  exists folder' st',
    Main.outcome
      (Main.process_pages Demo.sorted_images
         (Main.page_classes (Demo.demo_world (Demo.stamped 0) [] []))
         Demo.scratch (Demo.metainfo_dated 0) "Amazing_#001")
    = inl (folder', st')
    /\ Models.pages (fst (fst st')) !! 1%nat
       = Some (Demo.demo_page "Amazing_#001-1.jpg" 1 true None).
Proof.
  assert (H : exists paged,
            Main.outcome
              (Main.process_pages Demo.sorted_images
                 (Main.page_classes (Demo.demo_world (Demo.stamped 0) [] []))
                 Demo.scratch (Demo.metainfo_dated 0) "Amazing_#001")
            = inl paged) by (eexists; reflexivity).
  destruct H as [[folder' st'] H]. exists folder', st'. split; [exact H|].
  rewrite (proj1 (page_lists_follow_the_images Demo.sorted_images
                    (Main.page_classes (Demo.demo_world (Demo.stamped 0) [] []))
                    Demo.scratch folder' (Demo.metainfo_dated 0) st'
                    "Amazing_#001"
                    ltac:(reflexivity) ltac:(reflexivity) ltac:(reflexivity) H)).
  vm_compute in H. injection H as <- _. reflexivity.
Defined.


(* --------------------------------------------------------------------- *)
(** *** The interactive searches *)
(* --------------------------------------------------------------------- *)

Section Searches.
Import Py Models Main Search.

Lemma insert_by_name_perm (x : Simyan.Publisher) (l : list Simyan.Publisher) :
  insert_by_name x l ≡ₚ x :: l.
Proof.
  induction l as [|y l IH]; simpl; [reflexivity|].
  destruct (String.leb _ _); [reflexivity|].
  rewrite IH. apply Permutation_swap.
Qed.

Lemma sorted_by_name_perm (l : list Simyan.Publisher) : sorted_by_name l ≡ₚ l.
Proof.
  induction l as [|x l IH]; simpl; [reflexivity|].
  unfold sorted_by_name in IH. now rewrite insert_by_name_perm, IH.
Qed.

Lemma pick_Returned {A B : Type} (options : list A) (index : nat) (id : A -> B)
    (r : option B) :
  pick options index id = Returned r ->
  exists x, x ∈ options /\ r = Some (id x).
Proof.
  unfold pick. destruct (options !! _) as [x|] eqn:H; [|discriminate].
  intros [= <-]. exists x. split; [|reflexivity].
  now apply list_elem_of_lookup_2 in H.
Qed.

Lemma pick_finished {A B : Type} (options : list A) (index : nat) (id : A -> B) :
  pick options index id <> Unfinished.
Proof. unfold pick. now destruct (options !! _). Qed.

Lemma of_publisher_Returned (publisher_id : Z) (l kept : list VolumeEntry) :
  of_publisher publisher_id l = Returned kept ->
  forall x, x ∈ kept -> x ∈ l /\ ve_publisher x = Some publisher_id.
Proof.
  revert kept. induction l as [|y l IH]; simpl; intros kept.
  - intros [= <-] x Hx. now apply elem_of_nil in Hx.
  - destruct (ve_publisher y) as [id|] eqn:Hy; [|discriminate].
    destruct (of_publisher publisher_id l) as [k| |]; try discriminate.
    intros [= <-] x Hx. destruct (decide (id = publisher_id)) as [->|].
    + apply elem_of_cons in Hx as [->|Hx].
      * split; [apply list_elem_of_here|assumption].
      * destruct (IH k eq_refl x Hx). split; [now apply list_elem_of_further|assumption].
    + destruct (IH k eq_refl x Hx). split; [now apply list_elem_of_further|assumption].
Qed.

Lemma search_publishers_more_fuel (cat : Catalogue) (op : Operator) (k : nat) :
  forall (round : nat) (title : option string) (fuel : nat),
    try_again op (round + k) = false ->
    (k < fuel)%nat ->
    _search_publishers cat op fuel round title
    = _search_publishers cat op (S k) round title
    /\ snd (_search_publishers cat op fuel round title) <> Unfinished.
Proof.
  induction k as [|k IH]; intros round title fuel Hno Hfuel;
    (destruct fuel as [|fuel]; [lia|]).
  - simpl. rewrite Nat.add_0_r in Hno. rewrite Hno. simpl.
    destruct (list_publishers cat _); [|now split].
    destruct (decide _); [|now split].
    split; [reflexivity|apply pick_finished].
  - remember (S k) as k1 eqn:Hk1. simpl.
    destruct (list_publishers cat _); [|now split].
    destruct (decide _); [split; [reflexivity|apply pick_finished]|].
    destruct (negb (try_again op round)); [now split|].
    subst k1.
    destruct (IH (S round) None fuel) as [-> Hfin]; [|lia|].
    { now replace (S round + k)%nat with (round + S k)%nat by lia. }
    destruct (_search_publishers cat op (S k) (S round) None) as [ev r].
    split; [reflexivity|exact Hfin].
Qed.

Lemma search_series_more_fuel (cat : Catalogue) (op : Operator) (id : Z)
    (k : nat) :
  forall (round : nat) (title : option string) (fuel : nat),
    try_again op (round + k) = false ->
    (k < fuel)%nat ->
    _search_series cat op fuel round id title
    = _search_series cat op (S k) round id title.
Proof.
  induction k as [|k IH]; intros round title fuel Hno Hfuel;
    (destruct fuel as [|fuel]; [lia|]).
  - simpl. rewrite Nat.add_0_r in Hno. rewrite Hno. reflexivity.
  - remember (S k) as k1 eqn:Hk1. simpl.
    destruct (list_volumes cat _); [|reflexivity].
    destruct (of_publisher _ _) as [kept|e|]; [|reflexivity|reflexivity].
    destruct (sorted_by_name_year cat _); [|reflexivity].
    destruct (decide _); [reflexivity|].
    destruct (negb (try_again op round)); [reflexivity|].
    subst k1.
    rewrite (IH (S round) None fuel); [reflexivity| |lia].
    now replace (S round + k)%nat with (round + S k)%nat by lia.
Qed.

Lemma of_publisher_finished (publisher_id : Z) (l : list VolumeEntry) :
  of_publisher publisher_id l <> Unfinished.
Proof.
  induction l as [|y l IH]; simpl; [discriminate|].
  destruct (ve_publisher y); [|discriminate].
  destruct (of_publisher publisher_id l); [discriminate|discriminate|].
  now destruct IH.
Qed.

Lemma search_series_finished (cat : Catalogue) (op : Operator) (id : Z)
    (k : nat) :
  forall (round : nat) (title : option string),
    try_again op (round + k) = false ->
    snd (_search_series cat op (S k) round id title) <> Unfinished.
Proof.
  induction k as [|k IH]; intros round title Hno.
  - simpl. rewrite Nat.add_0_r in Hno. rewrite Hno. simpl.
    destruct (list_volumes cat _); [|discriminate].
    destruct (of_publisher _ _) eqn:Hof; try discriminate.
    + destruct (sorted_by_name_year cat _); [|discriminate].
      destruct (decide _); [apply pick_finished|discriminate].
    + now apply of_publisher_finished in Hof.
  - remember (S k) as k1 eqn:Hk1. simpl.
    destruct (list_volumes cat _); [|discriminate].
    destruct (of_publisher _ _) eqn:Hof; try discriminate.
    + destruct (sorted_by_name_year cat _); [|discriminate].
      destruct (decide _); [apply pick_finished|].
      destruct (negb (try_again op round)); [discriminate|].
      subst k1.
      specialize (IH (S round) None).
      destruct (_search_series cat op (S k) (S round) id None) as [ev r].
      apply IH. now replace (S round + k)%nat with (round + S k)%nat by lia.
    + now apply of_publisher_finished in Hof.
Qed.

End Searches.

(** X21. A publisher search that returns an identifier returns the
    identifier of a publisher the catalogue listed for one of the titles
    asked: the title passed in or a title typed by the operator in one of
    the rounds. *)
Theorem search_publishers_returns_a_listed_publisher
    (cat : Search.Catalogue) (op : Search.Operator) (fuel : nat) :
  forall (round : nat) (title : option string) (ev : list Main.Event) (id : Z),
    Search._search_publishers cat op fuel round title
    = (ev, Search.Returned (Some id)) ->
    exists (asked : string) (listed : list Models.Simyan.Publisher)
           (x : Models.Simyan.Publisher),
      (title = Some asked \/ exists r, Search.ask_title op r = asked)
      /\ Search.list_publishers cat ("name:" +:+ asked) = Some listed
      /\ x ∈ listed
      /\ Models.Simyan.publisher_id x = id.
Proof.
  induction fuel as [|fuel IH]; intros round title ev id; simpl;
    [discriminate|].
  destruct (Search.list_publishers cat _) as [listed|] eqn:Hl; [|discriminate].
  destruct (decide _).
  - intros [= _ Hp]. apply pick_Returned in Hp as (x & Hx & [= ->]).
    exists (Search.title_or_ask op round title), listed, x.
    rewrite sorted_by_name_perm in Hx. repeat split; try assumption.
    unfold Search.title_or_ask. destruct title as [[|c t]|]; simpl.
    + right. now exists round.
    + now left.
    + right. now exists round.
  - destruct (negb _); [discriminate|].
    destruct (Search._search_publishers cat op fuel (S round) None)
      as [ev' r'] eqn:Hrec.
    intros [= _ ->]. destruct (IH _ _ _ _ Hrec) as (a & l & x & Ha & H).
    exists a, l, x. split; [|exact H].
    destruct Ha as [Ha|Ha]; [discriminate|now right].
Qed.

Lemma search_publishers_returns_a_listed_publisher_witness :
  exists (asked : string) (listed : list Models.Simyan.Publisher)
         (x : Models.Simyan.Publisher),
    (Some "Timely" = Some asked
     \/ exists r, Search.ask_title (Cases.second_try "Marvel" 1) r = asked)
    /\ Search.list_publishers Cases.shelf ("name:" +:+ asked) = Some listed
    /\ x ∈ listed
    /\ Models.Simyan.publisher_id x = 31.
Proof.
  apply (search_publishers_returns_a_listed_publisher Cases.shelf
           (Cases.second_try "Marvel" 1) 2 0 (Some "Timely")
           [Main.Log Main.WARNING
              "Unable to find any publishers with the title: 'Timely'"]).
  reflexivity.
Defined.

(** X22. The publisher search and the series search end as soon as the
    operator declines another try: if the answer to the retry question is
    no in the k-th round after the present one, the search finishes within
    k+1 rounds, with the same result whatever further rounds would have
    brought. *)
Theorem searches_end_when_retry_is_declined
    (cat : Search.Catalogue) (op : Search.Operator) (publisher_id : Z)
    (round k fuel : nat) (title : option string) :
  Search.try_again op (round + k) = false ->
  (k < fuel)%nat ->
  (Search._search_publishers cat op fuel round title
   = Search._search_publishers cat op (S k) round title
   /\ snd (Search._search_publishers cat op fuel round title)
      <> Search.Unfinished)
  /\ (Search._search_series cat op fuel round publisher_id title
      = Search._search_series cat op (S k) round publisher_id title
      /\ snd (Search._search_series cat op fuel round publisher_id title)
         <> Search.Unfinished).
Proof.
  intros Hno Hfuel. split.
  - now apply search_publishers_more_fuel.
  - rewrite (search_series_more_fuel cat op publisher_id k round title fuel Hno Hfuel).
    split; [reflexivity|now apply search_series_finished].
Qed.

Lemma searches_end_when_retry_is_declined_witness :
  (Search._search_publishers Cases.shelf (Cases.second_try "Marvel" 1) 7 0
     (Some "Timely")
   = Search._search_publishers Cases.shelf (Cases.second_try "Marvel" 1) 2 0
       (Some "Timely")
   /\ snd (Search._search_publishers Cases.shelf
             (Cases.second_try "Marvel" 1) 7 0 (Some "Timely"))
      <> Search.Unfinished)
  /\ (Search._search_series Cases.shelf (Cases.second_try "Marvel" 1) 7 0 31
        (Some "Timely")
      = Search._search_series Cases.shelf (Cases.second_try "Marvel" 1) 2 0 31
          (Some "Timely")
      /\ snd (Search._search_series Cases.shelf
                (Cases.second_try "Marvel" 1) 7 0 31 (Some "Timely"))
         <> Search.Unfinished).
Proof.
  apply (searches_end_when_retry_is_declined Cases.shelf
           (Cases.second_try "Marvel" 1) 31 0 1 7 (Some "Timely")).
  - reflexivity.
  - lia.
Defined.

Section SearchResults.
Import Py Models Main Search.

Lemma search_issues_unnumbered (cat : Catalogue) (op : Operator) (n round : nat)
    (series_id : Z) (number : option string) :
  bool_of_optstr number = false ->
  _search_issues cat op (S n) round series_id number
  = _search_issues cat op 1 round series_id number
  /\ snd (_search_issues cat op (S n) round series_id number) <> Unfinished.
Proof.
  intros Hn. simpl. rewrite Hn.
  destruct (list_issues cat _); [|now split].
  destruct (sorted_by_number_name cat _); [|now split].
  destruct (decide _); [|now split].
  split; [reflexivity|apply pick_finished].
Qed.

Lemma warning_is_no_error (warn : list Event) (text : string) :
  warn = [] \/ warn = [Log WARNING text] ->
  Log ERROR EmptyString ∉ warn.
Proof.
  intros [->| ->] H.
  - now apply elem_of_nil in H.
  - apply list_elem_of_singleton in H. discriminate.
Qed.

Lemma search_publishers_error (cat : Catalogue) (op : Operator) (fuel : nat) :
  forall round title ev r,
    _search_publishers cat op fuel round title = (ev, r) ->
    Log ERROR EmptyString ∈ ev -> r = Returned None.
Proof.
  induction fuel as [|fuel IH]; intros round title ev r; simpl.
  - intros [= <- <-] H. now apply elem_of_nil in H.
  - destruct (list_publishers cat _) as [listed|]; [|now intros [= <- <-]].
    set (warn := match sorted_by_name listed with [] => _ | _ => _ end).
    assert (Hw : Log ERROR EmptyString ∉ warn).
    { eapply warning_is_no_error. subst warn.
      destruct (sorted_by_name listed); [right; reflexivity|now left]. }
    destruct (decide _); [now intros [= <- <-]|].
    destruct (negb _); [now intros [= <- <-]|].
    destruct (_search_publishers cat op fuel (S round) None) as [ev' r'] eqn:Hrec.
    intros [= <- <-] H. apply elem_of_app in H as [H|H]; [contradiction|].
    exact (IH _ _ _ _ Hrec H).
Qed.

Lemma search_series_error (cat : Catalogue) (op : Operator) (id : Z)
    (fuel : nat) :
  forall round title ev r,
    _search_series cat op fuel round id title = (ev, r) ->
    Log ERROR EmptyString ∈ ev -> r = Returned None.
Proof.
  induction fuel as [|fuel IH]; intros round title ev r; simpl.
  - intros [= <- <-] H. now apply elem_of_nil in H.
  - destruct (list_volumes cat _) as [listed|]; [|now intros [= <- <-]].
    destruct (of_publisher id listed) as [kept|e|];
      [|intros [= <- <-] H; now apply elem_of_nil in H
       |intros [= <- <-] H; now apply elem_of_nil in H].
    destruct (sorted_by_name_year cat kept) as [options|];
      [|intros [= <- <-] H; now apply elem_of_nil in H].
    set (warn := match options with [] => _ | _ => _ end).
    assert (Hw : Log ERROR EmptyString ∉ warn).
    { eapply warning_is_no_error. subst warn.
      destruct options; [right; reflexivity|now left]. }
    destruct (decide _); [now intros [= <- <-]|].
    destruct (negb _); [now intros [= <- <-]|].
    destruct (_search_series cat op fuel (S round) id None) as [ev' r'] eqn:Hrec.
    intros [= <- <-] H. apply elem_of_app in H as [H|H]; [contradiction|].
    exact (IH _ _ _ _ Hrec H).
Qed.

Lemma search_issues_error (cat : Catalogue) (op : Operator) (id : Z)
    (fuel : nat) :
  forall round number ev r,
    _search_issues cat op fuel round id number = (ev, r) ->
    Log ERROR EmptyString ∈ ev -> r = Returned None.
Proof.
  induction fuel as [|fuel IH]; intros round number ev r; simpl.
  - intros [= <- <-] H. now apply elem_of_nil in H.
  - destruct (list_issues cat _) as [listed|]; [|now intros [= <- <-]].
    destruct (sorted_by_number_name cat listed) as [options|];
      [|intros [= <- <-] H; now apply elem_of_nil in H].
    set (warn := match options with [] => _ | _ => _ end).
    assert (Hw : Log ERROR EmptyString ∉ warn).
    { eapply warning_is_no_error. subst warn.
      destruct options; [right; reflexivity|now left]. }
    destruct (decide _); [now intros [= <- <-]|].
    destruct (bool_of_optstr number); [|now intros [= <- <-]].
    destruct (_search_issues cat op fuel (S round) id None) as [ev' r'] eqn:Hrec.
    intros [= <- <-] H. apply elem_of_app in H as [H|H]; [contradiction|].
    apply elem_of_cons in H as [H|H]; [discriminate|].
    exact (IH _ _ _ _ Hrec H).
Qed.

End SearchResults.

(** X23. A series search that returns an identifier returns the identifier
    of a volume that the catalogue listed for one of the titles asked and
    that belongs to the publisher searched for, provided the sort hands
    back only elements it was given. *)
Theorem search_series_returns_a_volume_of_the_publisher
    (cat : Search.Catalogue) (op : Search.Operator) (publisher_id : Z)
    (fuel : nat) :
  (forall l l' x, Search.sorted_by_name_year cat l = Some l' -> x ∈ l' -> x ∈ l) ->
  forall (round : nat) (title : option string) (ev : list Main.Event) (id : Z),
    Search._search_series cat op fuel round publisher_id title
    = (ev, Search.Returned (Some id)) ->
    exists (asked : string) (listed : list Search.VolumeEntry)
           (x : Search.VolumeEntry),
      (title = Some asked \/ exists r, Search.ask_title op r = asked)
      /\ Search.list_volumes cat ("name:" +:+ asked) = Some listed
      /\ x ∈ listed
      /\ Search.ve_publisher x = Some publisher_id
      /\ Models.Simyan.volume_id (Search.ve_volume x) = id.
Proof.
  intros Hsort.
  induction fuel as [|fuel IH]; intros round title ev id; simpl;
    [discriminate|].
  destruct (Search.list_volumes cat _) as [listed|] eqn:Hl; [|discriminate].
  destruct (Search.of_publisher publisher_id listed) as [kept|e|] eqn:Hk;
    [|discriminate|discriminate].
  destruct (Search.sorted_by_name_year cat kept) as [options|] eqn:Hs;
    [|discriminate].
  destruct (decide _).
  - intros [= _ Hp]. apply pick_Returned in Hp as (x & Hx & [= ->]).
    apply (Hsort _ _ _ Hs) in Hx.
    destruct (of_publisher_Returned _ _ _ Hk x Hx) as [Hin Hpub].
    exists (Search.title_or_ask op round title), listed, x.
    repeat split; try assumption.
    unfold Search.title_or_ask. destruct title as [[|c t]|]; simpl.
    + right. now exists round.
    + now left.
    + right. now exists round.
  - destruct (negb _); [discriminate|].
    destruct (Search._search_series cat op fuel (S round) publisher_id None)
      as [ev' r'] eqn:Hrec.
    intros [= _ ->]. destruct (IH _ _ _ _ Hrec) as (a & l & x & Ha & H).
    exists a, l, x. split; [|exact H].
    destruct Ha as [Ha|Ha]; [discriminate|now right].
Qed.

Lemma search_series_returns_a_volume_of_the_publisher_witness :
  exists (asked : string) (listed : list Search.VolumeEntry)
         (x : Search.VolumeEntry),
    (Some "Amazing" = Some asked
     \/ exists r, Search.ask_title Cases.declines r = asked)
    /\ Search.list_volumes Cases.shelf ("name:" +:+ asked) = Some listed
    /\ x ∈ listed
    /\ Search.ve_publisher x = Some 31
    /\ Models.Simyan.volume_id (Search.ve_volume x) = 2128.
Proof.
  apply (search_series_returns_a_volume_of_the_publisher Cases.shelf
           {| Search.ask_title := fun _ => "Nothing";
              Search.choose := fun _ _ => 2%nat;
              Search.try_again := fun _ => false |} 31 1
           ltac:(intros l l' x [= ->] H; exact H) 0 (Some "Amazing") []).
  reflexivity.
Defined.

(** X24. The issue search asks at most twice: two rounds always finish it,
    whatever the catalogue and the operator do, and when no issue number is
    given a single round does. *)
Theorem issue_search_takes_at_most_two_rounds
    (cat : Search.Catalogue) (op : Search.Operator) (n round : nat)
    (series_id : Z) (number : option string) :
  Search._search_issues cat op (2 + n) round series_id number
  = Search._search_issues cat op 2 round series_id number
  /\ snd (Search._search_issues cat op 2 round series_id number)
     <> Search.Unfinished
  /\ (Py.bool_of_optstr number = false ->
      Search._search_issues cat op 2 round series_id number
      = Search._search_issues cat op 1 round series_id number).
Proof.
  repeat apply conj.
  - change (2 + n)%nat with (S (S n)).
    destruct (search_issues_unnumbered cat op n (S round) series_id None eq_refl)
      as [Hone _].
    remember (S n) as m eqn:Hm. remember 1%nat as one eqn:Ho. simpl.
    destruct (Search.list_issues cat _); [|reflexivity].
    destruct (Search.sorted_by_number_name cat _); [|reflexivity].
    destruct (decide _); [reflexivity|].
    destruct (Py.bool_of_optstr number); [|reflexivity].
    subst m one. now rewrite Hone.
  - destruct (search_issues_unnumbered cat op 0 (S round) series_id None eq_refl)
      as [_ Hfin].
    remember 1%nat as one. simpl.
    destruct (Search.list_issues cat _); [|discriminate].
    destruct (Search.sorted_by_number_name cat _); [|discriminate].
    destruct (decide _); [apply pick_finished|].
    destruct (Py.bool_of_optstr number); [|discriminate].
    subst one.
    destruct (Search._search_issues cat op 1 (S round) series_id None).
    exact Hfin.
  - intros Hn. now apply search_issues_unnumbered.
Qed.

Lemma issue_search_takes_at_most_two_rounds_witness :
  Search._search_issues Cases.shelf Cases.declines 2 0 2127 None
  = Search._search_issues Cases.shelf Cases.declines 1 0 2127 None.
Proof.
  apply (issue_search_takes_at_most_two_rounds Cases.shelf Cases.declines 0 0
           2127 None).
  reflexivity.
Defined.

(** X25. An issue search that returns an identifier returns the identifier
    of an issue the catalogue listed for the series, either under the given
    issue number or, when a number was given, among all issues of the
    series, provided the sort hands back only elements it was given. *)
Theorem search_issues_returns_a_listed_issue
    (cat : Search.Catalogue) (op : Search.Operator) (series_id : Z)
    (fuel round : nat) (number : option string) (ev : list Main.Event) (id : Z) :
  (forall l l' x,
     Search.sorted_by_number_name cat l = Some l' -> x ∈ l' -> x ∈ l) ->
  Search._search_issues cat op fuel round series_id number
  = (ev, Search.Returned (Some id)) ->
  exists (listed : list Search.IssueEntry) (x : Search.IssueEntry),
    (Search.list_issues cat (Search.issue_filter series_id number) = Some listed
     \/ Py.bool_of_optstr number = true
        /\ Search.list_issues cat
             ("volume:" +:+ Py.str_of_Z series_id) = Some listed)
    /\ x ∈ listed
    /\ Search.ie_id x = id.
Proof.
  intros Hsort.
  destruct fuel as [|fuel]; simpl; [discriminate|].
  destruct (Search.list_issues cat _) as [listed|] eqn:Hl; [|discriminate].
  destruct (Search.sorted_by_number_name cat listed) as [options|] eqn:Hs;
    [|discriminate].
  destruct (decide _).
  - intros [= _ Hp]. apply pick_Returned in Hp as (x & Hx & [= ->]).
    apply (Hsort _ _ _ Hs) in Hx. exists listed, x. now repeat split; [left|..].
  - destruct (Py.bool_of_optstr number) eqn:Hn; [|discriminate].
    destruct fuel as [|fuel]; simpl; [discriminate|].
    change (Search.issue_filter series_id None)
      with ("volume:" +:+ Py.str_of_Z series_id).
    destruct (Search.list_issues cat ("volume:" +:+ Py.str_of_Z series_id))
      as [listed'|] eqn:Hl'; [|discriminate].
    destruct (Search.sorted_by_number_name cat listed') as [options'|] eqn:Hs';
      [|discriminate].
    destruct (decide _); [|discriminate].
    intros [= _ Hp]. apply pick_Returned in Hp as (x & Hx & [= ->]).
    apply (Hsort _ _ _ Hs') in Hx. exists listed', x.
    split; [right; now split|now split].
Qed.

Lemma search_issues_returns_a_listed_issue_witness :
  exists (listed : list Search.IssueEntry) (x : Search.IssueEntry),
    (Search.list_issues Cases.shelf (Search.issue_filter 2127 (Some "1"))
     = Some listed
     \/ Py.bool_of_optstr (Some "1") = true
        /\ Search.list_issues Cases.shelf
             ("volume:" +:+ Py.str_of_Z 2127) = Some listed)
    /\ x ∈ listed
    /\ Search.ie_id x = 6423.
Proof.
  apply (search_issues_returns_a_listed_issue Cases.shelf
           (Cases.second_try "Nothing" 2) 2127 2 0 (Some "1")
           [Main.Log Main.INFO "Searching again without the issue number"]).
  - intros l l' x [= ->] H. exact H.
  - reflexivity.
Defined.

(** X26. In each of the three searches an error log (the catalogue raised
    [ServiceError]) ends the search with [None]: whatever was chosen in
    earlier rounds, no identifier is returned and nothing is raised. *)
Theorem search_gives_up_on_service_error
    (cat : Search.Catalogue) (op : Search.Operator) (fuel round : nat)
    (id : Z) (title number : option string)
    (ev : list Main.Event) (r : Search.Result (option Z)) :
  Search._search_publishers cat op fuel round title = (ev, r)
  \/ Search._search_series cat op fuel round id title = (ev, r)
  \/ Search._search_issues cat op fuel round id number = (ev, r) ->
  Main.Log Main.ERROR EmptyString ∈ ev ->
  r = Search.Returned None.
Proof.
  intros [H|[H|H]] He.
  - exact (search_publishers_error _ _ _ _ _ _ _ H He).
  - exact (search_series_error _ _ _ _ _ _ _ _ H He).
  - exact (search_issues_error _ _ _ _ _ _ _ _ H He).
Qed.

Lemma search_gives_up_on_service_error_witness :
  snd (Search._search_publishers Cases.flaky
         {| Search.ask_title := fun _ => "Timely";
            Search.choose := fun _ _ => 0%nat;
            Search.try_again := fun _ => true |} 5 0 (Some "Marvel"))
  = Search.Returned None.
Proof.
  apply (search_gives_up_on_service_error Cases.flaky
           {| Search.ask_title := fun _ => "Timely";
              Search.choose := fun _ _ => 0%nat;
              Search.try_again := fun _ => true |} 5 0 0 (Some "Marvel") None
           [Main.Log Main.ERROR EmptyString]).
  - left. reflexivity.
  - apply list_elem_of_here.
Defined.
